(** * xStruct: a shallow embedding of [Struct] (struct.service.ts)

    The class [Struct] compiles a schema into a byte layout
    ([parseSchema]) and converts records to and from buffers
    ([toBuffer], [toObject]).  This file embeds the class in Rocq, together
    with the part of the JavaScript and Node.js [Buffer] semantics its
    methods rely on, and proves properties of the embedding.

    Conventions of the embedding.
    - A JavaScript number is an integer of [Z]: the numbers the schema types
      range over.  NaN, infinities and fractions are not values of the model,
      and an integer stands for itself only where a double holds it exactly:
      [parseInt] and the printing of a number in a message are those of
      such integers.
    - A JavaScript string that names something (a field, a type, a message)
      is a [string]; a text value stored in a record is the list of its
      Unicode code points, a surrogate in the list being an unpaired one.
    - An object is the list of its own enumerable properties in [for..in]
      order (the integer-like names first, then the others as they were
      added); property lookup falls back on [Object.prototype].
    - A call either returns, throws, or leaves the model ([OutOfModel]):
      when an unchecked cast lets a value of another kind flow where the
      source declares a number, or a property named [__proto__] is
      assigned. *)

From Stdlib Require Import ZArith Lia List String Ascii Bool DecimalString.
From stdpp Require Import base list gmap.

Import ListNotations.
Local Open Scope string_scope.
Local Open Scope Z_scope.
Local Open Scope list_scope.
Set Warnings "-register-all".

(** ** Outcomes of a call *)

Inductive JsError : Type :=
| Error (message : string)
| TypeError (message : string)
| RangeError (message : string).

Inductive outcome (A : Type) : Type :=
| Ok (a : A)
| Throw (e : JsError)
| OutOfModel.

Arguments Ok {A} a.
Arguments Throw {A} e.
Arguments OutOfModel {A}.

(** Sequencing of calls: [x ← m; k] stops at the first call that does not
    return. *)
#[global] Instance outcome_bind : MBind outcome := fun A B k m =>
  match m with
  | Ok a => k a
  | Throw e => Throw e
  | OutOfModel => OutOfModel
  end.

Definition returns {A : Type} (m : outcome A) : bool :=
  match m with Ok _ => true | _ => false end.

(** ** JavaScript values *)

Inductive Value : Type :=
| VUndefined
| VNull
| VBoolean (b : bool)
| VNumber (n : Z)
| VBigInt (n : Z)
| VString (codePoints : list Z)
| VObject (props : list (string * Value))
| VFunction.

Definition typeof (v : Value) : string :=
  match v with
  | VUndefined => "undefined"
  | VNull => "object"
  | VBoolean _ => "boolean"
  | VNumber _ => "number"
  | VBigInt _ => "bigint"
  | VString _ => "string"
  | VObject _ => "object"
  | VFunction => "function"
  end.

(** [ToBoolean]. *)
Definition truthy (v : Value) : bool :=
  match v with
  | VUndefined | VNull => false
  | VBoolean b => b
  | VNumber n | VBigInt n => negb (n =? 0)
  | VString s => match s with [] => false | _ => true end
  | VObject _ | VFunction => true
  end.

(** Own properties: an association list in enumeration order. *)
Fixpoint own {A : Type} (props : list (string * A)) (name : string) : option A :=
  match props with
  | [] => None
  | (k, v) :: rest => if String.eqb k name then Some v else own rest name
  end.

(** An own property set: an existing property keeps its place. *)
Fixpoint assign {A : Type} (props : list (string * A)) (name : string) (v : A)
  : list (string * A) :=
  match props with
  | [] => [(name, v)]
  | (k, w) :: rest =>
      if String.eqb k name then (k, v) :: rest else (k, w) :: assign rest name v
  end.

(** [obj[name] = v] on a plain object.  The name [__proto__] is the
    accessor of the prototype: assigning to it creates no property, and the
    model stops there. *)
Definition store {A : Type} (props : list (string * A)) (name : string) (v : A)
  : outcome (list (string * A)) :=
  if String.eqb name "__proto__" then OutOfModel
  else Ok (assign props name v).

(** The members every plain object inherits from [Object.prototype]. *)
Definition Object_prototype_methods : list string :=
  [ "constructor"; "hasOwnProperty"; "isPrototypeOf"; "propertyIsEnumerable";
    "toLocaleString"; "toString"; "valueOf";
    "__defineGetter__"; "__defineSetter__"; "__lookupGetter__"; "__lookupSetter__" ].

Definition mem_string (name : string) (l : list string) : bool :=
  existsb (String.eqb name) l.

Definition Object_prototype_get (name : string) : Value :=
  if mem_string name Object_prototype_methods then VFunction
  else if String.eqb name "__proto__" then VObject []
  else VUndefined.

Definition Object_prototype_has (name : string) : bool :=
  mem_string name Object_prototype_methods || String.eqb name "__proto__".

(** The own properties of an object; a primitive has none. *)
Definition properties (v : Value) : list (string * Value) :=
  match v with
  | VObject props => props
  | _ => []
  end.

(** [obj[name]] and [name in obj] on a plain object. *)
Definition get (props : list (string * Value)) (name : string) : Value :=
  match own props name with
  | Some v => v
  | None => Object_prototype_get name
  end.

Definition has (props : list (string * Value)) (name : string) : bool :=
  match own props name with
  | Some _ => true
  | None => Object_prototype_has name
  end.

(** The double-quote character of the messages. *)
Definition quote : string := String (ascii_of_nat 34) EmptyString.

(** Template-literal rendering of an integral number. *)
Definition show (n : Z) : string := NilZero.string_of_int (Z.to_int n).

(** ** 32-bit integer operators *)

Definition ToInt32 (z : Z) : Z := (z + 2 ^ 31) mod 2 ^ 32 - 2 ^ 31.

(** [a << b], [a >> b], [a & b], [a | b], [~a]. *)
Definition shl (a b : Z) : Z := ToInt32 (Z.shiftl (ToInt32 a) (b mod 32)).
Definition sar (a b : Z) : Z := Z.shiftr (ToInt32 a) (b mod 32).
Definition band (a b : Z) : Z := Z.land (ToInt32 a) (ToInt32 b).
Definition bor (a b : Z) : Z := Z.lor (ToInt32 a) (ToInt32 b).
Definition bnot (a : Z) : Z := Z.lnot (ToInt32 a).

(** [BigInt.asIntN(bits, v)], then [Number(...)]. *)
Definition asIntN (bits v : Z) : Z :=
  if bits <=? 0 then 0
  else (v + 2 ^ (bits - 1)) mod 2 ^ bits - 2 ^ (bits - 1).

(** ** String helpers of the source *)

Fixpoint includes (s sub : string) : bool :=
  String.prefix sub s ||
  match s with
  | EmptyString => false
  | String _ rest => includes rest sub
  end.

Definition startsWith (s p : string) : bool := String.prefix p s.

Definition isDigit (c : ascii) : bool :=
  let n := Z.of_nat (nat_of_ascii c) in (48 <=? n) && (n <=? 57).

Fixpoint allDigits (s : string) : bool :=
  match s with
  | EmptyString => true
  | String c rest => isDigit c && allDigits rest
  end.

(** [parseInt(digits, 10)] on a string of decimal digits. *)
Fixpoint parseDigits (acc : Z) (s : string) : Z :=
  match s with
  | EmptyString => acc
  | String c rest => parseDigits (10 * acc + (Z.of_nat (nat_of_ascii c) - 48)) rest
  end.

Definition parseInt (s : string) : Z := parseDigits 0 s.

(** ** Node.js [Buffer]

    A buffer is the list of its bytes, each in [0, 255], and holds fewer
    bytes than the largest buffer Node allocates.  The errors Node raises
    itself for a value, an offset or a length out of range are
    [RangeError]s; the model keeps their code in place of their message. *)

Abbreviation Buffer := (list Z).

Definition ERR_OUT_OF_RANGE : JsError := RangeError "ERR_OUT_OF_RANGE".

Definition ERR_BUFFER_OUT_OF_BOUNDS : JsError :=
  RangeError "ERR_BUFFER_OUT_OF_BOUNDS".

Definition byteLength (b : Buffer) : Z := Z.of_nat (length b).

(** [boundsError(offset, buffer.length - n)]: what an accessor of [n] bytes
    throws when [buffer[offset]] or [buffer[offset + n - 1]] is
    [undefined]. *)
Definition boundsError (b : Buffer) (n : nat) : JsError :=
  if byteLength b <? Z.of_nat n then ERR_BUFFER_OUT_OF_BOUNDS
  else ERR_OUT_OF_RANGE.

(** [Buffer.alloc(size)]: [size] zero bytes. *)
Definition Buffer_alloc (size : Z) : outcome Buffer :=
  if size <? 0 then Throw ERR_OUT_OF_RANGE
  else Ok (replicate (Z.to_nat size) 0).

(** [buffer[i]]: [None] stands for [undefined]. *)
Definition Buffer_get (b : Buffer) (i : Z) : option Z :=
  if i <? 0 then None else b !! Z.to_nat i.

(** [buffer[i] = v]: the value is stored modulo 256; a store outside the
    buffer is ignored. *)
Definition Buffer_put (b : Buffer) (i v : Z) : Buffer :=
  if i <? 0 then b else <[Z.to_nat i := v mod 256]> b.

(** Overwrites the bytes from [offset] on with [bytes]. *)
Definition splice (b : Buffer) (offset : Z) (bytes : list Z) : Buffer :=
  take (Z.to_nat offset) b ++ bytes
    ++ drop (Z.to_nat offset + length bytes) b.

(** The [n] bytes from [offset] on. *)
Definition slice (b : Buffer) (offset : Z) (n : Z) : list Z :=
  take (Z.to_nat n) (drop (Z.to_nat offset) b).

(** [target.set(source, offset)]. *)
Definition Buffer_set (target source : Buffer) (offset : Z) : outcome Buffer :=
  if (offset <? 0) || (byteLength target <? offset + byteLength source)
  then Throw (RangeError "offset is out of bounds")
  else Ok (splice target offset source).

(** [buffer.subarray(start, end)]: negative indices count from the end,
    and both are clamped to the buffer. *)
Definition clampIndex (len i : Z) : Z :=
  if i <? 0 then Z.max (len + i) 0 else Z.min i len.

Definition Buffer_subarray (b : Buffer) (start end_ : Z) : Buffer :=
  let s := clampIndex (byteLength b) start in
  let e := clampIndex (byteLength b) end_ in
  slice b s (Z.max (e - s) 0).

(** *** Integer accessors *)

Fixpoint le_bytes (n : nat) (v : Z) : list Z :=
  match n with
  | O => []
  | S n' => v mod 256 :: le_bytes n' (v / 256)
  end.

Fixpoint le_value (bytes : list Z) : Z :=
  match bytes with
  | [] => 0
  | b :: rest => b + 256 * le_value rest
  end.

Record IntFormat : Type := mkFormat {
  fmt_bytes : nat;
  fmt_signed : bool;
  fmt_little : bool;
  fmt_big : bool   (* the accessor takes and returns a BigInt *)
}.

(** The accessor pair [buffer['write' + type]], [buffer['read' + type]] for
    the type names of [PrimitiveType]; what another name selects is left out
    of the model. *)
Definition Buffer_format (type : string) : option IntFormat :=
  if String.eqb type "Int8" then Some (mkFormat 1 true true false)
  else if String.eqb type "UInt8" then Some (mkFormat 1 false true false)
  else if String.eqb type "Int16LE" then Some (mkFormat 2 true true false)
  else if String.eqb type "Int16BE" then Some (mkFormat 2 true false false)
  else if String.eqb type "UInt16LE" then Some (mkFormat 2 false true false)
  else if String.eqb type "UInt16BE" then Some (mkFormat 2 false false false)
  else if String.eqb type "Int32LE" then Some (mkFormat 4 true true false)
  else if String.eqb type "Int32BE" then Some (mkFormat 4 true false false)
  else if String.eqb type "UInt32LE" then Some (mkFormat 4 false true false)
  else if String.eqb type "UInt32BE" then Some (mkFormat 4 false false false)
  else if String.eqb type "BigInt64LE" then Some (mkFormat 8 true true true)
  else if String.eqb type "BigInt64BE" then Some (mkFormat 8 true false true)
  else if String.eqb type "BigUInt64LE" then Some (mkFormat 8 false true true)
  else if String.eqb type "BigUInt64BE" then Some (mkFormat 8 false false true)
  else None.

Definition fmt_bits (f : IntFormat) : Z := 8 * Z.of_nat (fmt_bytes f).

Definition fmt_min (f : IntFormat) : Z :=
  if fmt_signed f then - 2 ^ (fmt_bits f - 1) else 0.

Definition fmt_max (f : IntFormat) : Z :=
  if fmt_signed f then 2 ^ (fmt_bits f - 1) - 1 else 2 ^ fmt_bits f - 1.

Definition inBounds (b : Buffer) (offset : Z) (n : nat) : bool :=
  (0 <=? offset) && (offset + Z.of_nat n <=? byteLength b).

(** [buffer.write<Type>(value, offset)]: the value is checked against the
    range of the type, then the offset against the buffer. *)
Definition Buffer_writeInt (f : IntFormat) (b : Buffer) (value offset : Z)
  : outcome Buffer :=
  if (value <? fmt_min f) || (fmt_max f <? value) then Throw ERR_OUT_OF_RANGE
  else if negb (inBounds b offset (fmt_bytes f))
  then Throw (boundsError b (fmt_bytes f))
  else
    let bytes := le_bytes (fmt_bytes f) value in
    Ok (splice b offset (if fmt_little f then bytes else rev bytes)).

(** [buffer.read<Type>(offset)]. *)
Definition Buffer_readInt (f : IntFormat) (b : Buffer) (offset : Z) : outcome Z :=
  if negb (inBounds b offset (fmt_bytes f))
  then Throw (boundsError b (fmt_bytes f))
  else
    let bytes := slice b offset (Z.of_nat (fmt_bytes f)) in
    let u := le_value (if fmt_little f then bytes else rev bytes) in
    Ok (if fmt_signed f && (2 ^ (fmt_bits f - 1) <=? u) then u - 2 ^ fmt_bits f
        else u).

(** *** UTF-8 text *)

Definition isSurrogate (c : Z) : bool := (55296 <=? c) && (c <=? 57343).

(** The UTF-8 bytes of one code point; an unpaired surrogate is written as
    U+FFFD. *)
Definition utf8_encode1 (c : Z) : list Z :=
  if c <? 128 then [c]
  else if c <? 2048 then [192 + c / 64; 128 + c mod 64]
  else if isSurrogate c then [239; 191; 189]
  else if c <? 65536 then
    [224 + c / 4096; 128 + (c / 64) mod 64; 128 + c mod 64]
  else
    [240 + c / 262144; 128 + (c / 4096) mod 64; 128 + (c / 64) mod 64;
     128 + c mod 64].

Definition utf8_encode (s : list Z) : list Z := flat_map utf8_encode1 s.

(** The bytes [utf8Write] stores in a window of [room] bytes: whole
    characters only. *)
Fixpoint utf8_fit (s : list Z) (room : Z) : list Z :=
  match s with
  | [] => []
  | c :: rest =>
      let e := utf8_encode1 c in
      if Z.of_nat (length e) <=? room
      then e ++ utf8_fit rest (room - Z.of_nat (length e))
      else []
  end.

(** The decoder of the Encoding Standard: [pending] continuation bytes are
    still expected, the next one within [lower, upper]. *)
Record Utf8State : Type := mkUtf8 {
  codePoint : Z;
  pending : nat;
  lower : Z;
  upper : Z
}.

Definition utf8_start : Utf8State := mkUtf8 0 0 128 191.

Definition utf8_lead (b : Z) : Utf8State * list Z :=
  if (0 <=? b) && (b <=? 127) then (utf8_start, [b])
  else if (194 <=? b) && (b <=? 223) then (mkUtf8 (b - 192) 1 128 191, [])
  else if (224 <=? b) && (b <=? 239) then
    (mkUtf8 (b - 224) 2 (if b =? 224 then 160 else 128)
            (if b =? 237 then 159 else 191), [])
  else if (240 <=? b) && (b <=? 244) then
    (mkUtf8 (b - 240) 3 (if b =? 240 then 144 else 128)
            (if b =? 244 then 143 else 191), [])
  else (utf8_start, [65533]).

Definition utf8_step (st : Utf8State) (b : Z) : Utf8State * list Z :=
  match pending st with
  | O => utf8_lead b
  | S k =>
      if (lower st <=? b) && (b <=? upper st) then
        let c := codePoint st * 64 + (b - 128) in
        match k with
        | O => (utf8_start, [c])
        | S _ => (mkUtf8 c k 128 191, [])
        end
      else
        let '(st', out) := utf8_lead b in (st', 65533 :: out)
  end.

Fixpoint utf8_decode_from (st : Utf8State) (bytes : list Z) : list Z :=
  match bytes with
  | [] => match pending st with O => [] | S _ => [65533] end
  | b :: rest =>
      let '(st', out) := utf8_step st b in out ++ utf8_decode_from st' rest
  end.

Definition utf8_decode (bytes : list Z) : list Z :=
  utf8_decode_from utf8_start bytes.

(** [buffer.write(string, offset, length)] with the default encoding. *)
Definition Buffer_write (b : Buffer) (s : list Z) (offset length_ : Z)
  : outcome Buffer :=
  if (offset <? 0) || (byteLength b <? offset) then Throw ERR_OUT_OF_RANGE
  else if (length_ <? 0) || (byteLength b <? length_) then Throw ERR_OUT_OF_RANGE
  else
    let remaining := byteLength b - offset in
    let room := if remaining <? length_ then remaining else length_ in
    Ok (splice b offset (utf8_fit s room)).

(** [buffer.toString('utf8', start, end)]. *)
Definition Buffer_toString (b : Buffer) (start end_ : Z) : list Z :=
  let s := Z.max start 0 in
  let e := Z.min end_ (byteLength b) in
  if e <=? s then [] else utf8_decode (slice b s (e - s)).

(** [s.replace(/\x00+$/, '')]: drops the trailing run of NUL characters. *)
Definition trimNul (s : list Z) : list Z :=
  fold_right (fun c acc =>
                match acc with
                | [] => if c =? 0 then [] else [c]
                | _ => c :: acc
                end) [] s.

(** ** The interfaces (struct.interface.ts) *)

(** [PrimitiveType | string | Struct]: the [type] of a field. *)
Inductive FieldTypeOf (S : Type) : Type :=
| Named (name : string)
| Layout (struct : S).

Arguments Named {S} name.
Arguments Layout {S} struct.

(** [SchemaFieldType]. *)
Record SchemaFieldOf (S : Type) : Type := mkField {
  type : FieldTypeOf S;
  size : Z;
  offset : Z;       (* offset of the byte for this bitmap or primitive type *)
  isBits : bool;
  position : option Z   (* only in bitmap: the position in the bits *)
}.

Arguments mkField {S} type size offset isBits position.
Arguments type {S} _.
Arguments size {S} _.
Arguments offset {S} _.
Arguments isBits {S} _.
Arguments position {S} _.

(** An instance of the class: its [size] and its private [schema]. *)
Inductive Struct : Type :=
| mkStruct (size : Z) (schema : list (string * SchemaFieldOf Struct)).

Abbreviation FieldType := (FieldTypeOf Struct).
Abbreviation SchemaFieldType := (SchemaFieldOf Struct).
Abbreviation SchemaInterface := (list (string * SchemaFieldOf Struct)).

Definition Struct_size (s : Struct) : Z :=
  match s with mkStruct size _ => size end.

Definition Struct_schema (s : Struct) : SchemaInterface :=
  match s with mkStruct _ schema => schema end.

(** [ParseFieldInterface]; an absent [isBits] reads as [false]. *)
Record ParseFieldInterface : Type := mkParsed {
  parsed_type : FieldType;
  parsed_size : Z;
  parsed_isBits : bool
}.

(** A value of [StructSchemaInterface]: a type token, a [FieldInterface]
    (whose [type] is ['string']), or a [Struct]. *)
Inductive SchemaEntry : Type :=
| Token (token : string)
| Text (size : Z)
| Nested (struct : Struct).

Definition StructSchemaInterface : Type := list (string * SchemaEntry).

(** ** The methods of [Struct] *)

(** A method of [String] called on [field.type]: a [Struct] has none. *)
Definition typeName (field : SchemaFieldType) : outcome string :=
  match type field with
  | Named t => Ok t
  | Layout _ => Throw (TypeError "field.type is not a string")
  end.

Definition validateBitfieldValue (field : SchemaFieldType) (value : Z)
  : outcome unit :=
  t ← typeName field;
  let maxBitValue :=
    if startsWith t "Int" then shl 1 (size field - 1) - 1
    else shl 1 (size field) - 1 in
  let minBitValue :=
    if startsWith t "Int" then - shl 1 (size field - 1) else 0 in
  if (value <? minBitValue) || (maxBitValue <? value)
  then Throw (RangeError ("Value " ++ show value ++ " does not fit within "
                          ++ show (size field) ++ " bits for type " ++ t)%string)
  else Ok tt.

Definition processValueForBitfield (field : SchemaFieldType) (value : Z)
  : outcome Z :=
  t ← typeName field;
  if startsWith t "Int" then
    let bitLength := size field in
    if bitLength <? 0
    then Throw (RangeError "Invalid value: not (convertible to) a safe integer")
    else Ok (asIntN bitLength value)
  else Ok value.

Definition applyBitmask (currentByte : Z) (field : SchemaFieldType)
    (value bitPosition : Z) : Z :=
  let mask := shl 1 (size field) - 1 in
  let shiftedMask := shl mask bitPosition in
  let currentByte := band currentByte (bnot shiftedMask) in
  let valueShifted := band (shl value bitPosition) shiftedMask in
  bor currentByte valueShifted.

(** [buffer[byteOffset]] outside the buffer is [undefined], which the
    bitwise operators read as 0. *)
Definition writeBitField (buffer : Buffer) (field : SchemaFieldType) (value : Z)
  : outcome Buffer :=
  _ ← validateBitfieldValue field value;
  let byteOffset := offset field in
  let bitPosition := default 0 (position field) in
  processedValue ← processValueForBitfield field value;
  let currentByte := default 0 (Buffer_get buffer byteOffset) in
  let currentByte := applyBitmask currentByte field processedValue bitPosition in
  Ok (Buffer_put buffer byteOffset currentByte).

Definition writeField (buffer : Buffer) (field : SchemaFieldType) (value : Value)
  : outcome Buffer :=
  match type field with
  | Layout _ => Throw (TypeError "field.type.includes is not a function")
  | Named t =>
      if String.eqb t "string" then
        match value with
        | VString s => Buffer_write buffer s (offset field) (size field)
        | _ => Throw (TypeError ("Expected a string for field " ++ quote ++ t ++ quote
                                 ++ ", but received " ++ typeof value)%string)
        end
      else
        let isBigIntType := includes t "Big" in
        if isBigIntType && negb (String.eqb (typeof value) "bigint") then
          Throw (TypeError ("Expected a BigInt for field " ++ quote ++ t ++ quote
                            ++ ", but received " ++ typeof value)%string)
        else if negb isBigIntType && negb (String.eqb (typeof value) "number") then
          Throw (TypeError ("Expected a number for field " ++ quote ++ t ++ quote
                            ++ ", but received " ++ typeof value)%string)
        else
          match Buffer_format t, value with
          | Some method, (VNumber finalValue | VBigInt finalValue) =>
              Buffer_writeInt method buffer finalValue (offset field)
          | _, _ => OutOfModel
          end
  end.

Definition readBitField (buffer : Buffer) (field : SchemaFieldType) : outcome Z :=
  let byteOffset := offset field in
  let bitPosition := default 0 (position field) in
  let currentByte := default 0 (Buffer_get buffer byteOffset) in
  let mask := shl 1 (size field) - 1 in
  let value := band (sar currentByte bitPosition) mask in
  processValueForBitfield field value.

Definition readField (buffer : Buffer) (field : SchemaFieldType) : outcome Value :=
  let byteOffset := offset field in
  match type field with
  | Layout _ =>
      Throw (TypeError "Cannot read properties of undefined (reading 'call')")
  | Named t =>
      if String.eqb t "string" then
        Ok (VString (trimNul (Buffer_toString buffer byteOffset
                                              (byteOffset + size field))))
      else
        match Buffer_format t with
        | Some method =>
            v ← Buffer_readInt method buffer byteOffset;
            Ok (if fmt_big method then VBigInt v else VNumber v)
        | None => OutOfModel
        end
  end.

(** [field.match(/^(Int8|UInt8):(\d+)$/)]: the two captured groups. *)
Definition afterPrefix (p s : string) : option string :=
  if String.prefix p s
  then Some (String.substring (String.length p)
                              (String.length s - String.length p) s)
  else None.

Definition digitsGroup (rest : string) : option string :=
  match rest with
  | EmptyString => None
  | _ => if allDigits rest then Some rest else None
  end.

Definition matchBitField (field : string) : option (string * string) :=
  match afterPrefix "Int8:" field, afterPrefix "UInt8:" field with
  | Some rest, _ => option_map (pair "Int8") (digitsGroup rest)
  | None, Some rest => option_map (pair "UInt8") (digitsGroup rest)
  | None, None => None
  end.

Definition parseBitField (field : string) : outcome ParseFieldInterface :=
  match matchBitField field with
  | None => Throw (Error ("Invalid bit field format: " ++ field)%string)
  | Some (type, digits) =>
      let size := parseInt digits in   (* Size in bits *)
      Ok (mkParsed (Named type) size true)
  end.

Definition typeSizes : list (string * Value) :=
  [ ("Int8", VNumber 1); ("UInt8", VNumber 1);
    ("Int16LE", VNumber 2); ("Int16BE", VNumber 2);
    ("UInt16LE", VNumber 2); ("UInt16BE", VNumber 2);
    ("Int32LE", VNumber 4); ("Int32BE", VNumber 4);
    ("UInt32LE", VNumber 4); ("UInt32BE", VNumber 4);
    ("BigInt64LE", VNumber 8); ("BigInt64BE", VNumber 8);
    ("BigUInt64LE", VNumber 8); ("BigUInt64BE", VNumber 8) ].

(** [typeSizes[type]] is looked up like any property: a name inherited from
    [Object.prototype] yields a function, which is truthy, and the method
    returns it as the [size]. *)
Definition parsePrimitiveField (type : string) : outcome ParseFieldInterface :=
  let found := get typeSizes type in
  if truthy found then
    match found with
    | VNumber size => Ok (mkParsed (Named type) size false)
    | _ => OutOfModel
    end
  else Throw (TypeError ("Unsupported primitive type: " ++ type)%string).

Definition parseField (field : SchemaEntry) : outcome ParseFieldInterface :=
  match field with
  | Nested struct => Ok (mkParsed (Layout struct) (Struct_size struct) false)
  | Token token =>
      if includes token ":" then parseBitField token
      else parsePrimitiveField token
  | Text size => Ok (mkParsed (Named "string") size false)
  end.

Record Accumulator : Type := mkAcc { bits : Z; bytes : Z }.

(** The state of a constructor call: the accumulator of [parseSchema] and
    [this.schema]. *)
Definition processBitfield (name : string) (accumulator : Accumulator)
    (field : ParseFieldInterface) (schema : SchemaInterface)
  : outcome (Accumulator * SchemaInterface) :=
  let nextTotalBits := bits accumulator + parsed_size field in
  let accumulator :=
    if 8 <? nextTotalBits then mkAcc 0 (bytes accumulator + 1) else accumulator in
  schema ←
    store schema name
      (mkField (parsed_type field) (parsed_size field) (bytes accumulator) true
               (Some (bits accumulator)));
  Ok (mkAcc (bits accumulator + parsed_size field) (bytes accumulator), schema).

Fixpoint parseSchema_loop (fields : StructSchemaInterface)
    (accumulator : Accumulator) (schema : SchemaInterface)
  : outcome (Accumulator * SchemaInterface) :=
  match fields with
  | [] => Ok (accumulator, schema)
  | (fieldName, field) :: rest =>
      fieldObject ← parseField field;
      if negb (parsed_isBits fieldObject) then
        let accumulator :=
          if 0 <? bits accumulator then mkAcc 0 (bytes accumulator + 1)
          else accumulator in
        schema ←
          store schema fieldName
            (mkField (parsed_type fieldObject) (parsed_size fieldObject)
                     (bytes accumulator) false None);
        parseSchema_loop rest
          (mkAcc 0 (bytes accumulator + parsed_size fieldObject)) schema
      else
        '(accumulator, schema) ←
          processBitfield fieldName accumulator fieldObject schema;
        parseSchema_loop rest accumulator schema
  end.

(** Returns the total size together with the [this.schema] it has filled. *)
Definition parseSchema (schema : StructSchemaInterface)
  : outcome (Z * SchemaInterface) :=
  '(accumulator, this_schema) ← parseSchema_loop schema (mkAcc 0 0) [];
  Ok (if 0 <? bits accumulator then bytes accumulator + 1 else bytes accumulator,
      this_schema).

(** [new Struct(schema)]. *)
Definition new_Struct (schema : StructSchemaInterface) : outcome Struct :=
  '(size, this_schema) ← parseSchema schema;
  Ok (mkStruct size this_schema).

Section Fields.

(** The loops of [toBuffer] and [toObject] over [this.schema], given the
    method to call on a nested [Struct]. *)
Variable toBuffer_nested : Struct -> Value -> outcome Buffer.
Variable toObject_nested : Struct -> Buffer -> outcome Value.

Definition toBuffer_field (data : list (string * Value)) (fieldName : string)
    (field : SchemaFieldType) (buffer : Buffer) : outcome Buffer :=
  match field with
  | mkField (Layout nested) _ fieldOffset _ _ =>
      let nestedFieldValue := get data fieldName in
      if truthy nestedFieldValue then
        nestedStructBuffer ← toBuffer_nested nested nestedFieldValue;
        Buffer_set buffer nestedStructBuffer fieldOffset
      else
        Throw (Error ("Expected an object for field " ++ fieldName
                      ++ ", but received " ++ typeof nestedFieldValue)%string)
  | mkField (Named _) _ _ true _ =>
      match get data fieldName with
      | VNumber value => writeBitField buffer field value
      | _ => OutOfModel
      end
  | mkField (Named _) _ _ false _ =>
      writeField buffer field (get data fieldName)
  end.

Fixpoint toBuffer_loop (data : list (string * Value)) (fields : SchemaInterface)
    (buffer : Buffer) : outcome Buffer :=
  match fields with
  | [] => Ok buffer
  | (fieldName, field) :: rest =>
      if negb (has data fieldName) then toBuffer_loop data rest buffer
      else
        buffer ← toBuffer_field data fieldName field buffer;
        toBuffer_loop data rest buffer
  end.

Definition toObject_field (buffer : Buffer) (field : SchemaFieldType)
  : outcome Value :=
  match field with
  | mkField (Layout nested) fieldSize fieldOffset _ _ =>
      toObject_nested nested
        (Buffer_subarray buffer fieldOffset (fieldOffset + fieldSize))
  | mkField (Named _) _ _ true _ =>
      v ← readBitField buffer field; Ok (VNumber v)
  | mkField (Named _) _ _ false _ => readField buffer field
  end.

Fixpoint toObject_loop (buffer : Buffer) (fields : SchemaInterface)
    (result : list (string * Value)) : outcome Value :=
  match fields with
  | [] => Ok (VObject result)
  | (fieldName, field) :: rest =>
      v ← toObject_field buffer field;
      result ← store result fieldName v;
      toObject_loop buffer rest result
  end.

End Fields.

Fixpoint toBuffer (this : Struct) (data : Value) {struct this} : outcome Buffer :=
  match this with
  | mkStruct size schema =>
      buffer ← Buffer_alloc size;
      if negb (truthy data) || negb (String.eqb (typeof data) "object") then
        Throw (Error ("Expected an object of fields, but received "
                      ++ typeof data)%string)
      else toBuffer_loop toBuffer (properties data) schema buffer
  end.

Fixpoint toObject (this : Struct) (buffer : Buffer) {struct this} : outcome Value :=
  match this with
  | mkStruct _ schema => toObject_loop toObject buffer schema []
  end.

(** * The notions the properties are stated with *)

(** ** The worked example of the specification *)

Definition example_schema : StructSchemaInterface :=
  [ ("a", Token "UInt8:4"); ("b", Token "UInt8:4"); ("c", Token "UInt16LE") ].

Definition example_record : Value :=
  VObject [ ("a", VNumber 10); ("b", VNumber 5); ("c", VNumber 300) ].

(** ** A nested field given a value that is not a record *)

Definition inner_struct : Struct :=
  mkStruct 1 [("x", mkField (Named "UInt8") 1 0 false None)].

Definition outer_struct : Struct :=
  mkStruct 1 [("inner", mkField (Layout inner_struct) 1 0 false None)].

(** ** Tokens the constructor rejects *)

(** The tokens [/^(Int8|UInt8):(\d+)$/] matches. *)
Definition bitFieldToken (token : string) : Prop :=
  exists type digits : string,
    (type = "Int8" \/ type = "UInt8") /\
    digits <> "" /\ allDigits digits = true /\
    token = (type ++ ":" ++ digits)%string.

(** The supported primitive tokens: the own keys of [typeSizes]. *)
Definition primitiveToken (token : string) : bool :=
  match own typeSizes token with Some _ => true | None => false end.

(** An entry the constructor passes over without stopping. *)
Definition accepted (entry : string * SchemaEntry) : bool :=
  negb (String.eqb entry.1 "__proto__") && returns (parseField entry.2).

(** A token the constructor rejects: it holds a colon and is not matched by
    the bitfield pattern, or it holds none and is neither a key of
    [typeSizes] nor a name every object inherits. *)
Definition rejectedToken (token : string) : Prop :=
  if includes token ":" then ~ bitFieldToken token
  else primitiveToken token = false /\ Object_prototype_has token = false.

(** ** The range check of a bitfield *)

Definition rejects (type : string) (w v : Z) : Prop :=
  exists m, writeBitField [0] (mkField (Named type) w 0 true (Some 0)) v
            = Throw (RangeError m).

(** ** Well-formed schemas and the layouts they compile to *)

(** The bits a field occupies, as addresses counted from the start of the
    record: bit [k] of byte [i] has address [8 * i + k]. *)
Definition firstBit (f : SchemaFieldType) : Z :=
  8 * offset f + (if isBits f then default 0 (position f) else 0).

Definition endBit (f : SchemaFieldType) : Z :=
  if isBits f then firstBit f + size f else 8 * (offset f + size f).

Fixpoint distinct (names : list string) : bool :=
  match names with
  | [] => true
  | n :: rest => negb (mem_string n rest) && distinct rest
  end.

Section LayoutOk.

Variable nestedOk : Struct -> bool.

(** A field as the constructor records it for a well-formed token. *)
Definition fieldOk (f : SchemaFieldType) : bool :=
  (0 <=? offset f) && (0 <=? size f) &&
  match type f with
  | Layout nested =>
      negb (isBits f) && nestedOk nested && (size f =? Struct_size nested)
  | Named t =>
      if isBits f then
        (String.eqb t "Int8" || String.eqb t "UInt8")
        && (1 <=? size f) && (size f <=? 8)
        && match position f with
           | Some p => (0 <=? p) && (p + size f <=? 8)
           | None => false
           end
      else if String.eqb t "string" then 0 <=? size f
      else match Buffer_format t with
           | Some method => size f =? Z.of_nat (fmt_bytes method)
           | None => false
           end
  end.

(** The fields follow one another without overlap from [cursor] on; the
    result is the address after the last one. *)
Fixpoint chain (cursor : Z) (fields : SchemaInterface) : option Z :=
  match fields with
  | [] => Some cursor
  | (_, f) :: rest =>
      if fieldOk f && (cursor <=? firstBit f) then chain (endBit f) rest
      else None
  end.

End LayoutOk.

(** The invariant of a compiled layout, nested layouts included. *)
Fixpoint layoutOk (this : Struct) : bool :=
  match this with
  | mkStruct size schema =>
      (0 <=? size) && distinct (map fst schema) &&
      negb (mem_string "__proto__" (map fst schema)) &&
      match chain layoutOk 0 schema with
      | Some e => e <=? 8 * size
      | None => false
      end
  end.

(** A well-formed entry of a schema: a bitfield token of width 1..8, a
    supported primitive token, a text field of non-negative size, or a
    compiled layout. *)
Definition wellFormedEntry (entry : SchemaEntry) : bool :=
  match entry with
  | Token token =>
      if includes token ":" then
        match matchBitField token with
        | Some (_, digits) => (1 <=? parseInt digits) && (parseInt digits <=? 8)
        | None => false
        end
      else primitiveToken token
  | Text size => 0 <=? size
  | Nested struct => layoutOk struct
  end.

(** A schema as an object enumerates it: distinct names, none of them
    [__proto__], and well-formed entries. *)
Definition wellFormedSchema (schema : StructSchemaInterface) : bool :=
  distinct (map fst schema) && negb (mem_string "__proto__" (map fst schema))
  && forallb (fun e => wellFormedEntry (snd e)) schema.

(** What [parseField] returns on a well-formed entry. *)
Definition parsedOk (p : ParseFieldInterface) : bool :=
  match parsed_type p with
  | Layout nested =>
      negb (parsed_isBits p) && layoutOk nested
      && (parsed_size p =? Struct_size nested)
  | Named t =>
      if parsed_isBits p then
        (String.eqb t "Int8" || String.eqb t "UInt8")
        && (1 <=? parsed_size p) && (parsed_size p <=? 8)
      else if String.eqb t "string" then 0 <=? parsed_size p
      else match Buffer_format t with
           | Some method => parsed_size p =? Z.of_nat (fmt_bytes method)
           | None => false
           end
  end.

(** *** The accounting of the total size *)

(** The bytes of the fields that are not bitfields. *)
Definition byteFieldsSize (schema : SchemaInterface) : Z :=
  foldr (fun nf total => if isBits nf.2 then total else size nf.2 + total) 0 schema.

(** The bytes bitfields are packed into. *)
Definition bitfieldBytes (schema : SchemaInterface) : gset Z :=
  foldr (fun nf set => if isBits nf.2 then {[ offset nf.2 ]} ∪ set else set)
        ∅ schema.

(** The state of the constructor between two fields. *)
Definition loopInv (acc : Accumulator) (sch : SchemaInterface) : Prop :=
  0 <= bits acc <= 8 /\ 0 <= bytes acc /\
  (exists e, chain layoutOk 0 sch = Some e /\ 0 <= e <= 8 * bytes acc + bits acc) /\
  bytes acc + (if 0 <? bits acc then 1 else 0)
    = byteFieldsSize sch + Z.of_nat (base.size (bitfieldBytes sch)) /\
  (forall o, o ∈ bitfieldBytes sch ->
             o <= bytes acc /\ (bits acc = 0 -> o < bytes acc)) /\
  (0 < bits acc -> bytes acc ∈ bitfieldBytes sch).

(** *** Fields do not overlap *)

(** The bytes a field occupies, and the bits of a bitfield inside its byte:
    half-open intervals. *)
Definition byteSpan (f : SchemaFieldType) : Z * Z :=
  (offset f, offset f + (if isBits f then 1 else size f)).

Definition bitSpan (f : SchemaFieldType) : Z * Z :=
  (default 0 (position f), default 0 (position f) + size f).

Definition apart (a b : Z * Z) : Prop := a.2 <= b.1 \/ b.2 <= a.1.

Definition shareByte (f g : SchemaFieldType) : bool :=
  isBits f && isBits g && (offset f =? offset g).

Definition example_struct : Struct :=
  mkStruct 3
    [ ("a", mkField (Named "UInt8") 4 0 true (Some 0));
      ("b", mkField (Named "UInt8") 4 0 true (Some 4));
      ("c", mkField (Named "UInt16LE") 2 1 false None) ].

(** ** Induction over nested layouts *)

Definition nestedIn (schema : SchemaInterface) (nested : Struct) : Prop :=
  exists name f, In (name, f) schema /\ type f = Layout nested.

(** ** Integers written and read back *)

(** The bytes of [value] in the byte order of the accessor. *)
Definition intBytes (f : IntFormat) (value : Z) : list Z :=
  let bytes := le_bytes (fmt_bytes f) value in
  if fmt_little f then bytes else rev bytes.

Definition fits (f : IntFormat) (v : Z) : Prop := fmt_min f <= v <= fmt_max f.

(** ** Text written and read back *)

(** A Unicode scalar value: a code point that is not a surrogate. *)
Definition scalar (c : Z) : bool :=
  (0 <=? c) && (c <=? 1114111) && negb (isSurrogate c).

(** The decoder run over a prefix of the input. *)
Fixpoint utf8_run (st : Utf8State) (bytes : list Z) : Utf8State * list Z :=
  match bytes with
  | [] => (st, [])
  | b :: rest =>
      let '(st1, out1) := utf8_step st b in
      let '(st2, out2) := utf8_run st1 rest in
      (st2, out1 ++ out2)
  end.

Definition endsWithNul (s : list Z) : bool :=
  match last s with
  | Some c => c =? 0
  | None => false
  end.

(** ** Bitfields written and read back *)

(** The value [readBitField] extracts from a byte. *)
Definition rawBits (byte p w : Z) : Z := band (sar byte p) (shl 1 w - 1).

(** ** What a field holds in a buffer *)

(** The bytes of a byte field; for a bitfield, the one value its bits
    hold. *)
Definition content (b : Buffer) (f : SchemaFieldType) : list Z :=
  if isBits f
  then [rawBits (default 0 (Buffer_get b (offset f))) (default 0 (position f))
                (size f)]
  else slice b (offset f) (size f).

Definition zeroContent (f : SchemaFieldType) : list Z :=
  if isBits f then [0] else replicate (Z.to_nat (size f)) 0.

(** Two fields that do not overlap: apart in their bits when both are
    bitfields of one byte, apart in their bytes otherwise. *)
Definition separate (f g : SchemaFieldType) : Prop :=
  if shareByte f g then apart (bitSpan f) (bitSpan g)
  else apart (byteSpan f) (byteSpan g).

(** ** Records that fit a layout *)

(** A text that the field stores whole and that reads back unchanged:
    well-formed, at most [n] bytes of UTF-8, no NUL at the end. *)
Definition textOk (n : Z) (s : list Z) : bool :=
  forallb scalar s && (Z.of_nat (length (utf8_encode s)) <=? n)
  && negb (endsWithNul s).

Definition bitfieldRange (t : string) (w v : Z) : Prop :=
  if startsWith t "Int" then - 2 ^ (w - 1) <= v <= 2 ^ (w - 1) - 1
  else 0 <= v <= 2 ^ w - 1.

Section Conforms.

Variable conformsNested : Struct -> Value -> Prop.

(** A value of the declared kind and in range for the field. *)
Definition fieldValueOk (f : SchemaFieldType) (x : Value) : Prop :=
  match type f with
  | Layout nested => conformsNested nested x
  | Named t =>
      if isBits f then exists n, x = VNumber n /\ bitfieldRange t (size f) n
      else if String.eqb t "string" then
        exists s, x = VString s /\ textOk (size f) s = true
      else
        exists m n, Buffer_format t = Some m /\ fits m n /\
                    x = if fmt_big m then VBigInt n else VNumber n
  end.

(** Every field holds a fitting value; when the record need not be
    [complete], a field may also be absent ([name in data] is false). *)
Fixpoint fieldsConform (complete : bool) (props : list (string * Value))
    (fields : SchemaInterface) : Prop :=
  match fields with
  | [] => True
  | (name, f) :: rest =>
      match own props name with
      | Some x => fieldValueOk f x
      | None => complete = false /\ Object_prototype_has name = false
      end /\ fieldsConform complete props rest
  end.

End Conforms.

(** [conforms complete this data]: [data] is a record for the layout; a
    [complete] one populates every declared field and has no other. *)
Fixpoint conforms (complete : bool) (this : Struct) (data : Value) : Prop :=
  match this with
  | mkStruct _ schema =>
      match data with
      | VObject props =>
          fieldsConform (conforms complete) complete props schema /\
          (complete = true ->
           forallb (fun k => mem_string k (map fst schema)) (map fst props) = true)
      | _ => False
      end
  end.

(** The bytes [toBuffer] stores in a byte field. *)
Definition payload (f : SchemaFieldType) (x : Value) : list Z :=
  match type f with
  | Layout nested =>
      match toBuffer nested x with Ok nb => nb | _ => [] end
  | Named t =>
      if String.eqb t "string" then
        match x with VString s => utf8_encode s | _ => [] end
      else
        match Buffer_format t, x with
        | Some m, (VNumber n | VBigInt n) => intBytes m n
        | _, _ => []
        end
  end.

(** What a field holds once its value is written: the low bits of the
    value for a bitfield, the stored bytes followed by zeros for a byte
    field. *)
Definition encoding (f : SchemaFieldType) (x : Value) : list Z :=
  if isBits f then
    match x with VNumber n => [n mod 2 ^ size f] | _ => [] end
  else
    payload f x
      ++ replicate (Z.to_nat (size f) - length (payload f x))%nat 0.

(** What a declared field holds after [toBuffer]. *)
Definition written (props : list (string * Value)) (name : string)
    (f : SchemaFieldType) : list Z :=
  match own props name with
  | Some x => encoding f x
  | None => zeroContent f
  end.

(** ** Decoding what was encoded *)

Section Normalize.

Variable normalizeNested : Struct -> Value -> Value.

Definition normalizeField (props : list (string * Value))
    (entry : string * SchemaFieldType) : string * Value :=
  (entry.1,
   match type entry.2 with
   | Layout nested => normalizeNested nested (get props entry.1)
   | Named _ => get props entry.1
   end).

End Normalize.

(** The record with its fields in the order of the schema, nested records
    included. *)
Fixpoint normalize (this : Struct) (data : Value) : Value :=
  match this with
  | mkStruct _ schema =>
      VObject (map (normalizeField normalize (properties data)) schema)
  end.

(** ** Equality of records *)

(** Two values are the same when they are equal, or are objects with the
    same properties holding the same values, in whatever order. *)
Inductive sameValue : Value -> Value -> Prop :=
| same_refl (v : Value) : sameValue v v
| same_object (p q : list (string * Value)) :
    (forall name, option_Forall2 sameValue (own p name) (own q name)) ->
    sameValue (VObject p) (VObject q).

(** ** Round trip *)

Definition signed4 : Struct :=
  mkStruct 1 [("x", mkField (Named "Int8") 4 0 true (Some 0))].

Definition text4 : Struct :=
  mkStruct 4 [("t", mkField (Named "string") 4 0 false None)].

(** ** Decoding any buffer *)

Definition throwsRangeError {A : Type} (m : outcome A) : Prop :=
  exists code, m = Throw (RangeError code).

Section Readable.

Variable readableNested : Struct -> Buffer -> bool.

(** An integer field can be read when all its bytes lie within the buffer;
    a bitfield and a text field always can; a nested field when its layout
    can be read from the sub-range it is given. *)
Definition fieldReadable (b : Buffer) (f : SchemaFieldType) : bool :=
  match type f with
  | Layout nested =>
      readableNested nested
        (Buffer_subarray b (offset f) (offset f + size f))
  | Named t =>
      isBits f || String.eqb t "string" ||
      match Buffer_format t with
      | Some m => inBounds b (offset f) (fmt_bytes m)
      | None => true
      end
  end.

End Readable.

Fixpoint readable (this : Struct) (b : Buffer) : bool :=
  match this with
  | mkStruct _ schema => forallb (fun e => fieldReadable readable b e.2) schema
  end.

(** ** Buffers shorter than the layout *)

Definition bits_struct : Struct :=
  mkStruct 1 [ ("lo", mkField (Named "UInt8") 4 0 true (Some 0));
               ("hi", mkField (Named "Int8") 4 0 true (Some 4)) ].

(** ** Layouts built by the constructor *)

(** An entry the constructor accepts: a well-formed token or text field, or
    a layout that satisfies [P]. *)
Inductive entryOk (P : Struct -> Prop) : SchemaEntry -> Prop :=
| entryOk_token (token : string) :
    wellFormedEntry (Token token) = true -> entryOk P (Token token)
| entryOk_text (size : Z) :
    wellFormedEntry (Text size) = true -> entryOk P (Text size)
| entryOk_nested (struct : Struct) :
    P struct -> entryOk P (Nested struct).

(** The layouts [new Struct(schema)] returns for schemas of well-formed
    tokens, text fields and such layouts. *)
Inductive Compiled : Struct -> Prop :=
| Compiled_new (schema : StructSchemaInterface) (this : Struct) :
    distinct (map fst schema) = true ->
    mem_string "__proto__" (map fst schema) = false ->
    Forall (fun e => entryOk Compiled e.2) schema ->
    new_Struct schema = Ok this ->
    Compiled this.

(** ** Where the constructor places the fields *)

(** What the constructor records of an entry: its name, and the type, the
    size and the kind [parseField] returns for it. *)
Definition recorded (entry : string * SchemaEntry)
    (field : string * SchemaFieldType) : Prop :=
  field.1 = entry.1 /\
  exists p, parseField entry.2 = Ok p /\
            type field.2 = parsed_type p /\
            size field.2 = parsed_size p /\
            isBits field.2 = parsed_isBits p.

(** The first byte boundary at or after the bit address [e]. *)
Definition nextByte (e : Z) : Z := 8 * ((e + 7) / 8).

(** The bit address of a field when the fields before it end at [e]: a
    bitfield that fits in what is left of the byte of [e] starts at [e],
    every other field at the next byte boundary. *)
Definition placeAfter (e : Z) (f : SchemaFieldType) : Z :=
  if isBits f && (e mod 8 + size f <=? 8) then e else nextByte e.

(** Every field of the list is placed after the one before it, the first
    one after [e]. *)
Fixpoint packed (e : Z) (fields : SchemaInterface) : Prop :=
  match fields with
  | [] => True
  | (_, f) :: rest =>
      offset f = placeAfter e f / 8 /\
      position f = (if isBits f then Some (placeAfter e f mod 8) else None) /\
      packed (endBit f) rest
  end.

(** The bit address at which the last field ends, [e] when there is
    none. *)
Fixpoint endOf (e : Z) (fields : SchemaInterface) : Z :=
  match fields with
  | [] => e
  | (_, f) :: rest => endOf (endBit f) rest
  end.

(** ** Decoding a record that omits fields *)

Section ZeroValue.

Variable zeroRecordNested : Struct -> Value.

(** What a field whose bytes are zero decodes to: the number 0, the
    bigint 0, the empty text, or the nested record of such values. *)
Definition zeroValue (f : SchemaFieldType) : Value :=
  match type f with
  | Layout nested => zeroRecordNested nested
  | Named t =>
      if isBits f then VNumber 0
      else if String.eqb t "string" then VString []
      else if includes t "Big" then VBigInt 0
      else VNumber 0
  end.

Definition zeroField (entry : string * SchemaFieldType) : string * Value :=
  (entry.1, zeroValue entry.2).

End ZeroValue.

Fixpoint zeroRecord (this : Struct) : Value :=
  match this with
  | mkStruct _ schema => VObject (map (zeroField zeroRecord) schema)
  end.

Section Filled.

Variable filledNested : Struct -> Value -> Value.

Definition filledField (props : list (string * Value))
    (entry : string * SchemaFieldType) : string * Value :=
  (entry.1,
   match own props entry.1 with
   | Some x =>
       match type entry.2 with
       | Layout nested => filledNested nested x
       | Named _ => x
       end
   | None => zeroValue zeroRecord entry.2
   end).

End Filled.

(** The record with every declared field, in the order of the schema: the
    value the record holds for it, or the zero value when it holds none. *)
Fixpoint filled (this : Struct) (data : Value) : Value :=
  match this with
  | mkStruct _ schema => VObject (map (filledField filled (properties data)) schema)
  end.

(** ** Records [toBuffer] accepts *)

(** A buffer as Node holds it: every byte in [0, 255]. *)
Definition bytesOk (b : Buffer) : Prop := Forall (fun x => 0 <= x < 256) b.

Section Encodable.

Variable encodableNested : Struct -> Value -> Prop.

(** A value of the kind of the field and within its range. *)
Definition fieldEncodable (f : SchemaFieldType) (x : Value) : Prop :=
  match type f with
  | Layout nested => encodableNested nested x
  | Named t =>
      if isBits f then exists n, x = VNumber n /\ bitfieldRange t (size f) n
      else if String.eqb t "string" then exists s, x = VString s
      else exists m n, Buffer_format t = Some m /\ fits m n /\
                       x = if fmt_big m then VBigInt n else VNumber n
  end.

Fixpoint fieldsEncodable (props : list (string * Value))
    (fields : SchemaInterface) : Prop :=
  match fields with
  | [] => True
  | (name, f) :: rest =>
      (exists x, own props name = Some x /\ fieldEncodable f x)
      /\ fieldsEncodable props rest
  end.

End Encodable.

(** A record that holds, for every declared field, a value of its kind and
    within its range, nested records included. *)
Fixpoint encodable (this : Struct) (data : Value) : Prop :=
  match this with
  | mkStruct _ schema =>
      match data with
      | VObject props => fieldsEncodable encodable props schema
      | _ => False
      end
  end.

(** ** The size the specification gives a schema *)

(** A field as the specification describes it (§3): a bitfield of a width
    in bits, or a field of a size in bytes. *)
Inductive EntryKind : Type :=
| BitsOf (width : Z)
| BytesOf (size : Z).

(** The bytes of the primitive types: 8, 16, 32 and 64 bits. *)
Definition primitiveBytes (token : string) : option Z :=
  if mem_string token ["Int8"; "UInt8"] then Some 1
  else if mem_string token ["Int16LE"; "Int16BE"; "UInt16LE"; "UInt16BE"]
  then Some 2
  else if mem_string token ["Int32LE"; "Int32BE"; "UInt32LE"; "UInt32BE"]
  then Some 4
  else if mem_string token
            ["BigInt64LE"; "BigInt64BE"; "BigUInt64LE"; "BigUInt64BE"]
  then Some 8
  else None.

(** The number a string of decimal digits denotes. *)
Definition decimal (digits : string) : Z :=
  fold_left (fun n c => 10 * n + (Z.of_nat (nat_of_ascii c) - 48))
            (list_ascii_of_string digits) 0.

(** The width [n] a bitfield token ["<Int8|UInt8>:<n>"] declares: the
    number after the colon. *)
Definition declaredWidth (token : string) : option Z :=
  match String.index 0 ":" token with
  | Some i =>
      Some (decimal (String.substring (S i) (String.length token - S i) token))
  | None => None
  end.

Definition kindOf (entry : SchemaEntry) : option EntryKind :=
  match entry with
  | Token token =>
      if includes token ":" then option_map BitsOf (declaredWidth token)
      else option_map BytesOf (primitiveBytes token)
  | Text size => Some (BytesOf size)
  | Nested struct => Some (BytesOf (Struct_size struct))
  end.

Fixpoint schemaKinds (schema : StructSchemaInterface) : option (list EntryKind) :=
  match schema with
  | [] => Some []
  | (_, entry) :: rest =>
      match kindOf entry, schemaKinds rest with
      | Some kind, Some kinds => Some (kind :: kinds)
      | _, _ => None
      end
  end.


(** The number of 8-bit runs of packed bitfields, one byte each, when
    [open] bits of a run are in use: a bitfield that would take the run
    past 8 bits closes it and opens the next, a field that is no bitfield
    closes it, and a run still open at the end counts as well. *)
Fixpoint bitfieldRuns (open : Z) (kinds : list EntryKind) : Z :=
  match kinds with
  | [] => if 0 <? open then 1 else 0
  | BitsOf width :: rest =>
      if 8 <? open + width then 1 + bitfieldRuns width rest
      else bitfieldRuns (open + width) rest
  | BytesOf _ :: rest => (if 0 <? open then 1 else 0) + bitfieldRuns 0 rest
  end.

(** ** Names that [for..in] enumerates ahead of the others *)

(** A name made of decimal digits: the integer-like names, which an object
    enumerates in numeric order before its other names, are among them. *)
Definition integerLike (name : string) : bool :=
  match name with
  | EmptyString => false
  | _ => allDigits name
  end.

(** * Properties *)

Ltac bool_hyps :=
  repeat match goal with
    | H : _ && _ = true |- _ => apply andb_true_iff in H as [? ?]
    | H : _ || _ = false |- _ => apply orb_false_iff in H as [? ?]
    | H : negb _ = true |- _ => apply negb_true_iff in H
    | H : negb _ = false |- _ => apply negb_false_iff in H
    | H : (_ <=? _) = true |- _ => apply Z.leb_le in H
    | H : (_ <=? _) = false |- _ => apply Z.leb_gt in H
    | H : (_ <? _) = true |- _ => apply Z.ltb_lt in H
    | H : (_ <? _) = false |- _ => apply Z.ltb_ge in H
    | H : (_ =? _) = true |- _ => apply Z.eqb_eq in H
    | H : (_ =? _) = false |- _ => apply Z.eqb_neq in H
    end.

Ltac bool_goal :=
  repeat match goal with
    | |- _ && _ = true => apply andb_true_iff; split
    | |- negb _ = true => apply negb_true_iff
    | |- (_ <=? _) = true => apply Z.leb_le
    | |- (_ <? _) = true => apply Z.ltb_lt
    | |- (_ =? _) = true => apply Z.eqb_eq
    end.

(** ** The worked example of the specification *)

(** C2: the schema [{ a: "UInt8:4", b: "UInt8:4", c: "UInt16LE" }] compiles
    to a layout of 3 bytes; the record [{a:10, b:5, c:300}] is encoded as
    the bytes [0x5A, 0x2C, 0x01], where [0x5A] is [b << 4 | a] and the other
    two are 300 in little-endian order; decoding these bytes gives the
    record back. *)
Theorem example_scenario :
  exists this : Struct,
    new_Struct example_schema = Ok this /\
    Struct_size this = 3 /\
    toBuffer this example_record = Ok [90; 44; 1] /\
    90 = Z.lor (Z.shiftl 5 4) 10 /\
    le_bytes 2 300 = [44; 1] /\
    toObject this [90; 44; 1] = Ok example_record.
Proof.
  eexists. split; [reflexivity|].
  repeat split; vm_compute; reflexivity.
Qed.

(** ** The argument of [toBuffer] must be an object *)

Lemma Buffer_alloc_ok (n : Z) :
  0 <= n -> Buffer_alloc n = Ok (replicate (Z.to_nat n) 0).
Proof.
  intros Hn. unfold Buffer_alloc.
  destruct (Z.ltb_spec n 0); [lia | reflexivity].
Qed.

Lemma not_object_guard (data : Value) :
  (forall props, data <> VObject props) ->
  negb (truthy data) || negb (String.eqb (typeof data) "object") = true.
Proof.
  intros Hno. destruct data; try reflexivity.
  - simpl. destruct b; reflexivity.
  - simpl. now rewrite orb_true_r.
  - simpl. now rewrite orb_true_r.
  - simpl. now rewrite orb_true_r.
  - now destruct (Hno props).
Qed.

(** C10: for a layout of non-negative size and an argument that is not an
    object (null, undefined, or any primitive), [toBuffer] throws the error
    "Expected an object of fields, but received <typeof data>"; no field is
    looked at, whatever the schema holds. *)
Theorem toBuffer_rejects_non_object (this : Struct) (data : Value) :
  0 <= Struct_size this ->
  (forall props, data <> VObject props) ->
  toBuffer this data =
    Throw (Error ("Expected an object of fields, but received "
                  ++ typeof data)%string).
Proof.
  intros Hsize Hno. destruct this as [sz sch]. simpl in Hsize.
  cbn [toBuffer]. rewrite (Buffer_alloc_ok _ Hsize). cbn [mbind outcome_bind].
  now rewrite (not_object_guard _ Hno).
Qed.

Lemma toBuffer_rejects_non_object_witness :
  toBuffer (mkStruct 1 [("x", mkField (Named "UInt8") 1 0 false None)]) VNull
  = Throw (Error "Expected an object of fields, but received object").
Proof.
  apply (toBuffer_rejects_non_object
           (mkStruct 1 [("x", mkField (Named "UInt8") 1 0 false None)]) VNull).
  - simpl. lia.
  - intros props H. discriminate H.
Defined.

(** ** A nested field given a value that is not a record *)

(** C8, at the failing input: in the layout of
    [{ inner: new Struct({ x: 'UInt8' }) }] the nested field [inner] holds
    the number 5.  The value is truthy, so it is handed to the nested
    [toBuffer], whose own error is raised: it reports the kind of the value
    and does not name the field.  For the falsy number 0 the error of the
    parent is raised and names the field. *)
Theorem nested_scalar_error_omits_field :
  new_Struct [("x", Token "UInt8")] = Ok inner_struct /\
  new_Struct [("inner", Nested inner_struct)] = Ok outer_struct /\
  toBuffer outer_struct (VObject [("inner", VNumber 5)])
    = Throw (Error "Expected an object of fields, but received number") /\
  includes "Expected an object of fields, but received number" "inner" = false /\
  toBuffer outer_struct (VObject [("inner", VNumber 0)])
    = Throw (Error "Expected an object for field inner, but received number").
Proof. repeat split; vm_compute; reflexivity. Qed.

(** A falsy value of a nested field (null, undefined, 0, the empty string,
    false) raises the error that names the field. *)
Lemma nested_falsy_error_names_field
    (fieldName : string) (nested : Struct) (fsz foff : Z) (b : bool)
    (p : option Z) (props : list (string * Value)) (buffer : Buffer) :
  truthy (get props fieldName) = false ->
  toBuffer_field toBuffer props fieldName
                 (mkField (Layout nested) fsz foff b p) buffer
  = Throw (Error ("Expected an object for field " ++ fieldName
                  ++ ", but received " ++ typeof (get props fieldName))%string).
Proof.
  intros Hf. unfold toBuffer_field. now rewrite Hf.
Qed.

(** ** Tokens the constructor rejects *)

Lemma substring_all (s : string) : String.substring 0 (String.length s) s = s.
Proof. induction s as [|c s IH]; simpl; [reflexivity | now rewrite IH]. Qed.

Lemma prefix_empty (s : string) : String.prefix "" s = true.
Proof. destruct s; reflexivity. Qed.

Lemma afterPrefix_Some (p s r : string) :
  afterPrefix p s = Some r -> s = (p ++ r)%string.
Proof.
  unfold afterPrefix. revert s.
  induction p as [|a p IH]; intros s.
  - rewrite prefix_empty. simpl String.length.
    rewrite Nat.sub_0_r, substring_all. now intros [= ->].
  - destruct s as [|b s]; simpl; [discriminate|].
    destruct (ascii_dec a b) as [->|]; [|discriminate].
    intros H. change (String b p ++ r)%string with (String b (p ++ r)%string).
    f_equal. now apply IH.
Qed.

Lemma afterPrefix_app (p r : string) : afterPrefix p (p ++ r) = Some r.
Proof.
  unfold afterPrefix. induction p as [|a p IH].
  - rewrite prefix_empty. simpl. now rewrite Nat.sub_0_r, substring_all.
  - simpl. destruct (ascii_dec a a) as [_|]; [exact IH | congruence].
Qed.

Lemma digitsGroup_Some (rest d : string) :
  digitsGroup rest = Some d -> d = rest /\ rest <> "" /\ allDigits rest = true.
Proof.
  unfold digitsGroup. destruct rest as [|c rest]; [discriminate|].
  destruct (allDigits (String c rest)) eqn:E; [|discriminate].
  intros [= <-]. repeat split. discriminate.
Qed.

Lemma matchBitField_Some (token type digits : string) :
  matchBitField token = Some (type, digits) ->
  (type = "Int8" \/ type = "UInt8") /\ digits <> "" /\
  allDigits digits = true /\ token = (type ++ ":" ++ digits)%string.
Proof.
  unfold matchBitField.
  destruct (afterPrefix "Int8:" token) as [rest|] eqn:E1.
  - destruct (digitsGroup rest) as [d|] eqn:Ed; [|discriminate].
    intros [= <- <-]. apply digitsGroup_Some in Ed as (-> & Hne & Hd).
    apply afterPrefix_Some in E1. auto.
  - destruct (afterPrefix "UInt8:" token) as [rest|] eqn:E2; [|discriminate].
    destruct (digitsGroup rest) as [d|] eqn:Ed; [|discriminate].
    intros [= <- <-]. apply digitsGroup_Some in Ed as (-> & Hne & Hd).
    apply afterPrefix_Some in E2. auto.
Qed.

Lemma matchBitField_None (token : string) :
  ~ bitFieldToken token -> matchBitField token = None.
Proof.
  intros Hno. destruct (matchBitField token) as [[type digits]|] eqn:E;
    [|reflexivity].
  destruct Hno. exists type, digits. now apply matchBitField_Some.
Qed.

Lemma digitsGroup_digits (d : string) :
  d <> "" -> allDigits d = true -> digitsGroup d = Some d.
Proof.
  intros Hne Hd. unfold digitsGroup. destruct d; [congruence|]. now rewrite Hd.
Qed.

(** Every decimal width is accepted, in or out of 1..8. *)
Lemma parseBitField_accepts (type digits : string) :
  (type = "Int8" \/ type = "UInt8") ->
  digits <> "" -> allDigits digits = true ->
  parseBitField (type ++ ":" ++ digits)
    = Ok (mkParsed (Named type) (parseInt digits) true).
Proof.
  intros Ht Hne Hd. unfold parseBitField, matchBitField.
  destruct Ht as [-> | ->].
  - change ("Int8" ++ ":" ++ digits)%string with ("Int8:" ++ digits)%string.
    rewrite afterPrefix_app, digitsGroup_digits by assumption. reflexivity.
  - change ("UInt8" ++ ":" ++ digits)%string with ("UInt8:" ++ digits)%string.
    rewrite afterPrefix_app.
    change (afterPrefix "Int8:" ("UInt8:" ++ digits)) with (@None string).
    rewrite digitsGroup_digits by assumption. reflexivity.
Qed.

Lemma parseField_rejected (token : string) :
  rejectedToken token ->
  parseField (Token token) =
    Throw (if includes token ":"
           then Error ("Invalid bit field format: " ++ token)%string
           else TypeError ("Unsupported primitive type: " ++ token)%string).
Proof.
  unfold rejectedToken, parseField.
  destruct (includes token ":").
  - intros Hno. unfold parseBitField. now rewrite (matchBitField_None _ Hno).
  - intros [Hp Hi]. unfold parsePrimitiveField, get, primitiveToken in *.
    destruct (own typeSizes token); [discriminate|].
    unfold Object_prototype_has in Hi. apply orb_false_iff in Hi as [H1 H2].
    unfold Object_prototype_get. now rewrite H1, H2.
Qed.

Lemma parseSchema_loop_throws (before : StructSchemaInterface) :
  forall (fieldName : string) (field : SchemaEntry) (e : JsError)
         (after : StructSchemaInterface) (acc : Accumulator)
         (schema : SchemaInterface),
    forallb accepted before = true ->
    parseField field = Throw e ->
    parseSchema_loop (before ++ (fieldName, field) :: after) acc schema = Throw e.
Proof.
  induction before as [|[n f] before IH]; intros fieldName field e after acc schema Hb Hf.
  - simpl. now rewrite Hf.
  - cbn [forallb] in Hb. apply andb_true_iff in Hb as [Hhd Htl].
    unfold accepted in Hhd. apply andb_true_iff in Hhd as [Hn Hhd].
    apply negb_true_iff in Hn. cbn [fst snd] in Hn, Hhd.
    cbn [app parseSchema_loop].
    destruct (parseField f) as [fo| |]; try discriminate.
    cbn [mbind outcome_bind]. unfold processBitfield, store. rewrite Hn.
    cbn [mbind outcome_bind].
    destruct (negb (parsed_isBits fo)); now apply IH.
Qed.

(** C4, as amended: the constructor throws at the first token that contains
    a colon without being of the form [Int8:<digits>] or [UInt8:<digits>],
    or that contains no colon and is neither a supported primitive type nor
    a name inherited from [Object.prototype] (the entries before it being
    accepted); and a bitfield token is accepted with any decimal width,
    inside or outside 1..8. *)
Theorem constructor_rejects_malformed_token
    (before after : StructSchemaInterface) (fieldName token : string) :
  forallb accepted before = true ->
  rejectedToken token ->
  new_Struct (before ++ (fieldName, Token token) :: after) =
    Throw (if includes token ":"
           then Error ("Invalid bit field format: " ++ token)%string
           else TypeError ("Unsupported primitive type: " ++ token)%string)
  /\ (forall type digits : string,
        (type = "Int8" \/ type = "UInt8") ->
        digits <> "" -> allDigits digits = true ->
        exists size,
          parseField (Token (type ++ ":" ++ digits))
            = Ok (mkParsed (Named type) size true)).
Proof.
  intros Hb Hr. split.
  - unfold new_Struct, parseSchema.
    rewrite (parseSchema_loop_throws before fieldName (Token token) _ after
               _ _ Hb (parseField_rejected _ Hr)).
    reflexivity.
  - intros type digits Ht Hne Hd. exists (parseInt digits). unfold parseField.
    replace (includes (type ++ ":" ++ digits) ":") with true.
    + now apply parseBitField_accepts.
    + symmetry. destruct Ht as [-> | ->]; destruct digits; reflexivity.
Qed.

Lemma constructor_rejects_malformed_token_witness :
  new_Struct ([("a", Token "UInt8")] ++ [("b", Token "UInt8:x"); ("c", Token "Int8")])
    = Throw (Error "Invalid bit field format: UInt8:x").
Proof.
  refine (proj1 (constructor_rejects_malformed_token
                   [("a", Token "UInt8")] [("c", Token "Int8")] "b" "UInt8:x" _ _)).
  - reflexivity.
  - simpl. intros (type & digits & Ht & Hne & Hd & Heq).
    destruct Ht as [-> | ->]; cbv [String.append] in Heq;
      [discriminate Heq | injection Heq as <-; discriminate Hd].
Defined.

(** C4 as stated fails: widths 9 and 0 are outside 1..8, yet the layouts are
    constructed. *)
Lemma constructor_accepts_widths_9_and_0 :
  new_Struct [("f", Token "UInt8:9")]
    = Ok (mkStruct 2 [("f", mkField (Named "UInt8") 9 1 true (Some 0))]) /\
  new_Struct [("f", Token "UInt8:0")]
    = Ok (mkStruct 0 [("f", mkField (Named "UInt8") 0 0 true (Some 0))]).
Proof. split; reflexivity. Qed.

(** ** The 32-bit operators on small operands *)

Lemma ToInt32_small (x : Z) : - 2 ^ 31 <= x < 2 ^ 31 -> ToInt32 x = x.
Proof.
  intros H. unfold ToInt32. rewrite Z.mod_small; lia.
Qed.

Lemma ToInt32_mod (x : Z) : ToInt32 x mod 2 ^ 32 = x mod 2 ^ 32.
Proof.
  unfold ToInt32. rewrite Zminus_mod_idemp_l. f_equal. lia.
Qed.

Lemma testbit_ToInt32 (x i : Z) :
  0 <= i < 32 -> Z.testbit (ToInt32 x) i = Z.testbit x i.
Proof.
  intros Hi.
  rewrite <- (Z.mod_pow2_bits_low (ToInt32 x) 32 i) by lia.
  rewrite ToInt32_mod. apply Z.mod_pow2_bits_low. lia.
Qed.

Lemma shl_1 (w : Z) : 0 <= w < 31 -> shl 1 w = 2 ^ w.
Proof.
  intros Hw. unfold shl. rewrite (ToInt32_small 1) by lia.
  rewrite Z.mod_small by lia. rewrite Z.shiftl_1_l.
  apply ToInt32_small. split.
  - pose proof (Z.pow_pos_nonneg 2 w). lia.
  - apply Z.pow_lt_mono_r; lia.
Qed.

(** ** The range check of a bitfield *)

Lemma writeBitField_unsigned (buffer : Buffer) (w off : Z) (pos : option Z) (v : Z) :
  0 <= w < 31 ->
  writeBitField buffer (mkField (Named "UInt8") w off true pos) v =
    if (v <? 0) || (2 ^ w - 1 <? v)
    then Throw (RangeError ("Value " ++ show v ++ " does not fit within "
                            ++ show w ++ " bits for type UInt8")%string)
    else Ok (Buffer_put buffer off
               (applyBitmask (default 0 (Buffer_get buffer off))
                  (mkField (Named "UInt8") w off true pos) v (default 0 pos))).
Proof.
  intros Hw. unfold writeBitField, validateBitfieldValue, processValueForBitfield.
  cbn [typeName type size offset position mbind outcome_bind].
  change (startsWith "UInt8" "Int") with false. cbv iota.
  rewrite shl_1 by lia.
  destruct ((v <? 0) || (2 ^ w - 1 <? v)); reflexivity.
Qed.

Lemma writeBitField_signed (buffer : Buffer) (w off : Z) (pos : option Z) (v : Z) :
  1 <= w < 32 ->
  writeBitField buffer (mkField (Named "Int8") w off true pos) v =
    if (v <? - 2 ^ (w - 1)) || (2 ^ (w - 1) - 1 <? v)
    then Throw (RangeError ("Value " ++ show v ++ " does not fit within "
                            ++ show w ++ " bits for type Int8")%string)
    else Ok (Buffer_put buffer off
               (applyBitmask (default 0 (Buffer_get buffer off))
                  (mkField (Named "Int8") w off true pos) (asIntN w v)
                  (default 0 pos))).
Proof.
  intros Hw. unfold writeBitField, validateBitfieldValue, processValueForBitfield.
  cbn [typeName type size offset position mbind outcome_bind].
  change (startsWith "Int8" "Int") with true. cbv iota.
  rewrite shl_1 by lia.
  destruct ((v <? - 2 ^ (w - 1)) || (2 ^ (w - 1) - 1 <? v)); [reflexivity|].
  cbn [mbind outcome_bind].
  destruct (Z.ltb_spec w 0); [lia | reflexivity].
Qed.

(** C3: for a bitfield of declared width [w], [writeBitField] throws a
    [RangeError] exactly when the value lies outside [0, 2^w - 1] for the
    base type [UInt8], and outside [-2^(w-1), 2^(w-1) - 1] for [Int8].  This
    holds of the widths 1..8 of the grammar, and of every width up to 30,
    where the 32-bit shift that computes the bounds is exact. *)
Theorem bitfield_range_check
    (buffer : Buffer) (w off : Z) (pos : option Z) (v : Z) :
  1 <= w <= 30 ->
  ((exists m, writeBitField buffer (mkField (Named "UInt8") w off true pos) v
              = Throw (RangeError m))
   <-> ~ (0 <= v <= 2 ^ w - 1)) /\
  ((exists m, writeBitField buffer (mkField (Named "Int8") w off true pos) v
              = Throw (RangeError m))
   <-> ~ (- 2 ^ (w - 1) <= v <= 2 ^ (w - 1) - 1)).
Proof.
  intros Hw. split.
  - rewrite writeBitField_unsigned by lia.
    destruct (Z.ltb_spec v 0); destruct (Z.ltb_spec (2 ^ w - 1) v); simpl;
      split; intros H'; try (eexists; reflexivity); try lia;
      destruct H' as [m Hm]; discriminate Hm.
  - rewrite writeBitField_signed by lia.
    destruct (Z.ltb_spec v (- 2 ^ (w - 1)));
      destruct (Z.ltb_spec (2 ^ (w - 1) - 1) v); simpl;
      split; intros H'; try (eexists; reflexivity); try lia;
      destruct H' as [m Hm]; discriminate Hm.
Qed.

(** The instances the specification lists: a 4-bit unsigned field rejects 16
    and accepts 15; a 4-bit signed field rejects 8 and -9 and accepts 7
    and -8. *)
Lemma bitfield_range_check_witness :
  (rejects "UInt8" 4 16 /\ ~ rejects "UInt8" 4 15) /\
  (rejects "Int8" 4 8 /\ rejects "Int8" 4 (-9) /\
   ~ rejects "Int8" 4 7 /\ ~ rejects "Int8" 4 (-8)).
Proof.
  assert (H4 : 1 <= 4 <= 30) by lia.
  unfold rejects. repeat split.
  - apply (proj1 (bitfield_range_check [0] 4 0 (Some 0) 16 H4)). simpl. lia.
  - intros H. apply (proj1 (bitfield_range_check [0] 4 0 (Some 0) 15 H4)) in H.
    simpl in H. lia.
  - apply (proj2 (bitfield_range_check [0] 4 0 (Some 0) 8 H4)). simpl. lia.
  - apply (proj2 (bitfield_range_check [0] 4 0 (Some 0) (-9) H4)). simpl. lia.
  - intros H. apply (proj2 (bitfield_range_check [0] 4 0 (Some 0) 7 H4)) in H.
    simpl in H. lia.
  - intros H. apply (proj2 (bitfield_range_check [0] 4 0 (Some 0) (-8) H4)) in H.
    simpl in H. lia.
Defined.

(** ** Well-formed schemas and the layouts they compile to *)

Lemma primitiveToken_parsed (token : string) :
  primitiveToken token = true ->
  exists p, parsePrimitiveField token = Ok p /\ parsedOk p = true /\
            parsed_isBits p = false.
Proof.
  unfold primitiveToken, parsePrimitiveField, get, typeSizes, own.
  repeat match goal with
    | |- context [String.eqb ?k token] =>
        destruct (String.eqb_spec k token) as [<- | _];
        [ intros _; eexists; split; [reflexivity | split; reflexivity] | ]
    end.
  discriminate.
Qed.

Lemma wellFormedEntry_parsed (entry : SchemaEntry) :
  wellFormedEntry entry = true ->
  exists p, parseField entry = Ok p /\ parsedOk p = true.
Proof.
  destruct entry as [token | n | nested]; simpl.
  - destruct (includes token ":").
    + unfold parseBitField.
      destruct (matchBitField token) as [[t d]|] eqn:E; [|discriminate].
      intros H. apply matchBitField_Some in E as (Ht & _).
      eexists. split; [reflexivity|]. unfold parsedOk. simpl.
      apply andb_true_iff in H as [H1 H2]. rewrite H1, H2.
      destruct Ht as [-> | ->]; reflexivity.
    + intros H. apply primitiveToken_parsed in H as (p & Hp & Hok & _). eauto.
  - intros H. eexists. split; [reflexivity|]. exact H.
  - intros H. eexists. split; [reflexivity|]. unfold parsedOk. simpl.
    rewrite H. simpl. apply Z.eqb_refl.
Qed.

(** *** The accounting of the total size *)

Lemma byteFieldsSize_app (sch : SchemaInterface) (n : string) (f : SchemaFieldType) :
  byteFieldsSize (sch ++ [(n, f)])
  = byteFieldsSize sch + (if isBits f then 0 else size f).
Proof.
  induction sch as [|[m g] sch IH]; simpl.
  - destruct (isBits f); lia.
  - fold (byteFieldsSize (sch ++ [(n, f)])). fold (byteFieldsSize sch).
    rewrite IH. destruct (isBits g); lia.
Qed.

Lemma bitfieldBytes_app (sch : SchemaInterface) (n : string) (f : SchemaFieldType) :
  bitfieldBytes (sch ++ [(n, f)])
  = bitfieldBytes sch ∪ (if isBits f then {[ offset f ]} else ∅).
Proof.
  induction sch as [|[m g] sch IH]; simpl.
  - destruct (isBits f); set_solver.
  - fold (bitfieldBytes (sch ++ [(n, f)])). fold (bitfieldBytes sch).
    rewrite IH. destruct (isBits g); set_solver.
Qed.

Lemma chain_app (ok : Struct -> bool) (sch : SchemaInterface) :
  forall (c : Z) (n : string) (f : SchemaFieldType),
    chain ok c (sch ++ [(n, f)]) =
      match chain ok c sch with
      | Some e => if fieldOk ok f && (e <=? firstBit f) then Some (endBit f) else None
      | None => None
      end.
Proof.
  induction sch as [|[m g] sch IH]; intros c n f; simpl.
  - reflexivity.
  - destruct (fieldOk ok g && (c <=? firstBit g)); [apply IH | reflexivity].
Qed.

Lemma mem_string_app (n : string) (l1 l2 : list string) :
  mem_string n (l1 ++ l2) = mem_string n l1 || mem_string n l2.
Proof. apply existsb_app. Qed.

Lemma assign_fresh {A : Type} (props : list (string * A)) (name : string) (v : A) :
  mem_string name (map fst props) = false ->
  assign props name v = props ++ [(name, v)].
Proof.
  induction props as [|[k w] props IH]; simpl; [reflexivity|].
  intros H. apply orb_false_iff in H as [Hk Hrest].
  rewrite String.eqb_sym, Hk. f_equal. now apply IH.
Qed.

Lemma store_fresh {A : Type} (props : list (string * A)) (name : string) (v : A) :
  String.eqb name "__proto__" = false ->
  mem_string name (map fst props) = false ->
  store props name v = Ok (props ++ [(name, v)]).
Proof.
  intros Hn Hfresh. unfold store. now rewrite Hn, assign_fresh.
Qed.

Lemma no_proto_cons (name : string) (names : list string) :
  mem_string "__proto__" (name :: names) = false ->
  String.eqb name "__proto__" = false /\ mem_string "__proto__" names = false.
Proof.
  unfold mem_string. cbn [existsb]. intros H.
  apply orb_false_iff in H as [Hn Hrest]. now rewrite String.eqb_sym.
Qed.

Lemma distinct_middle (l1 : list string) (n : string) (l2 : list string) :
  distinct (l1 ++ n :: l2) = true ->
  mem_string n l1 = false /\ distinct ((l1 ++ [n]) ++ l2) = true.
Proof.
  rewrite <- app_assoc. simpl. intros H. split; [|exact H].
  induction l1 as [|m l1 IH]; [reflexivity|].
  simpl in H. apply andb_true_iff in H as [Hm Hd].
  apply negb_true_iff in Hm. rewrite mem_string_app in Hm.
  apply orb_false_iff in Hm as [_ Hm]. simpl in Hm.
  apply orb_false_iff in Hm as [Hm _].
  simpl. rewrite String.eqb_sym, Hm. simpl. now apply IH.
Qed.

Lemma loopInv_start : loopInv (mkAcc 0 0) [].
Proof.
  unfold loopInv. simpl. repeat split; try lia.
  - exists 0. split; [reflexivity | lia].
  - set_solver.
  - set_solver.
Qed.

Lemma parsedOk_size (p : ParseFieldInterface) : parsedOk p = true -> 0 <= parsed_size p.
Proof.
  unfold parsedOk. destruct p as [[t|nested] sz b]; simpl.
  - destruct b.
    + intros H. bool_hyps. lia.
    + destruct (String.eqb t "string").
      * intros H. bool_hyps. lia.
      * destruct (Buffer_format t); [|discriminate]. intros H. bool_hyps. lia.
  - intros H. bool_hyps. destruct nested as [nsz nsch]. simpl in *. bool_hyps. lia.
Qed.

Lemma parsedOk_byteField (p : ParseFieldInterface) (off : Z) :
  parsedOk p = true -> parsed_isBits p = false -> 0 <= off ->
  fieldOk layoutOk (mkField (parsed_type p) (parsed_size p) off false None) = true.
Proof.
  intros Hok Hb Hoff. pose proof (parsedOk_size p Hok) as Hsz.
  unfold parsedOk in Hok. rewrite Hb in Hok. unfold fieldOk. simpl.
  destruct (parsed_type p) as [t|nested]; simpl in *.
  - bool_goal; try lia. exact Hok.
  - bool_hyps. bool_goal; (lia || assumption || reflexivity).
Qed.

Lemma parsedOk_bitField (p : ParseFieldInterface) (off pos : Z) :
  parsedOk p = true -> parsed_isBits p = true -> 0 <= off ->
  0 <= pos -> pos + parsed_size p <= 8 ->
  1 <= parsed_size p <= 8 /\
  fieldOk layoutOk (mkField (parsed_type p) (parsed_size p) off true (Some pos))
  = true.
Proof.
  intros Hok Hb Hoff Hpos Hfit.
  unfold parsedOk in Hok. rewrite Hb in Hok. unfold fieldOk. simpl.
  destruct (parsed_type p) as [t|nested]; simpl in *; [|discriminate].
  bool_hyps. split; [lia|]. bool_goal; try lia. assumption.
Qed.

Lemma firstBit_bitField (t : FieldType) (w off p : Z) :
  firstBit (mkField t w off true (Some p)) = 8 * off + p.
Proof. reflexivity. Qed.

Lemma endBit_bitField (t : FieldType) (w off p : Z) :
  endBit (mkField t w off true (Some p)) = 8 * off + p + w.
Proof. reflexivity. Qed.

Lemma firstBit_byteField (t : FieldType) (n off : Z) (pos : option Z) :
  firstBit (mkField t n off false pos) = 8 * off + 0.
Proof. reflexivity. Qed.

Lemma endBit_byteField (t : FieldType) (n off : Z) (pos : option Z) :
  endBit (mkField t n off false pos) = 8 * (off + n).
Proof. reflexivity. Qed.

Lemma step_byteField (acc : Accumulator) (sch : SchemaInterface)
    (name : string) (p : ParseFieldInterface) :
  loopInv acc sch -> parsedOk p = true -> parsed_isBits p = false ->
  let acc1 := if 0 <? bits acc then mkAcc 0 (bytes acc + 1) else acc in
  loopInv (mkAcc 0 (bytes acc1 + parsed_size p))
          (sch ++ [(name, mkField (parsed_type p) (parsed_size p) (bytes acc1)
                                  false None)]).
Proof.
  intros (Hbits & Hbytes & (e & He & Hle) & Hsum & Hmax & Hopen) Hok Hb acc1.
  pose proof (parsedOk_size p Hok) as Hsz.
  assert (Hoff : bytes acc + (if 0 <? bits acc then 1 else 0) = bytes acc1).
  { subst acc1. destruct (0 <? bits acc); simpl; lia. }
  assert (Hcur : 8 * bytes acc + bits acc <= 8 * bytes acc1).
  { rewrite <- Hoff. destruct (Z.ltb_spec 0 (bits acc)); lia. }
  unfold loopInv. cbn [bits bytes].
  rewrite chain_app, He, byteFieldsSize_app, bitfieldBytes_app.
  cbn [isBits size]. rewrite union_empty_r_L.
  rewrite parsedOk_byteField by (assumption || lia).
  rewrite firstBit_byteField, endBit_byteField.
  destruct (Z.leb_spec e (8 * bytes acc1 + 0)); [|lia]. cbn [andb].
  change (0 <? 0) with false. cbv iota.
  split; [lia|]. split; [lia|].
  split; [eexists; split; [reflexivity | lia]|].
  split; [lia|]. split.
  - intros o Ho. assert (Ho1 : o ∈ bitfieldBytes sch) by set_solver.
    destruct (Hmax o Ho1) as [Ho' Hz]. split; [lia|]. intros _.
    destruct (Z.ltb_spec 0 (bits acc)); [lia|].
    assert (Hb0 : bits acc = 0) by lia. specialize (Hz Hb0). lia.
  - lia.
Qed.

Lemma step_bitField (acc : Accumulator) (sch : SchemaInterface)
    (name : string) (p : ParseFieldInterface) :
  loopInv acc sch -> parsedOk p = true -> parsed_isBits p = true ->
  let acc1 :=
    if 8 <? bits acc + parsed_size p then mkAcc 0 (bytes acc + 1) else acc in
  loopInv (mkAcc (bits acc1 + parsed_size p) (bytes acc1))
          (sch ++ [(name, mkField (parsed_type p) (parsed_size p) (bytes acc1)
                                  true (Some (bits acc1)))]).
Proof.
  intros (Hbits & Hbytes & (e & He & Hle) & Hsum & Hmax & Hopen) Hok Hb acc1.
  assert (Hw : 1 <= parsed_size p <= 8).
  { unfold parsedOk in Hok. rewrite Hb in Hok.
    destruct (parsed_type p); [|discriminate]. bool_hyps. lia. }
  assert (Hacc1 : 0 <= bits acc1 /\ bits acc1 + parsed_size p <= 8 /\
                  0 <= bytes acc1 /\
                  8 * bytes acc + bits acc <= 8 * bytes acc1 + bits acc1).
  { subst acc1. destruct (Z.ltb_spec 8 (bits acc + parsed_size p)); simpl; lia. }
  destruct Hacc1 as (Hb1 & Hfit & Hby1 & Hcur).
  destruct (parsedOk_bitField p (bytes acc1) (bits acc1) Hok Hb Hby1 Hb1 Hfit)
    as [_ Hfield].
  unfold loopInv. cbn [bits bytes].
  rewrite chain_app, He, byteFieldsSize_app, bitfieldBytes_app, Hfield.
  cbn [isBits size offset]. rewrite firstBit_bitField, endBit_bitField.
  destruct (Z.leb_spec e (8 * bytes acc1 + bits acc1)); [|lia]. cbn [andb].
  split; [lia|]. split; [lia|].
  split; [eexists; split; [reflexivity | lia]|].
  destruct (Z.ltb_spec 0 (bits acc1 + parsed_size p)); [|lia].
  assert (Hcases :
    ((bytes acc1 ∈ bitfieldBytes sch) /\ bytes acc1 = bytes acc /\ 0 < bits acc)
    \/ ((bytes acc1 ∉ bitfieldBytes sch) /\
        bytes acc1 = bytes acc + (if 0 <? bits acc then 1 else 0))).
  { subst acc1. destruct (Z.ltb_spec 8 (bits acc + parsed_size p)); simpl.
    - right. destruct (Z.ltb_spec 0 (bits acc)); [|lia]. split; [|reflexivity].
      intros Hin. apply Hmax in Hin. lia.
    - destruct (Z.ltb_spec 0 (bits acc)).
      + left. auto.
      + right. split; [|lia]. intros Hin. apply Hmax in Hin as [_ Hin].
        assert (Hb0 : bits acc = 0) by lia. specialize (Hin Hb0). lia. }
  split.
  - destruct Hcases as [(Hin & Heq & Hpos) | (Hnot & Heq)].
    + replace (bitfieldBytes sch ∪ {[bytes acc1]}) with (bitfieldBytes sch)
        by set_solver.
      destruct (Z.ltb_spec 0 (bits acc)); lia.
    + rewrite size_union by set_solver. rewrite size_singleton. lia.
  - split.
    + intros o Ho. apply elem_of_union in Ho as [Ho | Ho].
      * apply Hmax in Ho as [Ho _]. split; [|lia].
        subst acc1. destruct (8 <? bits acc + parsed_size p); simpl; lia.
      * apply elem_of_singleton in Ho. subst o. split; lia.
    + intros _. set_solver.
Qed.

Lemma parseSchema_loop_ok (fields : StructSchemaInterface) :
  forall (acc : Accumulator) (sch : SchemaInterface),
    distinct (map fst sch ++ map fst fields) = true ->
    mem_string "__proto__" (map fst fields) = false ->
    forallb (fun e => wellFormedEntry (snd e)) fields = true ->
    loopInv acc sch ->
    exists acc' sch',
      parseSchema_loop fields acc sch = Ok (acc', sch') /\
      loopInv acc' sch' /\
      map fst sch' = map fst sch ++ map fst fields.
Proof.
  induction fields as [|[name entry] rest IH]; intros acc sch Hd Hnp Hwf Hinv.
  - exists acc, sch. simpl. rewrite app_nil_r. auto.
  - cbn [map fst] in Hd, Hnp. apply distinct_middle in Hd as [Hfresh Hd].
    apply no_proto_cons in Hnp as [Hname Hnp].
    cbn [forallb snd] in Hwf. apply andb_true_iff in Hwf as [Hentry Hwf].
    destruct (wellFormedEntry_parsed entry Hentry) as (p & Hp & Hok).
    cbn [parseSchema_loop]. rewrite Hp. cbn [mbind outcome_bind].
    destruct (parsed_isBits p) eqn:Hb; cbn [negb].
    + unfold processBitfield. rewrite (store_fresh _ _ _ Hname Hfresh).
      cbn [mbind outcome_bind].
      pose proof (step_bitField acc sch name p Hinv Hok Hb) as Hstep.
      cbv zeta in Hstep.
      edestruct IH as (acc' & sch' & Hrun & Hinv' & Hkeys);
        [ | exact Hnp | exact Hwf | exact Hstep | ].
      * rewrite map_app. exact Hd.
      * exists acc', sch'. split; [exact Hrun|]. split; [exact Hinv'|].
        rewrite Hkeys, map_app, <- app_assoc. reflexivity.
    + rewrite (store_fresh _ _ _ Hname Hfresh). cbn [mbind outcome_bind].
      pose proof (step_byteField acc sch name p Hinv Hok Hb) as Hstep.
      cbv zeta in Hstep.
      edestruct IH as (acc' & sch' & Hrun & Hinv' & Hkeys);
        [ | exact Hnp | exact Hwf | exact Hstep | ].
      * rewrite map_app. exact Hd.
      * exists acc', sch'. split; [exact Hrun|]. split; [exact Hinv'|].
        rewrite Hkeys, map_app, <- app_assoc. reflexivity.
Qed.

(** The constructor succeeds on a well-formed schema; the layout satisfies
    the invariant, lists the fields of the schema in order, and its size is
    the bytes of the byte fields plus the bytes holding bitfields. *)
Lemma new_Struct_ok (schema : StructSchemaInterface) :
  wellFormedSchema schema = true ->
  exists this,
    new_Struct schema = Ok this /\
    layoutOk this = true /\
    map fst (Struct_schema this) = map fst schema /\
    Struct_size this
      = byteFieldsSize (Struct_schema this)
        + Z.of_nat (base.size (bitfieldBytes (Struct_schema this))).
Proof.
  intros Hwf. unfold wellFormedSchema in Hwf.
  apply andb_true_iff in Hwf as [Hd Hwf]. apply andb_true_iff in Hd as [Hd Hnp].
  apply negb_true_iff in Hnp.
  destruct (parseSchema_loop_ok schema (mkAcc 0 0) [] Hd Hnp Hwf loopInv_start)
    as (acc & sch & Hrun & Hinv & Hkeys).
  unfold new_Struct, parseSchema. rewrite Hrun. cbn [mbind outcome_bind].
  eexists. split; [reflexivity|].
  destruct Hinv as (Hbits & Hbytes & (e & He & Hle) & Hsum & _).
  cbn [Struct_schema Struct_size layoutOk].
  split; [|split; [exact Hkeys |]].
  - rewrite He, Hkeys. cbn [app map] in Hd |- *. rewrite Hd, Hnp.
    destruct (Z.ltb_spec 0 (bits acc)); bool_goal; (lia || reflexivity).
  - rewrite <- Hsum. destruct (0 <? bits acc); lia.
Qed.

(** *** The size against the schema *)











(** Three bitfields of 5 bits take three bytes: a field never straddles a
    byte, so each of them closes the run before it, and the count is per
    run, not the bit total rounded up. *)
Example three_fields_of_5_bits :
  exists this,
    new_Struct [("a", Token "UInt8:5"); ("b", Token "UInt8:5"); ("c", Token "UInt8:5")]
      = Ok this /\
    Struct_size this = 3 /\
    schemaKinds [("a", Token "UInt8:5"); ("b", Token "UInt8:5"); ("c", Token "UInt8:5")]
      = Some [BitsOf 5; BitsOf 5; BitsOf 5] /\
    bitfieldRuns 0 [BitsOf 5; BitsOf 5; BitsOf 5] = 3.
Proof. eexists. repeat split; reflexivity. Qed.

(** *** Fields do not overlap *)

Lemma fieldOk_bitField (ok : Struct -> bool) (f : SchemaFieldType) :
  fieldOk ok f = true -> isBits f = true ->
  exists t p,
    type f = Named t /\ (t = "Int8" \/ t = "UInt8") /\
    position f = Some p /\ 0 <= p /\ p + size f <= 8 /\
    1 <= size f /\ 0 <= offset f.
Proof.
  unfold fieldOk. intros H Hb. rewrite Hb in H.
  destruct (type f) as [t|nested]; [|simpl in H; bool_hyps; discriminate].
  destruct (position f) as [p|]; [|bool_hyps; discriminate].
  bool_hyps. exists t, p. repeat split; try lia.
  destruct (String.eqb_spec t "Int8"); [auto|].
  destruct (String.eqb_spec t "UInt8"); [auto|]. discriminate.
Qed.

Lemma fieldOk_extent (ok : Struct -> bool) (f : SchemaFieldType) :
  fieldOk ok f = true ->
  0 <= offset f /\ 0 <= size f /\ firstBit f <= endBit f.
Proof.
  intros H. assert (H' := H). unfold fieldOk in H'.
  apply andb_true_iff in H' as [H' _]. bool_hyps.
  repeat split; try lia. unfold endBit, firstBit.
  destruct (isBits f); lia.
Qed.

Lemma chain_sorted (ok : Struct -> bool) (sch : SchemaInterface) :
  forall c e, chain ok c sch = Some e ->
    c <= e /\
    (forall i n f, sch !! i = Some (n, f) ->
        fieldOk ok f = true /\ c <= firstBit f /\ endBit f <= e) /\
    (forall (i j : nat) ni f nj g, (i < j)%nat ->
        sch !! i = Some (ni, f) -> sch !! j = Some (nj, g) ->
        endBit f <= firstBit g).
Proof.
  induction sch as [|[m h] sch IH]; intros c e Hc.
  - injection Hc as <-. split; [lia|]. split; intros; discriminate.
  - simpl in Hc.
    destruct (fieldOk ok h) eqn:Hh; [|discriminate].
    destruct (Z.leb_spec c (firstBit h)); [|discriminate]. simpl in Hc.
    destruct (IH _ _ Hc) as (Hle & Hall & Hpair).
    destruct (fieldOk_extent ok h Hh) as (_ & _ & Hext).
    split; [lia|]. split.
    + intros [|i] n f Hi; simpl in Hi.
      * injection Hi as <- <-. auto with zarith.
      * destruct (Hall i n f Hi) as (? & ? & ?). repeat split; (assumption || lia).
    + intros [|i] [|j] ni f nj g Hij Hi Hj; simpl in Hi, Hj; try lia.
      * injection Hi as <- <-. destruct (Hall j nj g Hj) as (_ & ? & _). lia.
      * apply (Hpair i j ni f nj g); (assumption || lia).
Qed.

Lemma sorted_apart (ok : Struct -> bool) (f g : SchemaFieldType) :
  fieldOk ok f = true -> fieldOk ok g = true ->
  endBit f <= firstBit g ->
  if shareByte f g then (bitSpan f).2 <= (bitSpan g).1
  else (byteSpan f).2 <= (byteSpan g).1.
Proof.
  intros Hf Hg Hle. unfold shareByte, bitSpan, byteSpan, endBit, firstBit in *.
  cbn [fst snd].
  destruct (isBits f) eqn:Bf, (isBits g) eqn:Bg; cbn [andb].
  - destruct (fieldOk_bitField ok f Hf Bf) as (? & pf & _ & _ & Hpf & ? & ? & ? & ?).
    destruct (fieldOk_bitField ok g Hg Bg) as (? & pg & _ & _ & Hpg & ? & ? & ? & ?).
    rewrite Hpf, Hpg in *. simpl in *.
    destruct (Z.eqb_spec (offset f) (offset g)); lia.
  - destruct (fieldOk_bitField ok f Hf Bf) as (? & pf & _ & _ & Hpf & ? & ? & ? & ?).
    rewrite Hpf in *. simpl in *. lia.
  - destruct (fieldOk_bitField ok g Hg Bg) as (? & pg & _ & _ & Hpg & ? & ? & ? & ?).
    rewrite Hpg in *. simpl in *. lia.
  - lia.
Qed.

Lemma shareByte_sym (f g : SchemaFieldType) : shareByte f g = shareByte g f.
Proof.
  unfold shareByte. rewrite (Z.eqb_sym (offset f)).
  destruct (isBits f), (isBits g); reflexivity.
Qed.




(** ** Induction over nested layouts *)

Lemma Struct_induction (P : Struct -> Prop) :
  (forall sz sch, (forall nested, nestedIn sch nested -> P nested) ->
                  P (mkStruct sz sch)) ->
  forall this, P this.
Proof.
  intros Hstep. fix IH 1. intros [sz sch]. apply Hstep.
  induction sch as [|[n [t fsz foff fb fp]] sch IHsch];
    intros nested (name & f & Hin & Ht).
  - destruct Hin.
  - destruct Hin as [Heq | Hin].
    + injection Heq as _ <-. cbn [type] in Ht.
      destruct t as [tn | s']; [discriminate|].
      injection Ht as <-. apply IH.
    + apply IHsch. exists name, f. auto.
Qed.

Lemma layoutOk_nested (sz : Z) (sch : SchemaInterface) (nested : Struct) :
  layoutOk (mkStruct sz sch) = true -> nestedIn sch nested ->
  layoutOk nested = true.
Proof.
  cbn [layoutOk]. intros H (name & f & Hin & Ht). bool_hyps.
  destruct (chain layoutOk 0 sch) as [e|] eqn:Hc; [|discriminate].
  destruct (chain_sorted _ _ _ _ Hc) as (_ & Hall & _).
  apply list_elem_of_In, list_elem_of_lookup in Hin as [i Hi].
  destruct (Hall i name f Hi) as (Hf & _).
  unfold fieldOk in Hf. rewrite Ht in Hf. bool_hyps. assumption.
Qed.

(** ** Reading and writing ranges of a buffer *)

Lemma lookup_slice (b : Buffer) (o n : Z) (k : nat) :
  slice b o n !! k =
    if decide (k < Z.to_nat n)%nat then b !! (Z.to_nat o + k)%nat else None.
Proof.
  unfold slice. destruct (decide (k < Z.to_nat n)%nat).
  - rewrite lookup_take_lt by assumption. apply lookup_drop.
  - apply lookup_take_ge. lia.
Qed.

Lemma length_slice (b : Buffer) (o n : Z) :
  0 <= o -> 0 <= n -> o + n <= byteLength b ->
  length (slice b o n) = Z.to_nat n.
Proof.
  unfold slice, byteLength. intros Ho Hn Hb.
  rewrite length_take, length_drop. lia.
Qed.

Lemma lookup_splice (b : Buffer) (off : Z) (bytes : list Z) (k : nat) :
  (Z.to_nat off + length bytes <= length b)%nat ->
  splice b off bytes !! k =
    if decide (k < Z.to_nat off)%nat then b !! k
    else if decide (k < Z.to_nat off + length bytes)%nat
         then bytes !! (k - Z.to_nat off)%nat
         else b !! k.
Proof.
  intros Hb. unfold splice.
  assert (Ht : length (take (Z.to_nat off) b) = Z.to_nat off)
    by (rewrite length_take; lia).
  destruct (decide (k < Z.to_nat off)%nat).
  - rewrite lookup_app_l by lia. apply lookup_take_lt. assumption.
  - rewrite lookup_app_r by lia. rewrite Ht.
    destruct (decide (k < Z.to_nat off + length bytes)%nat).
    + apply lookup_app_l. lia.
    + rewrite lookup_app_r by lia. rewrite lookup_drop. f_equal. lia.
Qed.

Lemma length_splice (b : Buffer) (off : Z) (bytes : list Z) :
  (Z.to_nat off + length bytes <= length b)%nat ->
  length (splice b off bytes) = length b.
Proof.
  intros Hb. unfold splice.
  rewrite !length_app, length_take, length_drop. lia.
Qed.

(** A range read back after it is written. *)
Lemma slice_splice_same (b : Buffer) (off n : Z) (bytes : list Z) :
  0 <= off -> Z.of_nat (length bytes) <= n -> off + n <= byteLength b ->
  slice (splice b off bytes) off n
  = bytes ++ slice b (off + Z.of_nat (length bytes)) (n - Z.of_nat (length bytes)).
Proof.
  unfold byteLength. intros Ho Hn Hb. apply list_eq. intros k.
  rewrite lookup_slice, lookup_app, lookup_slice.
  destruct (decide (k < Z.to_nat n)%nat).
  - rewrite lookup_splice by lia.
    destruct (decide (Z.to_nat off + k < Z.to_nat off)%nat); [lia|].
    destruct (decide (Z.to_nat off + k < Z.to_nat off + length bytes)%nat).
    + replace (Z.to_nat off + k - Z.to_nat off)%nat with k by lia.
      destruct (bytes !! k) eqn:E; [reflexivity|].
      apply lookup_ge_None in E. lia.
    + rewrite (lookup_ge_None_2 bytes k) by lia.
      destruct (decide (k - length bytes < Z.to_nat (n - Z.of_nat (length bytes)))%nat);
        [|lia].
      f_equal. lia.
  - rewrite (lookup_ge_None_2 bytes k) by lia.
    destruct (decide (k - length bytes < Z.to_nat (n - Z.of_nat (length bytes)))%nat);
      [lia | reflexivity].
Qed.

(** A range is not changed by a write outside it. *)
Lemma slice_splice_apart (b : Buffer) (off : Z) (bytes : list Z) (o n : Z) :
  0 <= off -> 0 <= o -> off + Z.of_nat (length bytes) <= byteLength b ->
  o + n <= off \/ off + Z.of_nat (length bytes) <= o ->
  slice (splice b off bytes) o n = slice b o n.
Proof.
  unfold byteLength. intros Hoff Ho Hb Hapart. apply list_eq. intros k.
  rewrite !lookup_slice.
  destruct (decide (k < Z.to_nat n)%nat); [|reflexivity].
  rewrite lookup_splice by lia.
  destruct (decide (Z.to_nat o + k < Z.to_nat off)%nat); [reflexivity|].
  destruct (decide (Z.to_nat o + k < Z.to_nat off + length bytes)%nat);
    [lia | reflexivity].
Qed.

Lemma Buffer_get_splice_apart (b : Buffer) (off : Z) (bytes : list Z) (i : Z) :
  0 <= off -> off + Z.of_nat (length bytes) <= byteLength b ->
  i < off \/ off + Z.of_nat (length bytes) <= i ->
  Buffer_get (splice b off bytes) i = Buffer_get b i.
Proof.
  unfold byteLength, Buffer_get. intros Hoff Hb Hapart.
  destruct (Z.ltb_spec i 0); [reflexivity|].
  rewrite lookup_splice by lia.
  destruct (decide (Z.to_nat i < Z.to_nat off)%nat); [reflexivity|].
  destruct (decide (Z.to_nat i < Z.to_nat off + length bytes)%nat);
    [lia | reflexivity].
Qed.

Lemma length_Buffer_put (b : Buffer) (i v : Z) :
  length (Buffer_put b i v) = length b.
Proof.
  unfold Buffer_put. destruct (i <? 0); [reflexivity | apply length_insert].
Qed.

Lemma Buffer_get_put_same (b : Buffer) (i v : Z) :
  0 <= i < byteLength b ->
  Buffer_get (Buffer_put b i v) i = Some (v mod 256).
Proof.
  unfold Buffer_get, Buffer_put, byteLength. intros Hi.
  destruct (Z.ltb_spec i 0); [lia|].
  apply list_lookup_insert_eq. lia.
Qed.

Lemma Buffer_get_put_other (b : Buffer) (i j v : Z) :
  i <> j -> Buffer_get (Buffer_put b i v) j = Buffer_get b j.
Proof.
  unfold Buffer_get, Buffer_put. intros Hij.
  destruct (Z.ltb_spec j 0); [reflexivity|].
  destruct (Z.ltb_spec i 0); [reflexivity|].
  apply list_lookup_insert_ne. lia.
Qed.

Lemma slice_put_apart (b : Buffer) (i v o n : Z) :
  0 <= o -> i < o \/ o + n <= i ->
  slice (Buffer_put b i v) o n = slice b o n.
Proof.
  intros Ho Hapart. unfold Buffer_put.
  destruct (Z.ltb_spec i 0); [reflexivity|].
  apply list_eq. intros k. rewrite !lookup_slice.
  destruct (decide (k < Z.to_nat n)%nat); [|reflexivity].
  apply list_lookup_insert_ne. lia.
Qed.

Lemma slice_replicate (len o n : Z) :
  0 <= o -> 0 <= n -> o + n <= len ->
  slice (replicate (Z.to_nat len) 0) o n = replicate (Z.to_nat n) 0.
Proof.
  intros Ho Hn Hl. unfold slice.
  rewrite drop_replicate, take_replicate. f_equal. lia.
Qed.

Lemma Buffer_get_replicate (len i : Z) :
  0 <= i < len -> Buffer_get (replicate (Z.to_nat len) 0) i = Some 0.
Proof.
  intros Hi. unfold Buffer_get. destruct (Z.ltb_spec i 0); [lia|].
  apply lookup_replicate_2. lia.
Qed.

(** ** Integers written and read back *)

Lemma length_le_bytes (n : nat) (v : Z) : length (le_bytes n v) = n.
Proof. revert v. induction n as [|n IH]; intros v; simpl; [|rewrite IH]; reflexivity. Qed.

Lemma le_value_le_bytes (n : nat) (v : Z) :
  le_value (le_bytes n v) = v mod 256 ^ Z.of_nat n.
Proof.
  revert v. induction n as [|n IH]; intros v.
  - simpl. now rewrite Z.mod_1_r.
  - cbn [le_bytes le_value]. rewrite IH.
    rewrite Nat2Z.inj_succ, Z.pow_succ_r by lia.
    rewrite Z.rem_mul_r by (try apply Z.pow_pos_nonneg; lia). reflexivity.
Qed.

Lemma length_intBytes (f : IntFormat) (v : Z) : length (intBytes f v) = fmt_bytes f.
Proof.
  unfold intBytes. destruct (fmt_little f);
    [|rewrite length_rev]; apply length_le_bytes.
Qed.

Lemma Buffer_writeInt_ok (f : IntFormat) (b : Buffer) (v off : Z) :
  fits f v -> inBounds b off (fmt_bytes f) = true ->
  Buffer_writeInt f b v off = Ok (splice b off (intBytes f v)).
Proof.
  unfold fits, Buffer_writeInt. intros Hv Hb. rewrite Hb.
  destruct (Z.ltb_spec v (fmt_min f)); [lia|].
  destruct (Z.ltb_spec (fmt_max f) v); [lia|]. reflexivity.
Qed.

Lemma Buffer_readInt_ok (f : IntFormat) (b : Buffer) (v off : Z) :
  (0 < fmt_bytes f)%nat -> fits f v ->
  inBounds b off (fmt_bytes f) = true ->
  slice b off (Z.of_nat (fmt_bytes f)) = intBytes f v ->
  Buffer_readInt f b off = Ok v.
Proof.
  unfold fits, Buffer_readInt, fmt_min, fmt_max, fmt_bits. intros Hn Hv Hb Hs.
  rewrite Hb, Hs. cbn [negb]. f_equal.
  assert (Hu : le_value (if fmt_little f then intBytes f v else rev (intBytes f v))
               = v mod 2 ^ (8 * Z.of_nat (fmt_bytes f))).
  { unfold intBytes. destruct (fmt_little f);
      [|rewrite rev_involutive]; rewrite le_value_le_bytes;
      rewrite (Z.pow_mul_r 2 8) by lia; reflexivity. }
  rewrite Hu.
  set (bitsN := 8 * Z.of_nat (fmt_bytes f)) in *.
  assert (Hpow : 2 ^ bitsN = 2 * 2 ^ (bitsN - 1)).
  { rewrite <- Z.pow_succ_r by lia. f_equal. lia. }
  assert (Hpos : 0 < 2 ^ (bitsN - 1)) by (apply Z.pow_pos_nonneg; lia).
  destruct (fmt_signed f); cbn [andb].
  - destruct (Z.leb_spec (2 ^ (bitsN - 1)) (v mod 2 ^ bitsN)) as [Hhi | Hlo].
    + destruct (Z.lt_ge_cases v 0) as [Hneg | Hnn].
      * rewrite <- (Z.mod_add v 1) by lia. rewrite Z.mod_small; lia.
      * rewrite Z.mod_small in Hhi by lia. lia.
    + destruct (Z.lt_ge_cases v 0) as [Hneg | Hnn].
      * rewrite <- (Z.mod_add v 1) in Hlo by lia.
        rewrite Z.mod_small in Hlo by lia. lia.
      * apply Z.mod_small. lia.
  - apply Z.mod_small. lia.
Qed.

Lemma Buffer_format_bytes (t : string) (f : IntFormat) :
  Buffer_format t = Some f -> (0 < fmt_bytes f)%nat.
Proof.
  unfold Buffer_format.
  repeat match goal with
    | |- context [String.eqb t ?k] => destruct (String.eqb t k)
    end; intros [= <-]; simpl; lia.
Qed.

(** The accessors of the [BigInt] types are those whose name holds "Big". *)
Lemma Buffer_format_big (t : string) (f : IntFormat) :
  Buffer_format t = Some f -> includes t "Big" = fmt_big f /\ t <> "string".
Proof.
  unfold Buffer_format.
  repeat match goal with
    | |- context [String.eqb t ?k] => destruct (String.eqb_spec t k) as [-> | _]
    end; intros [= <-]; split; (reflexivity || discriminate).
Qed.

(** ** Text written and read back *)

Lemma utf8_decode_from_app (bytes rest : list Z) :
  forall st,
    utf8_decode_from st (bytes ++ rest)
    = (utf8_run st bytes).2 ++ utf8_decode_from (utf8_run st bytes).1 rest.
Proof.
  induction bytes as [|b bytes IH]; intros st; [reflexivity|].
  cbn [app utf8_decode_from utf8_run].
  destruct (utf8_step st b) as [st1 out1]. rewrite IH.
  destruct (utf8_run st1 bytes) as [st2 out2]. cbn [fst snd].
  now rewrite app_assoc.
Qed.

Lemma utf8_lead_1 (b : Z) : 0 <= b <= 127 -> utf8_lead b = (utf8_start, [b]).
Proof.
  intros H. unfold utf8_lead.
  destruct (Z.leb_spec 0 b); [|lia]. destruct (Z.leb_spec b 127); [|lia].
  reflexivity.
Qed.

Lemma utf8_lead_2 (b : Z) :
  194 <= b <= 223 -> utf8_lead b = (mkUtf8 (b - 192) 1 128 191, []).
Proof.
  intros H. unfold utf8_lead.
  destruct (Z.leb_spec 0 b); [|lia]. destruct (Z.leb_spec b 127); [lia|].
  destruct (Z.leb_spec 194 b); [|lia]. destruct (Z.leb_spec b 223); [|lia].
  reflexivity.
Qed.

Lemma utf8_lead_3 (b : Z) :
  224 <= b <= 239 ->
  utf8_lead b = (mkUtf8 (b - 224) 2 (if b =? 224 then 160 else 128)
                        (if b =? 237 then 159 else 191), []).
Proof.
  intros H. unfold utf8_lead.
  destruct (Z.leb_spec 0 b); [|lia]. destruct (Z.leb_spec b 127); [lia|].
  destruct (Z.leb_spec 194 b); [|lia]. destruct (Z.leb_spec b 223); [lia|].
  destruct (Z.leb_spec 224 b); [|lia]. destruct (Z.leb_spec b 239); [|lia].
  reflexivity.
Qed.

Lemma utf8_lead_4 (b : Z) :
  240 <= b <= 244 ->
  utf8_lead b = (mkUtf8 (b - 240) 3 (if b =? 240 then 144 else 128)
                        (if b =? 244 then 143 else 191), []).
Proof.
  intros H. unfold utf8_lead.
  destruct (Z.leb_spec 0 b); [|lia]. destruct (Z.leb_spec b 127); [lia|].
  destruct (Z.leb_spec 194 b); [|lia]. destruct (Z.leb_spec b 223); [lia|].
  destruct (Z.leb_spec 224 b); [|lia]. destruct (Z.leb_spec b 239); [lia|].
  destruct (Z.leb_spec 240 b); [|lia]. destruct (Z.leb_spec b 244); [|lia].
  reflexivity.
Qed.

Lemma utf8_step_last (cp lo hi b : Z) :
  lo <= b <= hi ->
  utf8_step (mkUtf8 cp 1 lo hi) b = (utf8_start, [cp * 64 + (b - 128)]).
Proof.
  intros H. unfold utf8_step. cbn [pending lower upper codePoint].
  destruct (Z.leb_spec lo b); [|lia]. destruct (Z.leb_spec b hi); [|lia].
  reflexivity.
Qed.

Lemma utf8_step_more (cp : Z) (k : nat) (lo hi b : Z) :
  lo <= b <= hi ->
  utf8_step (mkUtf8 cp (S (S k)) lo hi) b
  = (mkUtf8 (cp * 64 + (b - 128)) (S k) 128 191, []).
Proof.
  intros H. unfold utf8_step. cbn [pending lower upper codePoint].
  destruct (Z.leb_spec lo b); [|lia]. destruct (Z.leb_spec b hi); [|lia].
  reflexivity.
Qed.

Lemma utf8_encode1_decoded (c : Z) :
  scalar c = true -> utf8_run utf8_start (utf8_encode1 c) = (utf8_start, [c]).
Proof.
  unfold scalar, utf8_encode1, isSurrogate. intros H. bool_hyps.
  change (utf8_step utf8_start) with utf8_lead.
  destruct (Z.ltb_spec c 128).
  { cbn [utf8_run]. change (utf8_step utf8_start c) with (utf8_lead c).
    rewrite utf8_lead_1 by lia. reflexivity. }
  pose proof (Z.div_mod c 64 ltac:(lia)).
  pose proof (Z.mod_pos_bound c 64 ltac:(lia)).
  destruct (Z.ltb_spec c 2048).
  { cbn [utf8_run].
    change (utf8_step utf8_start (192 + c / 64)) with (utf8_lead (192 + c / 64)).
    rewrite utf8_lead_2 by lia. rewrite utf8_step_last by lia.
    cbn [app]. do 2 f_equal. lia. }
  destruct ((55296 <=? c) && (c <=? 57343)) eqn:Hs; [discriminate|].
  assert (Hns : c < 55296 \/ 57343 < c).
  { apply andb_false_iff in Hs as [Hs | Hs]; bool_hyps; lia. }
  pose proof (Z.div_mod (c / 64) 64 ltac:(lia)).
  pose proof (Z.mod_pos_bound (c / 64) 64 ltac:(lia)).
  assert (Hd2 : c / 4096 = c / 64 / 64) by (rewrite Z.div_div by lia; reflexivity).
  destruct (Z.ltb_spec c 65536).
  { cbn [utf8_run].
    change (utf8_step utf8_start (224 + c / 4096))
      with (utf8_lead (224 + c / 4096)).
    rewrite utf8_lead_3 by lia.
    rewrite utf8_step_more
      by (destruct (Z.eqb_spec (224 + c / 4096) 224);
          destruct (Z.eqb_spec (224 + c / 4096) 237); lia).
    rewrite utf8_step_last by lia.
    cbn [app]. do 2 f_equal. lia. }
  pose proof (Z.div_mod (c / 4096) 64 ltac:(lia)).
  pose proof (Z.mod_pos_bound (c / 4096) 64 ltac:(lia)).
  assert (Hd3 : c / 262144 = c / 4096 / 64) by (rewrite Z.div_div by lia; reflexivity).
  cbn [utf8_run].
  change (utf8_step utf8_start (240 + c / 262144))
    with (utf8_lead (240 + c / 262144)).
  rewrite utf8_lead_4 by lia.
  rewrite utf8_step_more
    by (destruct (Z.eqb_spec (240 + c / 262144) 240);
        destruct (Z.eqb_spec (240 + c / 262144) 244); lia).
  rewrite utf8_step_more by lia.
  rewrite utf8_step_last by lia.
  cbn [app]. do 2 f_equal. lia.
Qed.

Lemma utf8_decode_zeros (k : nat) :
  utf8_decode_from utf8_start (replicate k 0) = replicate k 0.
Proof.
  induction k as [|k IH]; [reflexivity|].
  cbn [replicate utf8_decode_from].
  change (utf8_step utf8_start 0) with (utf8_start, [0]). cbn [app].
  now rewrite IH.
Qed.

Lemma utf8_decode_encode (s : list Z) (k : nat) :
  forallb scalar s = true ->
  utf8_decode (utf8_encode s ++ replicate k 0) = s ++ replicate k 0.
Proof.
  unfold utf8_decode, utf8_encode. induction s as [|c s IH]; intros Hs.
  - apply utf8_decode_zeros.
  - cbn [forallb] in Hs. apply andb_true_iff in Hs as [Hc Hs].
    cbn [flat_map]. rewrite <- app_assoc, utf8_decode_from_app.
    rewrite (utf8_encode1_decoded c Hc). cbn [fst snd app].
    now rewrite IH.
Qed.

Lemma utf8_fit_encode (s : list Z) (room : Z) :
  Z.of_nat (length (utf8_encode s)) <= room -> utf8_fit s room = utf8_encode s.
Proof.
  unfold utf8_encode. revert room. induction s as [|c s IH]; intros room Hr.
  - reflexivity.
  - cbn [flat_map utf8_fit] in *. rewrite length_app in Hr.
    destruct (Z.leb_spec (Z.of_nat (length (utf8_encode1 c))) room); [|lia].
    f_equal. apply IH. lia.
Qed.

Lemma trimNul_cons (c : Z) (s : list Z) :
  trimNul (c :: s) =
    match trimNul s with
    | [] => if c =? 0 then [] else [c]
    | _ => c :: trimNul s
    end.
Proof. reflexivity. Qed.

Lemma trimNul_zeros (k : nat) : trimNul (replicate k 0) = [].
Proof.
  induction k as [|k IH]; [reflexivity|].
  cbn [replicate]. rewrite trimNul_cons, IH. reflexivity.
Qed.

Lemma trimNul_padding (s : list Z) (k : nat) :
  trimNul (s ++ replicate k 0) = trimNul s.
Proof.
  induction s as [|c s IH]; [apply trimNul_zeros|].
  cbn [app]. now rewrite !trimNul_cons, IH.
Qed.

Lemma trimNul_id (s : list Z) : endsWithNul s = false -> trimNul s = s.
Proof.
  unfold endsWithNul. induction s as [|c s IH]; [reflexivity|].
  rewrite trimNul_cons. destruct s as [|d s].
  - simpl. intros ->. reflexivity.
  - intros H. rewrite IH by exact H. reflexivity.
Qed.

Lemma Buffer_write_ok (b : Buffer) (s : list Z) (off n : Z) :
  0 <= off -> 0 <= n -> off + n <= byteLength b ->
  Buffer_write b s off n = Ok (splice b off (utf8_fit s n)).
Proof.
  intros Ho Hn Hb. unfold Buffer_write.
  destruct (Z.ltb_spec off 0); [lia|].
  destruct (Z.ltb_spec (byteLength b) off); [lia|].
  destruct (Z.ltb_spec n 0); [lia|].
  destruct (Z.ltb_spec (byteLength b) n); [lia|].
  destruct (Z.ltb_spec (byteLength b - off) n); [lia|]. reflexivity.
Qed.

Lemma Buffer_toString_slice (b : Buffer) (off n : Z) :
  0 <= off -> 0 <= n -> off + n <= byteLength b ->
  Buffer_toString b off (off + n) = utf8_decode (slice b off n).
Proof.
  intros Ho Hn Hb. unfold Buffer_toString.
  rewrite Z.max_l, Z.min_l by lia.
  destruct (Z.leb_spec (off + n) off).
  - assert (n = 0) as -> by lia. reflexivity.
  - do 2 f_equal. lia.
Qed.

(** ** Bitfields written and read back *)

Lemma testbit_band (a b i : Z) :
  0 <= i < 32 -> Z.testbit (band a b) i = Z.testbit a i && Z.testbit b i.
Proof.
  intros Hi. unfold band. now rewrite Z.land_spec, !testbit_ToInt32.
Qed.

Lemma testbit_bor (a b i : Z) :
  0 <= i < 32 -> Z.testbit (bor a b) i = Z.testbit a i || Z.testbit b i.
Proof.
  intros Hi. unfold bor. now rewrite Z.lor_spec, !testbit_ToInt32.
Qed.

Lemma testbit_bnot (a i : Z) :
  0 <= i < 32 -> Z.testbit (bnot a) i = negb (Z.testbit a i).
Proof.
  intros Hi. unfold bnot. rewrite Z.lnot_spec by lia. now rewrite testbit_ToInt32.
Qed.

Lemma testbit_shl (a p i : Z) :
  0 <= p < 32 -> 0 <= i < 32 ->
  Z.testbit (shl a p) i = (p <=? i) && Z.testbit a (i - p).
Proof.
  intros Hp Hi. unfold shl. rewrite testbit_ToInt32 by lia.
  rewrite Z.mod_small by lia. rewrite Z.shiftl_spec by lia.
  destruct (Z.leb_spec p i).
  - rewrite testbit_ToInt32 by lia. reflexivity.
  - apply Z.testbit_neg_r. lia.
Qed.

Lemma testbit_sar (a p i : Z) :
  0 <= p -> 0 <= i -> i + p < 32 ->
  Z.testbit (sar a p) i = Z.testbit a (i + p).
Proof.
  intros Hp Hi Hip. unfold sar. rewrite Z.mod_small by lia.
  rewrite Z.shiftr_spec by lia. apply testbit_ToInt32. lia.
Qed.

Lemma testbit_mask (w i : Z) :
  0 <= w < 31 -> 0 <= i -> Z.testbit (shl 1 w - 1) i = (i <? w).
Proof.
  intros Hw Hi. rewrite shl_1 by lia.
  replace (2 ^ w - 1) with (Z.ones w) by (rewrite Z.ones_equiv; lia).
  apply Z.testbit_ones_nonneg; lia.
Qed.

Lemma testbit_rawBits (byte p w i : Z) :
  0 <= p -> 0 <= w -> p + w <= 8 -> 0 <= i ->
  Z.testbit (rawBits byte p w) i = (i <? w) && Z.testbit byte (i + p).
Proof.
  intros Hp Hw Hpw Hi. unfold rawBits, band.
  rewrite Z.land_spec.
  rewrite (ToInt32_small (shl 1 w - 1)).
  2:{ rewrite shl_1 by lia.
      assert (0 < 2 ^ w) by (apply Z.pow_pos_nonneg; lia).
      assert (2 ^ w <= 2 ^ 8) by (apply Z.pow_le_mono_r; lia). lia. }
  rewrite testbit_mask by lia.
  destruct (Z.ltb_spec i w).
  - rewrite andb_true_r. rewrite testbit_ToInt32 by lia.
    rewrite testbit_sar by lia. reflexivity.
  - apply andb_false_r.
Qed.

Lemma testbit_applyBitmask (cur : Z) (f : SchemaFieldType) (v p i : Z) :
  0 <= p -> 0 <= size f -> p + size f <= 8 -> 0 <= i < 32 ->
  Z.testbit (applyBitmask cur f v p) i =
    if (p <=? i) && (i <? p + size f) then Z.testbit v (i - p)
    else Z.testbit cur i.
Proof.
  intros Hp Hw Hpw Hi. unfold applyBitmask.
  rewrite testbit_bor, !testbit_band, testbit_bnot by lia.
  rewrite !testbit_shl by lia.
  destruct (Z.leb_spec p i) as [Hpi | Hpi]; cbn [andb].
  - rewrite testbit_mask by lia.
    destruct (Z.ltb_spec (i - p) (size f)); destruct (Z.ltb_spec i (p + size f));
      try lia; cbn [negb];
      rewrite ?andb_true_r, ?andb_false_r, ?orb_false_r, ?orb_false_l;
      reflexivity.
  - cbn [negb]. now rewrite andb_true_r, orb_false_r.
Qed.

Lemma rawBits_written (cur : Z) (f : SchemaFieldType) (v p : Z) :
  0 <= p -> 0 <= size f -> p + size f <= 8 ->
  rawBits (applyBitmask cur f v p mod 256) p (size f) = v mod 2 ^ size f.
Proof.
  intros Hp Hw Hpw. apply Z.bits_inj'. intros i Hi.
  rewrite testbit_rawBits by lia.
  destruct (Z.ltb_spec i (size f)); cbn [andb].
  - change 256 with (2 ^ 8). rewrite !Z.mod_pow2_bits_low by lia.
    rewrite testbit_applyBitmask by lia.
    destruct (Z.leb_spec p (i + p)); [|lia].
    destruct (Z.ltb_spec (i + p) (p + size f)); [|lia]. cbn [andb].
    f_equal. lia.
  - symmetry. apply Z.mod_pow2_bits_high. lia.
Qed.

Lemma rawBits_kept (cur : Z) (f : SchemaFieldType) (v p p' w' : Z) :
  0 <= p -> 0 <= size f -> p + size f <= 8 ->
  0 <= p' -> 0 <= w' -> p' + w' <= 8 ->
  p + size f <= p' \/ p' + w' <= p ->
  rawBits (applyBitmask cur f v p mod 256) p' w' = rawBits cur p' w'.
Proof.
  intros Hp Hw Hpw Hp' Hw' Hpw' Hapart. apply Z.bits_inj'. intros i Hi.
  rewrite !testbit_rawBits by lia.
  destruct (Z.ltb_spec i w'); cbn [andb]; [|reflexivity].
  change 256 with (2 ^ 8). rewrite Z.mod_pow2_bits_low by lia.
  rewrite testbit_applyBitmask by lia.
  destruct (Z.leb_spec p (i + p')); destruct (Z.ltb_spec (i + p') (p + size f));
    cbn [andb]; (reflexivity || lia).
Qed.

Lemma rawBits_zero (p w : Z) : rawBits 0 p w = 0.
Proof.
  unfold rawBits, band, sar. change (ToInt32 0) with 0.
  rewrite Z.shiftr_0_l. change (ToInt32 0) with 0. apply Z.land_0_l.
Qed.

Lemma asIntN_fits (w v : Z) :
  1 <= w -> - 2 ^ (w - 1) <= v <= 2 ^ (w - 1) - 1 ->
  asIntN w (asIntN w v mod 2 ^ w) = v.
Proof.
  intros Hw Hv. unfold asIntN. destruct (Z.leb_spec w 0); [lia|].
  assert (Hpow : 2 ^ w = 2 * 2 ^ (w - 1)).
  { rewrite <- Z.pow_succ_r by lia. f_equal. lia. }
  assert (Hpos : 0 < 2 ^ (w - 1)) by (apply Z.pow_pos_nonneg; lia).
  rewrite (Z.mod_small (v + 2 ^ (w - 1))) by lia.
  replace (v + 2 ^ (w - 1) - 2 ^ (w - 1)) with v by lia.
  rewrite Z.add_mod_idemp_l by lia.
  rewrite Z.mod_small by lia. lia.
Qed.

(** ** What a field holds in a buffer *)

Lemma content_zeros (len : Z) (f : SchemaFieldType) :
  fieldOk layoutOk f = true -> endBit f <= 8 * len ->
  content (replicate (Z.to_nat len) 0) f = zeroContent f.
Proof.
  intros Hf Hend. unfold content, zeroContent.
  destruct (fieldOk_extent _ f Hf) as (Ho & Hs & _).
  destruct (isBits f) eqn:Hb.
  - destruct (fieldOk_bitField _ f Hf Hb) as (t & p & _ & _ & Hp & ? & ? & ? & _).
    unfold endBit, firstBit in Hend. rewrite Hb, Hp in Hend. simpl in Hend.
    rewrite Buffer_get_replicate by lia. simpl. now rewrite rawBits_zero.
  - unfold endBit in Hend. rewrite Hb in Hend.
    apply slice_replicate; lia.
Qed.

(** A byte field is not changed by a write into bytes outside it, nor a
    bitfield by a write into another byte. *)
Lemma content_splice_apart (b : Buffer) (off n : Z) (bytes : list Z)
    (g : SchemaFieldType) :
  0 <= off -> Z.of_nat (length bytes) <= n -> off + n <= byteLength b ->
  fieldOk layoutOk g = true ->
  apart (off, off + n) (byteSpan g) ->
  content (splice b off bytes) g = content b g.
Proof.
  intros Ho Hn Hb Hg Hap. unfold content, apart, byteSpan in *. cbn [fst snd] in Hap.
  destruct (fieldOk_extent _ g Hg) as (Hgo & Hgs & _).
  destruct (isBits g).
  - rewrite Buffer_get_splice_apart by lia. reflexivity.
  - apply slice_splice_apart; lia.
Qed.

Lemma content_put_apart (b : Buffer) (i v : Z) (g : SchemaFieldType) :
  fieldOk layoutOk g = true ->
  apart (i, i + 1) (byteSpan g) ->
  content (Buffer_put b i v) g = content b g.
Proof.
  intros Hg Hap. unfold content, apart, byteSpan in *. cbn [fst snd] in Hap.
  destruct (fieldOk_extent _ g Hg) as (Hgo & Hgs & _).
  destruct (isBits g).
  - rewrite Buffer_get_put_other by lia. reflexivity.
  - apply slice_put_apart; lia.
Qed.

(** A bitfield is not changed by the write of another bitfield of its
    byte. *)
Lemma content_put_sibling (b : Buffer) (f g : SchemaFieldType) (v : Z) :
  fieldOk layoutOk f = true -> fieldOk layoutOk g = true ->
  isBits f = true -> endBit f <= 8 * byteLength b ->
  separate f g ->
  content (Buffer_put b (offset f)
             (applyBitmask (default 0 (Buffer_get b (offset f))) f v
                           (default 0 (position f)))) g
  = content b g.
Proof.
  intros Hf Hg Hbf Hend Hsep.
  destruct (fieldOk_bitField _ f Hf Hbf) as (tf & pf & _ & _ & Hpf & ? & ? & ? & ?).
  unfold separate, shareByte in Hsep. rewrite Hbf in Hsep. cbn [andb] in Hsep.
  destruct (isBits g) eqn:Hbg; cbn [andb] in Hsep.
  - destruct (fieldOk_bitField _ g Hg Hbg) as (tg & pg & _ & _ & Hpg & ? & ? & ? & ?).
    destruct (Z.eqb_spec (offset f) (offset g)) as [Heq | Hne].
    + unfold content. rewrite Hbg, <- Heq, Hpf, Hpg. cbn [default id].
      unfold endBit, firstBit in Hend. rewrite Hbf, Hpf in Hend. cbn [default id] in Hend.
      rewrite Buffer_get_put_same by lia. cbn [default id].
      unfold apart, bitSpan in Hsep. rewrite Hpf, Hpg in Hsep. cbn [default id fst snd] in Hsep.
      f_equal. apply rawBits_kept; lia.
    + apply content_put_apart; [assumption|].
      unfold apart, byteSpan in *. rewrite Hbf in Hsep. exact Hsep.
  - apply content_put_apart; [assumption|].
    unfold apart, byteSpan in *. rewrite Hbf in Hsep. exact Hsep.
Qed.

(** ** Records that fit a layout *)

Lemma own_get (props : list (string * Value)) (name : string) (x : Value) :
  own props name = Some x -> has props name = true /\ get props name = x.
Proof. unfold has, get. intros ->. auto. Qed.

Lemma slice_tail_zeros (b : Buffer) (off n k : Z) :
  0 <= off -> 0 <= k <= n ->
  slice b off n = replicate (Z.to_nat n) 0 ->
  slice b (off + k) (n - k) = replicate (Z.to_nat n - Z.to_nat k)%nat 0.
Proof.
  intros Ho Hk Hz. apply list_eq. intros i. rewrite lookup_slice.
  pose proof (f_equal (fun l => l !! (Z.to_nat k + i)%nat) Hz) as Hj.
  cbv beta in Hj. rewrite lookup_slice in Hj.
  destruct (decide (i < Z.to_nat (n - k))%nat).
  - destruct (decide (Z.to_nat k + i < Z.to_nat n)%nat); [|lia].
    replace (Z.to_nat (off + k) + i)%nat with (Z.to_nat off + (Z.to_nat k + i))%nat
      by lia.
    rewrite Hj, !lookup_replicate_2 by lia. reflexivity.
  - symmetry. apply lookup_ge_None_2. rewrite length_replicate. lia.
Qed.

(** Writing a byte field whose bytes are still zero. *)
Lemma splice_field (b : Buffer) (f : SchemaFieldType) (bytes : list Z) :
  fieldOk layoutOk f = true -> isBits f = false ->
  endBit f <= 8 * byteLength b ->
  Z.of_nat (length bytes) <= size f ->
  content b f = zeroContent f ->
  length (splice b (offset f) bytes) = length b /\
  content (splice b (offset f) bytes) f
    = bytes ++ replicate (Z.to_nat (size f) - length bytes)%nat 0 /\
  (forall g, fieldOk layoutOk g = true -> separate f g ->
             content (splice b (offset f) bytes) g = content b g).
Proof.
  intros Hf Hb Hend Hlen Hz.
  destruct (fieldOk_extent _ f Hf) as (Ho & Hs & _).
  unfold endBit in Hend. rewrite Hb in Hend.
  unfold content, zeroContent in Hz. rewrite Hb in Hz.
  unfold byteLength in *. split; [|split].
  - apply length_splice. lia.
  - unfold content. rewrite Hb.
    rewrite slice_splice_same by (unfold byteLength; lia).
    rewrite (slice_tail_zeros b (offset f) (size f)) by (assumption || lia).
    do 2 f_equal. lia.
  - intros g Hg Hsep. apply (content_splice_apart b (offset f) (size f));
      try assumption; try (unfold byteLength; lia).
    unfold separate, shareByte in Hsep. rewrite Hb in Hsep. cbn [andb] in Hsep.
    unfold byteSpan at 1 in Hsep. rewrite Hb in Hsep. exact Hsep.
Qed.

Lemma asIntN_mod (w v : Z) : 1 <= w -> asIntN w v mod 2 ^ w = v mod 2 ^ w.
Proof.
  intros Hw. unfold asIntN. destruct (Z.leb_spec w 0); [lia|].
  rewrite Zminus_mod_idemp_l. f_equal. lia.
Qed.

Lemma conforms_object (complete : bool) (this : Struct) (data : Value) :
  conforms complete this data -> exists props, data = VObject props.
Proof.
  destruct this as [sz sch]. destruct data; simpl; try contradiction. eauto.
Qed.

Lemma put_field (b : Buffer) (f : SchemaFieldType) (v : Z) :
  fieldOk layoutOk f = true -> isBits f = true ->
  endBit f <= 8 * byteLength b ->
  let b' := Buffer_put b (offset f)
              (applyBitmask (default 0 (Buffer_get b (offset f))) f v
                            (default 0 (position f))) in
  length b' = length b /\
  content b' f = [v mod 2 ^ size f] /\
  (forall g, fieldOk layoutOk g = true -> separate f g ->
             content b' g = content b g).
Proof.
  intros Hf Hb Hend b'. split; [apply length_Buffer_put | split].
  - destruct (fieldOk_bitField _ f Hf Hb) as (t & p & _ & _ & Hp & ? & ? & ? & ?).
    unfold endBit, firstBit in Hend. rewrite Hb, Hp in Hend. cbn [default id] in Hend.
    subst b'. unfold content. rewrite Hb, Hp. cbn [default id].
    rewrite Buffer_get_put_same by lia. cbn [default id].
    f_equal. apply rawBits_written; lia.
  - intros g Hg Hsep. now apply content_put_sibling.
Qed.

Lemma toBuffer_field_ok (complete : bool) (props : list (string * Value))
    (name : string) (f : SchemaFieldType) (x : Value) (b : Buffer) :
  fieldOk layoutOk f = true ->
  endBit f <= 8 * byteLength b ->
  own props name = Some x ->
  fieldValueOk (conforms complete) f x ->
  (forall nested, type f = Layout nested ->
     exists nb, toBuffer nested x = Ok nb /\ byteLength nb = Struct_size nested) ->
  content b f = zeroContent f ->
  exists b',
    toBuffer_field toBuffer props name f b = Ok b' /\
    length b' = length b /\
    content b' f = encoding f x /\
    (forall g, fieldOk layoutOk g = true -> separate f g ->
               content b' g = content b g).
Proof.
  intros Hf Hend Hown Hval Hnested Hzero.
  destruct (own_get _ _ _ Hown) as [_ Hget].
  destruct (fieldOk_extent _ f Hf) as (Hoff & Hsize & _).
  assert (Hf' := Hf). unfold fieldOk in Hf'.
  unfold fieldValueOk in Hval. unfold encoding, payload.
  destruct f as [ty sz off fb pos]. cbn [type size offset isBits position] in *.
  unfold toBuffer_field. rewrite Hget.
  destruct ty as [t | nested].
  - destruct fb.
    + (* a bitfield *)
      destruct Hval as (n & -> & Hrange).
      destruct (fieldOk_bitField _ _ Hf eq_refl)
        as (t' & p & [= <-] & Ht & Hp & ? & ? & ? & ?).
      cbn [size position] in *. subst pos.
      destruct (put_field b _ (if startsWith t "Int" then asIntN sz n else n)
                  Hf eq_refl Hend) as (Hlen & Hcont & Hframe).
      cbn [offset position size] in Hlen, Hcont, Hframe.
      unfold bitfieldRange in Hrange.
      destruct Ht as [-> | ->].
      * change (startsWith "Int8" "Int") with true in *. cbv iota in Hrange, Hcont.
        rewrite writeBitField_signed by lia.
        destruct (Z.ltb_spec n (- 2 ^ (sz - 1))); [lia|].
        destruct (Z.ltb_spec (2 ^ (sz - 1) - 1) n); [lia|]. cbn [orb].
        eexists. split; [reflexivity|]. split; [exact Hlen|].
        split; [|exact Hframe].
        rewrite Hcont. cbn [size]. now rewrite asIntN_mod by lia.
      * change (startsWith "UInt8" "Int") with false in *. cbv iota in Hrange, Hcont.
        rewrite writeBitField_unsigned by lia.
        destruct (Z.ltb_spec n 0); [lia|].
        destruct (Z.ltb_spec (2 ^ sz - 1) n); [lia|]. cbn [orb].
        eexists. split; [reflexivity|]. split; [exact Hlen|].
        split; [exact Hcont | exact Hframe].
    + assert (Hend' : off + sz <= byteLength b).
      { unfold endBit in Hend. cbn [isBits offset size] in Hend. lia. }
      unfold writeField. cbn [type size offset].
      set (f := mkField (Named t) sz off false pos) in *.
      destruct (String.eqb t "string") eqn:Hstr.
      * (* a text field *)
        destruct Hval as (s & -> & Htext). unfold textOk in Htext. bool_hyps.
        rewrite Buffer_write_ok by lia. rewrite utf8_fit_encode by lia.
        destruct (splice_field b f (utf8_encode s) Hf eq_refl Hend ltac:(cbn; lia) Hzero)
          as (Hlen & Hcont & Hframe).
        eexists. split; [reflexivity|]. auto.
      * (* an integer field *)
        destruct Hval as (m & n & Hm & Hfits & ->).
        rewrite Hm in Hf' |- *. bool_hyps.
        destruct (Buffer_format_big t m Hm) as [Hbig _]. rewrite Hbig.
        assert (Hin : inBounds b off (fmt_bytes m) = true).
        { unfold inBounds. bool_goal; lia. }
        pose proof (length_intBytes m n) as Hlb.
        destruct (splice_field b f (intBytes m n) Hf eq_refl Hend
                    ltac:(cbn; lia) Hzero) as (Hlen & Hcont & Hframe).
        destruct (fmt_big m); cbn [typeof String.eqb andb negb];
          change (String.eqb "bigint" "bigint") with true;
          change (String.eqb "number" "number") with true;
          cbn [andb negb];
          rewrite Buffer_writeInt_ok by assumption;
          (eexists; split; [reflexivity|]; auto).
  - (* a nested layout *)
    simpl in Hf'. bool_hyps. subst fb.
    destruct (Hnested nested eq_refl) as (nb & Hnb & Hnbl).
    destruct (conforms_object _ _ _ Hval) as (nprops & ->).
    cbn [truthy]. rewrite Hnb. cbn [mbind outcome_bind].
    assert (Hend' : off + sz <= byteLength b).
    { unfold endBit in Hend. cbn [isBits offset size] in Hend. lia. }
    set (f := mkField (Layout nested) sz off false pos) in *.
    unfold Buffer_set.
    destruct (Z.ltb_spec off 0); [lia|].
    destruct (Z.ltb_spec (byteLength b) (off + byteLength nb)); [lia|].
    cbn [orb].
    destruct (splice_field b f nb Hf eq_refl Hend
                ltac:(cbn; unfold byteLength in *; lia) Hzero)
      as (Hlen & Hcont & Hframe).
    eexists. split; [reflexivity|]. auto.
Qed.

Lemma separate_sym (f g : SchemaFieldType) : separate f g -> separate g f.
Proof.
  unfold separate, apart. rewrite (shareByte_sym g f).
  destruct (shareByte f g); tauto.
Qed.

Lemma sorted_separate (f g : SchemaFieldType) :
  fieldOk layoutOk f = true -> fieldOk layoutOk g = true ->
  endBit f <= firstBit g -> separate f g.
Proof.
  intros Hf Hg Hle. pose proof (sorted_apart _ f g Hf Hg Hle) as H.
  unfold separate, apart. destruct (shareByte f g); auto.
Qed.

Lemma toBuffer_loop_ok (complete : bool) (props : list (string * Value))
    (todo : SchemaInterface) :
  forall (c e : Z) (b : Buffer),
    chain layoutOk c todo = Some e -> e <= 8 * byteLength b ->
    fieldsConform (conforms complete) complete props todo ->
    (forall name f nested x,
        In (name, f) todo -> type f = Layout nested ->
        conforms complete nested x ->
        exists nb, toBuffer nested x = Ok nb /\ byteLength nb = Struct_size nested) ->
    (forall i name f, todo !! i = Some (name, f) -> content b f = zeroContent f) ->
    exists b',
      toBuffer_loop toBuffer props todo b = Ok b' /\
      length b' = length b /\
      (forall g, fieldOk layoutOk g = true ->
                 (forall i name f, todo !! i = Some (name, f) -> separate f g) ->
                 content b' g = content b g) /\
      (forall i name f, todo !! i = Some (name, f) ->
                        content b' f = written props name f).
Proof.
  induction todo as [|[name f] rest IH]; intros c e b Hchain Hbound Hconf Hnest Hzero.
  - exists b. repeat split; auto. intros i n g Hi. discriminate Hi.
  - cbn [chain] in Hchain.
    destruct (fieldOk layoutOk f) eqn:Hf; [|discriminate].
    destruct (Z.leb_spec c (firstBit f)); [|discriminate]. cbn [andb] in Hchain.
    destruct (chain_sorted _ _ _ _ Hchain) as (Hfe & Hall & _).
    assert (Hsep : forall i n g, rest !! i = Some (n, g) -> separate f g).
    { intros i n g Hi. destruct (Hall i n g Hi) as (Hg & Hle & _).
      now apply sorted_separate. }
    cbn [fieldsConform] in Hconf. destruct Hconf as [Hhead Hconf].
    assert (Hnest' : forall n g nested x,
               In (n, g) rest -> type g = Layout nested ->
               conforms complete nested x ->
               exists nb, toBuffer nested x = Ok nb
                          /\ byteLength nb = Struct_size nested).
    { intros n g nested x Hin. apply (Hnest n g nested x). now right. }
    cbn [toBuffer_loop]. unfold written.
    destruct (own props name) as [x|] eqn:Hown.
    + destruct (own_get _ _ _ Hown) as [Hhas _]. rewrite Hhas. cbn [negb].
      destruct (toBuffer_field_ok complete props name f x b Hf ltac:(lia) Hown Hhead)
        as (b1 & Hw & Hlen1 & Hcont1 & Hframe1).
      { intros nested Ht. apply (Hnest name f nested x); [now left | exact Ht |].
        unfold fieldValueOk in Hhead. now rewrite Ht in Hhead. }
      { apply (Hzero 0%nat name f). reflexivity. }
      rewrite Hw. cbn [mbind outcome_bind].
      destruct (IH (endBit f) e b1 Hchain) as (b' & Hrun & Hlen & Hframe & Hres);
        try assumption.
      { unfold byteLength in *. rewrite Hlen1. exact Hbound. }
      { intros i n g Hi. destruct (Hall i n g Hi) as (Hg & _).
        rewrite (Hframe1 g Hg (Hsep i n g Hi)). apply (Hzero (S i) n g). exact Hi. }
      exists b'. split; [exact Hrun|]. split; [congruence|]. split.
      * intros g Hg Hg'. rewrite Hframe.
        -- apply Hframe1; [exact Hg|]. apply (Hg' 0%nat name f). reflexivity.
        -- exact Hg.
        -- intros i n h Hi. apply (Hg' (S i) n h). exact Hi.
      * intros [|i] n g Hi.
        -- injection Hi as <- <-. rewrite Hown.
           rewrite Hframe; [exact Hcont1 | exact Hf |].
           intros i n g Hi. apply separate_sym. now apply (Hsep i n g).
        -- apply (Hres i n g Hi).
    + destruct Hhead as [_ Hproto].
      assert (Hhas : has props name = false) by (unfold has; now rewrite Hown).
      rewrite Hhas. cbn [negb].
      destruct (IH (endBit f) e b Hchain) as (b' & Hrun & Hlen & Hframe & Hres);
        try assumption.
      { intros i n g Hi. apply (Hzero (S i) n g). exact Hi. }
      exists b'. split; [exact Hrun|]. split; [exact Hlen|]. split.
      * intros g Hg Hg'. apply Hframe; [exact Hg|].
        intros i n h Hi. apply (Hg' (S i) n h). exact Hi.
      * intros [|i] n g Hi.
        -- injection Hi as <- <-. rewrite Hown.
           rewrite Hframe; [apply (Hzero 0%nat name f); reflexivity | exact Hf |].
           intros i n g Hi. apply separate_sym. now apply (Hsep i n g).
        -- apply (Hres i n g Hi).
Qed.

(** ** Decoding what was encoded *)

Lemma Buffer_subarray_slice (b : Buffer) (off n : Z) :
  0 <= off -> 0 <= n -> off + n <= byteLength b ->
  Buffer_subarray b off (off + n) = slice b off n.
Proof.
  intros Ho Hn Hb. unfold Buffer_subarray, clampIndex.
  destruct (Z.ltb_spec off 0); [lia|].
  destruct (Z.ltb_spec (off + n) 0); [lia|].
  rewrite !Z.min_l by lia. f_equal. lia.
Qed.

Lemma toObject_field_ok (props : list (string * Value)) (name : string)
    (f : SchemaFieldType) (x : Value) (b : Buffer) :
  fieldOk layoutOk f = true ->
  endBit f <= 8 * byteLength b ->
  own props name = Some x ->
  fieldValueOk (conforms true) f x ->
  content b f = encoding f x ->
  (forall nested, type f = Layout nested ->
     exists nb, toBuffer nested x = Ok nb /\ byteLength nb = Struct_size nested /\
                toObject nested nb = Ok (normalize nested x)) ->
  toObject_field toObject b f = Ok (normalizeField normalize props (name, f)).2.
Proof.
  intros Hf Hend Hown Hval Hcont Hnested.
  destruct (own_get _ _ _ Hown) as [_ Hget].
  destruct (fieldOk_extent _ f Hf) as (Hoff & Hsize & _).
  assert (Hf' := Hf). unfold fieldOk in Hf'.
  unfold fieldValueOk in Hval. unfold content, encoding, payload in Hcont.
  unfold normalizeField. cbn [fst snd]. rewrite Hget.
  destruct f as [ty sz off fb pos]. cbn [type size offset isBits position] in *.
  unfold toObject_field.
  destruct ty as [t | nested].
  - destruct fb.
    + (* a bitfield *)
      destruct Hval as (n & -> & Hrange).
      destruct (fieldOk_bitField _ _ Hf eq_refl)
        as (t' & p & [= <-] & Ht & Hp & ? & ? & ? & ?).
      cbn [size position] in *. subst pos. cbn [default id] in Hcont.
      injection Hcont as Hraw.
      unfold readBitField. cbn [offset position size default id].
      fold (rawBits (default 0 (Buffer_get b off)) p sz). rewrite Hraw.
      unfold processValueForBitfield, bitfieldRange in *. cbn [typeName type size].
      cbn [mbind outcome_bind].
      destruct Ht as [-> | ->].
      * change (startsWith "Int8" "Int") with true in *. cbv iota in Hrange |- *.
        destruct (Z.ltb_spec sz 0); [lia|]. cbn [mbind outcome_bind].
        rewrite <- (asIntN_mod sz n) by lia. now rewrite asIntN_fits by lia.
      * change (startsWith "UInt8" "Int") with false in *. cbv iota in Hrange |- *.
        cbn [mbind outcome_bind]. now rewrite Z.mod_small by lia.
    + assert (Hend' : off + sz <= byteLength b).
      { unfold endBit in Hend. cbn [isBits offset size] in Hend. lia. }
      unfold readField. cbn [type size offset].
      destruct (String.eqb t "string") eqn:Hstr.
      * (* a text field *)
        destruct Hval as (s & -> & Htext). unfold textOk in Htext. bool_hyps.
        rewrite Buffer_toString_slice by lia. rewrite Hcont.
        rewrite utf8_decode_encode, trimNul_padding, trimNul_id by assumption.
        reflexivity.
      * (* an integer field *)
        destruct Hval as (m & n & Hm & Hfits & ->).
        rewrite Hm in Hf', Hcont |- *. bool_hyps.
        assert (Hin : inBounds b off (fmt_bytes m) = true).
        { unfold inBounds. bool_goal; lia. }
        pose proof (length_intBytes m n) as Hlb.
        assert (Hpay : slice b off (Z.of_nat (fmt_bytes m)) = intBytes m n).
        { replace (Z.of_nat (fmt_bytes m)) with sz by lia. rewrite Hcont.
          destruct (fmt_big m);
            (replace (Z.to_nat sz - length (intBytes m n))%nat with 0%nat by lia);
            apply app_nil_r. }
        rewrite (Buffer_readInt_ok m b n off (Buffer_format_bytes t m Hm) Hfits Hin Hpay).
        reflexivity.
  - (* a nested layout *)
    simpl in Hf'. bool_hyps. subst fb.
    destruct (Hnested nested eq_refl) as (nb & Hnb & Hnbl & Hdec).
    assert (Hend' : off + sz <= byteLength b).
    { unfold endBit in Hend. cbn [isBits offset size] in Hend. lia. }
    rewrite Buffer_subarray_slice by lia. rewrite Hcont, Hnb.
    unfold byteLength in Hnbl.
    replace (Z.to_nat sz - length nb)%nat with 0%nat by lia.
    cbn [replicate]. rewrite app_nil_r. exact Hdec.
Qed.

Lemma toObject_loop_ok (b : Buffer) (val : string * SchemaFieldType -> string * Value)
    (fields : SchemaInterface) :
  forall result : list (string * Value),
    (forall entry, (val entry).1 = entry.1) ->
    distinct (map fst result ++ map fst fields) = true ->
    mem_string "__proto__" (map fst fields) = false ->
    (forall i name f, fields !! i = Some (name, f) ->
                      toObject_field toObject b f = Ok (val (name, f)).2) ->
    toObject_loop toObject b fields result = Ok (VObject (result ++ map val fields)).
Proof.
  induction fields as [|[name f] rest IH]; intros result Hname Hd Hnp Hread.
  - simpl. now rewrite app_nil_r.
  - cbn [map fst] in Hd, Hnp. apply distinct_middle in Hd as [Hfresh Hd].
    apply no_proto_cons in Hnp as [Hnm Hnp].
    cbn [toObject_loop]. rewrite (Hread 0%nat name f eq_refl).
    cbn [mbind outcome_bind]. rewrite (store_fresh _ _ _ Hnm Hfresh).
    cbn [mbind outcome_bind]. rewrite IH.
    + cbn [map]. rewrite <- app_assoc. cbn [app]. do 3 f_equal.
      pose proof (Hname (name, f)) as Hn. destruct (val (name, f)) as [n v].
      cbn [fst snd] in *. now subst n.
    + exact Hname.
    + rewrite map_app. exact Hd.
    + exact Hnp.
    + intros i n g Hi. apply (Hread (S i) n g Hi).
Qed.

Lemma fieldsConform_lookup (P : Struct -> Value -> Prop) (complete : bool)
    (props : list (string * Value)) (fields : SchemaInterface)
    (i : nat) (name : string) (f : SchemaFieldType) :
  fieldsConform P complete props fields -> fields !! i = Some (name, f) ->
  match own props name with
  | Some x => fieldValueOk P f x
  | None => complete = false /\ Object_prototype_has name = false
  end.
Proof.
  revert i. induction fields as [|[n g] rest IH]; intros i Hc Hi; [discriminate|].
  destruct Hc as [Hh Hc]. destruct i as [|i].
  - injection Hi as <- <-. exact Hh.
  - exact (IH i Hc Hi).
Qed.

(** [toBuffer] succeeds on a record that conforms to the layout: the buffer
    has the size of the layout, every declared field holds its encoding, or
    zeros when the record has no such field; and [toObject] maps the buffer
    of a complete record back to that record. *)
Lemma toBuffer_toObject (complete : bool) (this : Struct) :
  forall data : Value,
    layoutOk this = true -> conforms complete this data ->
    exists b,
      toBuffer this data = Ok b /\
      byteLength b = Struct_size this /\
      (forall i name f, Struct_schema this !! i = Some (name, f) ->
                        content b f = written (properties data) name f) /\
      (complete = true -> toObject this b = Ok (normalize this data)).
Proof.
  induction this as [sz sch IH] using Struct_induction.
  intros data Hok Hconf.
  assert (Hok' := Hok). cbn [layoutOk] in Hok'. bool_hyps.
  destruct (chain layoutOk 0 sch) as [e|] eqn:Hchain; [|discriminate]. bool_hyps.
  destruct (chain_sorted _ _ _ _ Hchain) as (_ & Hall & _).
  destruct data as [| | | | | |props|]; try contradiction.
  cbn [conforms] in Hconf. destruct Hconf as [Hconf Hextra].
  assert (Hlen0 : byteLength (replicate (Z.to_nat sz) 0) = sz).
  { unfold byteLength. rewrite length_replicate. lia. }
  destruct (toBuffer_loop_ok complete props sch 0 e (replicate (Z.to_nat sz) 0)
              Hchain ltac:(lia) Hconf) as (b & Hrun & Hlen & _ & Hres).
  { intros name f nested x Hin Ht Hx.
    assert (Hn : nestedIn sch nested) by (exists name, f; auto).
    destruct (IH nested Hn x (layoutOk_nested _ _ _ Hok Hn) Hx)
      as (nb & ? & ? & _). eauto. }
  { intros i name f Hi. destruct (Hall i name f Hi) as (Hf & _ & Hle).
    apply content_zeros; [exact Hf | lia]. }
  exists b. cbn [toBuffer]. rewrite Buffer_alloc_ok by lia.
  cbn [mbind outcome_bind truthy typeof negb orb properties Struct_size Struct_schema].
  change (String.eqb "object" "object") with true. cbn [negb].
  split; [exact Hrun|].
  assert (Hlenb : byteLength b = sz).
  { unfold byteLength in *. rewrite Hlen. exact Hlen0. }
  split; [exact Hlenb|]. split; [exact Hres|].
  intros ->. cbn [toObject normalize properties].
  rewrite (toObject_loop_ok b (normalizeField normalize props) sch []).
  - reflexivity.
  - intros entry. reflexivity.
  - assumption.
  - assumption.
  - intros i name f Hi. destruct (Hall i name f Hi) as (Hf & _ & Hle).
    pose proof (fieldsConform_lookup _ _ _ _ i name f Hconf Hi) as Hv.
    pose proof (Hres i name f Hi) as Hc. unfold written in Hc.
    destruct (own props name) as [x|] eqn:Hown; [|destruct Hv; discriminate].
    apply (toObject_field_ok props name f x b Hf ltac:(lia) Hown Hv Hc).
    intros nested Ht.
    assert (Hn : nestedIn sch nested).
    { exists name, f. split; [|exact Ht].
      apply list_elem_of_In, list_elem_of_lookup. eauto. }
    unfold fieldValueOk in Hv. rewrite Ht in Hv.
    destruct (IH nested Hn x (layoutOk_nested _ _ _ Hok Hn) Hv)
      as (nb & ? & ? & _ & Hdec). eauto.
Qed.

(** ** Equality of records *)

Lemma sameValue_own (p q : list (string * Value)) :
  sameValue (VObject p) (VObject q) ->
  forall name, option_Forall2 sameValue (own p name) (own q name).
Proof.
  intros H. inversion H as [v Hv Hq | p' q' Hpq]; subst.
  - intros name. destruct (own q name); constructor. apply same_refl.
  - exact Hpq.
Qed.

Lemma own_None {A : Type} (l : list (string * A)) (name : string) :
  own l name = None <-> mem_string name (map fst l) = false.
Proof.
  induction l as [|[k v] l IH]; simpl; [tauto|].
  rewrite (String.eqb_sym name k). destruct (String.eqb k name); simpl.
  - split; discriminate.
  - exact IH.
Qed.

Lemma own_lookup {A : Type} (l : list (string * A)) (name : string) (v : A) :
  own l name = Some v -> exists i, l !! i = Some (name, v).
Proof.
  induction l as [|[k w] l IH]; simpl; [discriminate|].
  destruct (String.eqb_spec k name) as [-> | _].
  - intros [= ->]. now exists 0%nat.
  - intros H. destruct (IH H) as [i Hi]. now exists (S i).
Qed.

Lemma own_map {A B : Type} (h : string * A -> string * B)
    (l : list (string * A)) (name : string) :
  (forall e, (h e).1 = e.1) ->
  own (map h l) name = option_map (fun v => (h (name, v)).2) (own l name).
Proof.
  intros Hh. induction l as [|[k v] l IH]; simpl; [reflexivity|].
  pose proof (Hh (k, v)) as Hk. destruct (h (k, v)) as [k' v'] eqn:E.
  cbn [fst snd] in Hk. subst k'.
  destruct (String.eqb_spec k name) as [-> | _].
  - simpl. now rewrite E.
  - exact IH.
Qed.

Lemma forallb_mem (keys schemaKeys : list string) (name : string) :
  forallb (fun k => mem_string k schemaKeys) keys = true ->
  mem_string name keys = true -> mem_string name schemaKeys = true.
Proof.
  intros Hall Hin. unfold mem_string in Hin at 1.
  apply existsb_exists in Hin as (k & Hk & Heq).
  apply String.eqb_eq in Heq as <-.
  rewrite forallb_forall in Hall. now apply Hall.
Qed.

Lemma normalize_same (this : Struct) :
  forall data, layoutOk this = true -> conforms true this data ->
               sameValue (normalize this data) data.
Proof.
  induction this as [sz sch IH] using Struct_induction.
  intros data Hok Hconf.
  destruct data as [| | | | | |props|]; try contradiction.
  cbn [conforms] in Hconf. destruct Hconf as [Hconf Hextra].
  specialize (Hextra eq_refl).
  cbn [normalize properties]. apply same_object. intros name.
  rewrite own_map by reflexivity.
  destruct (own sch name) as [f|] eqn:Hsch; cbn [option_map].
  - destruct (own_lookup _ _ _ Hsch) as [i Hi].
    pose proof (fieldsConform_lookup _ _ _ _ i name f Hconf Hi) as Hv.
    destruct (own props name) as [x|] eqn:Hown; [|destruct Hv; discriminate].
    constructor. unfold normalizeField. cbn [fst snd].
    unfold get. rewrite Hown.
    destruct (type f) as [t | nested] eqn:Ht; [apply same_refl|].
    assert (Hn : nestedIn sch nested).
    { exists name, f. split; [|exact Ht].
      apply list_elem_of_In, list_elem_of_lookup. eauto. }
    unfold fieldValueOk in Hv. rewrite Ht in Hv.
    exact (IH nested Hn x (layoutOk_nested _ _ _ Hok Hn) Hv).
  - destruct (own props name) as [x|] eqn:Hown; [|constructor].
    apply own_None in Hsch.
    assert (Hin : mem_string name (map fst props) = true).
    { destruct (mem_string name (map fst props)) eqn:E; [reflexivity|].
      apply own_None in E. congruence. }
    rewrite (forallb_mem _ _ _ Hextra Hin) in Hsch. discriminate.
Qed.

(** ** Round trip *)

(** C1, as amended: for a layout compiled from a well-formed schema and a
    record that holds exactly the declared fields, each with a value of the
    declared kind and in range (an integer within the bounds of its type or
    bitfield width; a text of well-formed Unicode whose UTF-8 form fits the
    declared size and which does not end in a NUL character; a nested record
    that fits the nested layout in the same way), [toBuffer] succeeds and
    [toObject] of its buffer is the original record.  In particular a 4-bit
    signed bitfield holding -1 is stored as the bits [0b1111] and decodes
    to -1, not 15. *)
Theorem toObject_toBuffer_roundtrip :
  (forall (schema : StructSchemaInterface) (this : Struct) (data : Value),
      wellFormedSchema schema = true ->
      new_Struct schema = Ok this ->
      conforms true this data ->
      exists b decoded,
        toBuffer this data = Ok b /\
        toObject this b = Ok decoded /\
        sameValue decoded data) /\
  (new_Struct [("x", Token "Int8:4")] = Ok signed4 /\
   toBuffer signed4 (VObject [("x", VNumber (-1))]) = Ok [15] /\
   toObject signed4 [15] = Ok (VObject [("x", VNumber (-1))])).
Proof.
  split.
  - intros schema this data Hwf Hnew Hconf.
    destruct (new_Struct_ok schema Hwf) as (this' & Hnew' & Hok & _).
    rewrite Hnew in Hnew'. injection Hnew' as <-.
    destruct (toBuffer_toObject true this data Hok Hconf)
      as (b & Hb & _ & _ & Hdec).
    exists b, (normalize this data).
    split; [exact Hb|]. split; [exact (Hdec eq_refl)|].
    now apply normalize_same.
  - repeat split; vm_compute; reflexivity.
Qed.

Lemma toObject_toBuffer_roundtrip_witness :
  exists b decoded,
    toBuffer example_struct example_record = Ok b /\
    toObject example_struct b = Ok decoded /\
    sameValue decoded example_record.
Proof.
  apply (proj1 toObject_toBuffer_roundtrip example_schema example_struct
               example_record).
  - reflexivity.
  - reflexivity.
  - simpl. repeat split; try reflexivity.
    + exists 10. split; [reflexivity|]. unfold bitfieldRange.
      change (startsWith "UInt8" "Int") with false. cbn [size]. lia.
    + exists 5. split; [reflexivity|]. unfold bitfieldRange.
      change (startsWith "UInt8" "Int") with false. cbn [size]. lia.
    + exists (mkFormat 2 false true false), 300.
      split; [reflexivity|]. split; [|reflexivity].
      unfold fits, fmt_min, fmt_max, fmt_bits. simpl. lia.
Defined.

(** C1 as stated fails on a text that ends in a NUL character: it is of the
    declared kind and fits its 4 bytes, but decoding trims the NUL. *)
Lemma roundtrip_loses_trailing_NUL :
  new_Struct [("t", Text 4)] = Ok text4 /\
  toBuffer text4 (VObject [("t", VString [97; 0])]) = Ok [97; 0; 0; 0] /\
  toObject text4 [97; 0; 0; 0] = Ok (VObject [("t", VString [97])]) /\
  ~ sameValue (VObject [("t", VString [97])]) (VObject [("t", VString [97; 0])]).
Proof.
  repeat split; try (vm_compute; reflexivity).
  intros H. pose proof (sameValue_own _ _ H "t") as Ht. simpl in Ht.
  inversion Ht as [x y Hxy |]; subst. inversion Hxy.
Qed.

(** ** The size of the buffer [toBuffer] returns *)

Lemma utf8_fit_length (s : list Z) :
  forall room, 0 <= room -> Z.of_nat (length (utf8_fit s room)) <= room.
Proof.
  induction s as [|c s IH]; intros room Hr; cbn [utf8_fit].
  - simpl. lia.
  - destruct (Z.leb_spec (Z.of_nat (length (utf8_encode1 c))) room).
    + rewrite length_app. specialize (IH (room - Z.of_nat (length (utf8_encode1 c)))).
      lia.
    + simpl. lia.
Qed.

Lemma writeBitField_length (b b' : Buffer) (f : SchemaFieldType) (v : Z) :
  writeBitField b f v = Ok b' -> length b' = length b.
Proof.
  unfold writeBitField.
  destruct (validateBitfieldValue f v); try discriminate.
  cbn [mbind outcome_bind].
  destruct (processValueForBitfield f v); try discriminate.
  cbn [mbind outcome_bind]. intros [= <-]. apply length_Buffer_put.
Qed.

Lemma Buffer_writeInt_length (m : IntFormat) (b b' : Buffer) (v off : Z) :
  Buffer_writeInt m b v off = Ok b' -> length b' = length b.
Proof.
  unfold Buffer_writeInt.
  destruct ((v <? fmt_min m) || (fmt_max m <? v)); [discriminate|].
  destruct (inBounds b off (fmt_bytes m)) eqn:Hin; [|discriminate].
  cbn [negb]. intros [= <-]. unfold inBounds, byteLength in Hin. bool_hyps.
  apply length_splice.
  destruct (fmt_little m); rewrite ?length_rev, length_le_bytes; lia.
Qed.

Lemma Buffer_write_length (b b' : Buffer) (s : list Z) (off n : Z) :
  Buffer_write b s off n = Ok b' -> length b' = length b.
Proof.
  unfold Buffer_write.
  destruct (Z.ltb_spec off 0); [discriminate|].
  destruct (Z.ltb_spec (byteLength b) off); [discriminate|].
  destruct (Z.ltb_spec n 0); [discriminate|].
  destruct (Z.ltb_spec (byteLength b) n); [discriminate|].
  cbn [orb]. intros [= <-]. apply length_splice.
  unfold byteLength in *.
  destruct (Z.ltb_spec (Z.of_nat (length b) - off) n).
  - pose proof (utf8_fit_length s (Z.of_nat (length b) - off)). lia.
  - pose proof (utf8_fit_length s n). lia.
Qed.

Lemma writeField_length (b b' : Buffer) (f : SchemaFieldType) (x : Value) :
  writeField b f x = Ok b' -> length b' = length b.
Proof.
  unfold writeField. destruct (type f) as [t|nested]; [|discriminate].
  destruct (String.eqb t "string").
  - destruct x; try discriminate. apply Buffer_write_length.
  - destruct (includes t "Big" && negb (String.eqb (typeof x) "bigint"));
      [discriminate|].
    destruct (negb (includes t "Big") && negb (String.eqb (typeof x) "number"));
      [discriminate|].
    destruct (Buffer_format t) as [m|]; [|destruct x; discriminate].
    destruct x; try discriminate; apply Buffer_writeInt_length.
Qed.

Lemma toBuffer_field_length (nestedFn : Struct -> Value -> outcome Buffer)
    (props : list (string * Value)) (name : string) (f : SchemaFieldType)
    (b b' : Buffer) :
  toBuffer_field nestedFn props name f b = Ok b' -> length b' = length b.
Proof.
  unfold toBuffer_field. destruct f as [[t|nested] sz off fb pos].
  - destruct fb.
    + destruct (get props name); try discriminate. apply writeBitField_length.
    + apply writeField_length.
  - destruct (truthy (get props name)); [|discriminate].
    destruct (nestedFn nested (get props name)) as [nb| |]; try discriminate.
    cbn [mbind outcome_bind]. unfold Buffer_set.
    destruct (Z.ltb_spec off 0); [discriminate|].
    destruct (Z.ltb_spec (byteLength b) (off + byteLength nb)); [discriminate|].
    cbn [orb]. intros [= <-]. apply length_splice. unfold byteLength in *. lia.
Qed.

Lemma toBuffer_loop_length (nestedFn : Struct -> Value -> outcome Buffer)
    (props : list (string * Value)) (fields : SchemaInterface) :
  forall b b', toBuffer_loop nestedFn props fields b = Ok b' ->
               length b' = length b.
Proof.
  induction fields as [|[name f] rest IH]; intros b b'; cbn [toBuffer_loop].
  - now intros [= <-].
  - destruct (negb (has props name)); [apply IH|].
    destruct (toBuffer_field nestedFn props name f b) as [b1| |] eqn:E;
      try discriminate.
    cbn [mbind outcome_bind]. intros H. apply IH in H.
    apply toBuffer_field_length in E. congruence.
Qed.

(** Whatever the record holds, a buffer [toBuffer] returns has the size of
    the layout. *)
Lemma toBuffer_length (this : Struct) (data : Value) (b : Buffer) :
  toBuffer this data = Ok b -> byteLength b = Struct_size this.
Proof.
  destruct this as [sz sch]. cbn [toBuffer Struct_size]. unfold Buffer_alloc.
  destruct (Z.ltb_spec sz 0); [discriminate|]. cbn [mbind outcome_bind].
  destruct (negb (truthy data) || negb (String.eqb (typeof data) "object"));
    [discriminate|].
  intros Hrun. apply toBuffer_loop_length in Hrun. unfold byteLength.
  rewrite Hrun, length_replicate. lia.
Qed.

(** ** Decoding any buffer *)

Lemma byteLength_subarray (b : Buffer) (off n : Z) :
  0 <= off -> 0 <= n -> off + n <= byteLength b ->
  byteLength (Buffer_subarray b off (off + n)) = n.
Proof.
  intros Ho Hn Hb. rewrite Buffer_subarray_slice by assumption.
  unfold byteLength. rewrite length_slice by assumption. lia.
Qed.

Lemma toObject_field_outcome (b : Buffer) (f : SchemaFieldType) :
  fieldOk layoutOk f = true ->
  (forall nested, type f = Layout nested -> forall b',
      if readable nested b'
      then exists props, toObject nested b' = Ok (VObject props)
      else throwsRangeError (toObject nested b')) ->
  if fieldReadable readable b f
  then exists v, toObject_field toObject b f = Ok v
  else throwsRangeError (toObject_field toObject b f).
Proof.
  intros Hf Hnested. assert (Hf' := Hf). unfold fieldOk in Hf'.
  unfold fieldReadable, toObject_field.
  destruct f as [[t|nested] sz off fb pos]; cbn [type size offset isBits position] in *.
  - destruct fb; cbn [orb].
    + destruct (fieldOk_bitField _ _ Hf eq_refl)
        as (t' & p & [= <-] & Ht & _ & _ & _ & Hw & _). cbn [size] in Hw.
      unfold readBitField, processValueForBitfield. cbn [typeName type size].
      cbn [mbind outcome_bind].
      destruct (startsWith t "Int"); [|eauto].
      destruct (Z.ltb_spec sz 0); [lia|]. cbn [mbind outcome_bind]. eauto.
    + unfold readField. cbn [type size offset].
      destruct (String.eqb t "string"); cbn [orb]; [eauto|].
      destruct (Buffer_format t) as [m|]; [|bool_hyps; discriminate].
      unfold Buffer_readInt. destruct (inBounds b off (fmt_bytes m)); cbn [negb].
      * cbn [mbind outcome_bind]. eauto.
      * unfold boundsError.
        destruct (byteLength b <? Z.of_nat (fmt_bytes m)); eexists; reflexivity.
  - specialize (Hnested nested eq_refl (Buffer_subarray b off (off + sz))).
    destruct (readable nested (Buffer_subarray b off (off + sz))).
    + destruct Hnested as [props Hp]. eauto.
    + exact Hnested.
Qed.

Lemma toObject_loop_outcome (b : Buffer) (fields : SchemaInterface) :
  forall result : list (string * Value),
    distinct (map fst result ++ map fst fields) = true ->
    mem_string "__proto__" (map fst fields) = false ->
    (forall i name f, fields !! i = Some (name, f) ->
        if fieldReadable readable b f
        then exists v, toObject_field toObject b f = Ok v
        else throwsRangeError (toObject_field toObject b f)) ->
    if forallb (fun e => fieldReadable readable b e.2) fields
    then exists props,
        toObject_loop toObject b fields result = Ok (VObject props) /\
        map fst props = map fst result ++ map fst fields
    else throwsRangeError (toObject_loop toObject b fields result).
Proof.
  induction fields as [|[name f] rest IH]; intros result Hd Hnp Hread.
  - simpl. exists result. now rewrite app_nil_r.
  - cbn [map fst] in Hd, Hnp. apply distinct_middle in Hd as [Hfresh Hd].
    apply no_proto_cons in Hnp as [Hnm Hnp].
    cbn [forallb snd toObject_loop].
    pose proof (Hread 0%nat name f eq_refl) as Hhead.
    destruct (fieldReadable readable b f); cbn [andb].
    + destruct Hhead as [v Hv]. rewrite Hv. cbn [mbind outcome_bind].
      rewrite (store_fresh _ _ _ Hnm Hfresh). cbn [mbind outcome_bind].
      specialize (IH (result ++ [(name, v)])).
      rewrite map_app in IH. specialize (IH Hd Hnp).
      assert (Hrest : forall i n g, rest !! i = Some (n, g) ->
                 if fieldReadable readable b g
                 then exists v, toObject_field toObject b g = Ok v
                 else throwsRangeError (toObject_field toObject b g)).
      { intros i n g Hi. apply (Hread (S i) n g Hi). }
      specialize (IH Hrest).
      destruct (forallb (fun e => fieldReadable readable b e.2) rest).
      * destruct IH as (props & Hp & Hk). exists props. split; [exact Hp|].
        rewrite Hk, <- app_assoc. reflexivity.
      * exact IH.
    + destruct Hhead as [code Hcode]. rewrite Hcode. exists code. reflexivity.
Qed.

(** [toObject] returns a record with one entry per declared field when
    every integer field is readable, and otherwise throws the [RangeError] of
    the first read that fails. *)
Lemma toObject_outcome (this : Struct) :
  layoutOk this = true -> forall b,
    if readable this b
    then exists props,
        toObject this b = Ok (VObject props) /\
        map fst props = map fst (Struct_schema this)
    else throwsRangeError (toObject this b).
Proof.
  induction this as [sz sch IH] using Struct_induction.
  intros Hok b. assert (Hok' := Hok). cbn [layoutOk] in Hok'. bool_hyps.
  destruct (chain layoutOk 0 sch) as [e|] eqn:Hchain; [|discriminate].
  destruct (chain_sorted _ _ _ _ Hchain) as (_ & Hall & _).
  cbn [readable toObject Struct_schema].
  apply (toObject_loop_outcome b sch []); [assumption | assumption |].
  intros i name f Hi. destruct (Hall i name f Hi) as (Hf & _).
  apply toObject_field_outcome; [exact Hf|].
  intros nested Ht b'.
  assert (Hn : nestedIn sch nested).
  { exists name, f. split; [|exact Ht].
    apply list_elem_of_In, list_elem_of_lookup. eauto. }
  specialize (IH nested Hn (layoutOk_nested _ _ _ Hok Hn) b').
  destruct (readable nested b'); [|exact IH].
  destruct IH as (props & Hp & _). eauto.
Qed.

(** A buffer at least as long as the layout can always be read. *)
Lemma readable_long (this : Struct) :
  layoutOk this = true -> forall b,
    Struct_size this <= byteLength b -> readable this b = true.
Proof.
  induction this as [sz sch IH] using Struct_induction.
  intros Hok b Hlen. assert (Hok' := Hok). cbn [layoutOk] in Hok'. bool_hyps.
  destruct (chain layoutOk 0 sch) as [e|] eqn:Hchain; [|discriminate]. bool_hyps.
  destruct (chain_sorted _ _ _ _ Hchain) as (_ & Hall & _).
  cbn [readable Struct_size] in *. apply forallb_forall. intros [name f] Hin.
  apply list_elem_of_In, list_elem_of_lookup in Hin as [i Hi].
  destruct (Hall i name f Hi) as (Hf & _ & Hend).
  destruct (fieldOk_extent _ f Hf) as (Hoff & Hsize & _).
  assert (Hf' := Hf). unfold fieldOk in Hf'. cbn [snd].
  unfold fieldReadable. destruct (type f) as [t|nested] eqn:Ht.
  - destruct (isBits f) eqn:Hb; [reflexivity|]. cbn [orb].
    destruct (String.eqb t "string"); [reflexivity|]. cbn [orb].
    destruct (Buffer_format t) as [m|]; [|reflexivity].
    bool_hyps. unfold endBit in Hend. rewrite Hb in Hend.
    unfold inBounds. bool_goal; lia.
  - bool_hyps. unfold endBit in Hend.
    replace (isBits f) with false in Hend by congruence.
    assert (Hn : nestedIn sch nested).
    { exists name, f. split; [|exact Ht].
      apply list_elem_of_In, list_elem_of_lookup. eauto. }
    apply (IH nested Hn); [assumption|].
    rewrite byteLength_subarray by lia. lia.
Qed.

(** ** Missing fields *)

Lemma has_false (props : list (string * Value)) (name : string) :
  has props name = false -> own props name = None.
Proof. unfold has. destruct (own props name); [discriminate | reflexivity]. Qed.

(** What holds of missing fields.  For a layout compiled from a well-formed
    schema, (1) a buffer [toBuffer] returns has exactly [size] bytes,
    whatever the record holds, and the fields are written into [size] zero
    bytes; (2) on a record whose fields, where present, hold fitting values
    and whose other fields are not [in] the record, not through
    [Object.prototype] either, [toBuffer] raises no error and every such
    field is left zero; (3) on a buffer of at least [size] bytes, whatever
    they hold, [toObject] returns a record with exactly one entry per
    declared field, in the order of the schema. *)
Theorem missing_fields_tolerated (schema : StructSchemaInterface) (this : Struct) :
  wellFormedSchema schema = true ->
  new_Struct schema = Ok this ->
  (forall data b, toBuffer this data = Ok b -> byteLength b = Struct_size this) /\
  (forall props,
      toBuffer this (VObject props)
      = toBuffer_loop toBuffer props (Struct_schema this)
          (replicate (Z.to_nat (Struct_size this)) 0)) /\
  (forall data, conforms false this data ->
      exists b,
        toBuffer this data = Ok b /\
        forall i name f,
          Struct_schema this !! i = Some (name, f) ->
          has (properties data) name = false ->
          content b f = zeroContent f) /\
  (forall b, Struct_size this <= byteLength b ->
      exists props,
        toObject this b = Ok (VObject props) /\
        map fst props = map fst schema).
Proof.
  intros Hwf Hnew.
  destruct (new_Struct_ok schema Hwf) as (this' & Hnew' & Hok & Hkeys & _).
  rewrite Hnew in Hnew'. injection Hnew' as <-.
  split; [|split; [|split]].
  - intros data b. apply toBuffer_length.
  - intros props. destruct this as [sz sch]. cbn [toBuffer Struct_size Struct_schema].
    cbn [layoutOk] in Hok. bool_hyps. rewrite Buffer_alloc_ok by lia. reflexivity.
  - intros data Hconf.
    destruct (toBuffer_toObject false this data Hok Hconf) as (b & Hb & _ & Hres & _).
    exists b. split; [exact Hb|]. intros i name f Hi Hhas.
    rewrite (Hres i name f Hi). unfold written.
    now rewrite (has_false _ _ Hhas).
  - intros b Hlen. pose proof (toObject_outcome this Hok b) as Hout.
    rewrite (readable_long this Hok b Hlen) in Hout.
    destruct Hout as (props & Hp & Hk). exists props. split; [exact Hp|].
    now rewrite Hk.
Qed.

Lemma missing_fields_tolerated_witness :
  toBuffer example_struct (VObject [("c", VNumber 300)]) = Ok [0; 44; 1] /\
  (exists b, toBuffer example_struct (VObject [("c", VNumber 300)]) = Ok b /\
             content b (mkField (Named "UInt8") 4 0 true (Some 4)) = [0]) /\
  exists props,
    toObject example_struct [255; 255; 255; 255] = Ok (VObject props) /\
    map fst props = ["a"; "b"; "c"].
Proof.
  destruct (missing_fields_tolerated example_schema example_struct eq_refl eq_refl)
    as (_ & _ & Habsent & Hdecode).
  split; [reflexivity|]. split.
  - destruct (Habsent (VObject [("c", VNumber 300)])) as (b & Hb & Hzero).
    + simpl. repeat split; try reflexivity.
      exists (mkFormat 2 false true false), 300.
      split; [reflexivity|]. split; [|reflexivity].
      unfold fits, fmt_min, fmt_max, fmt_bits. simpl. lia.
    + exists b. split; [exact Hb|].
      apply (Hzero 1%nat "b"); reflexivity.
  - apply Hdecode. unfold byteLength. simpl. lia.
Defined.

(** C7, at the failing input: the schema [{ constructor: 'UInt8' }] is
    well formed and compiles to a layout of one byte; the record [{}] has
    no property [constructor] of its own, so the field is absent from the
    record.  Yet [fieldName in data] holds, through [Object.prototype], and
    [toBuffer] takes the inherited function for the value: it throws the
    [TypeError] of [writeField] where the claim, and the documentation of
    the method, have the field ignored and its byte left zero, as happens
    to the field [x] of [{ x: 'UInt8' }]. *)
Theorem absent_inherited_field_throws :
  wellFormedSchema [("constructor", Token "UInt8")] = true /\
  new_Struct [("constructor", Token "UInt8")]
    = Ok (mkStruct 1 [("constructor", mkField (Named "UInt8") 1 0 false None)]) /\
  own (properties (VObject [])) "constructor" = None /\
  has (properties (VObject [])) "constructor" = true /\
  toBuffer inner_struct (VObject []) = Ok [0] /\
  toBuffer (mkStruct 1 [("constructor", mkField (Named "UInt8") 1 0 false None)])
           (VObject [])
    = Throw (TypeError ("Expected a number for field " ++ quote ++ "UInt8" ++ quote
                        ++ ", but received function")%string).
Proof. repeat split; vm_compute; reflexivity. Qed.

(** ** Layouts built by the constructor *)

(** Every such layout satisfies the invariant, so what is proved of the
    schemas of [wellFormedSchema] holds of all of them. *)
Lemma Compiled_layoutOk : forall this, Compiled this -> layoutOk this = true.
Proof.
  fix IH 2. intros this [schema this' Hd Hnp Hall Hnew].
  assert (Hwf : forallb (fun e => wellFormedEntry e.2) schema = true).
  { clear Hd Hnp Hnew. induction Hall as [|[name entry] rest Hentry Hrest IHrest].
    - reflexivity.
    - cbn [forallb snd]. rewrite IHrest, andb_true_r. cbn [snd] in Hentry.
      destruct Hentry as [token Ht | n Hn | nested Hc].
      + exact Ht.
      + exact Hn.
      + exact (IH nested Hc). }
  destruct (new_Struct_ok schema) as (this'' & Hnew' & Hok & _).
  { unfold wellFormedSchema. now rewrite Hd, Hnp, Hwf. }
  rewrite Hnew in Hnew'. injection Hnew' as <-. exact Hok.
Qed.

Lemma Compiled_wellFormedSchema (schema : StructSchemaInterface) :
  distinct (map fst schema) = true ->
  mem_string "__proto__" (map fst schema) = false ->
  Forall (fun e => entryOk Compiled e.2) schema ->
  wellFormedSchema schema = true.
Proof.
  intros Hd Hnp Hall. unfold wellFormedSchema. rewrite Hd, Hnp. cbn [andb negb].
  clear Hd Hnp.
  induction Hall as [|[name entry] rest Hentry Hrest IHrest]; [reflexivity|].
  cbn [forallb snd]. rewrite IHrest, andb_true_r. cbn [snd] in Hentry.
  destruct Hentry as [token Ht | n Hn | nested Hc];
    [exact Ht | exact Hn | now apply Compiled_layoutOk].
Qed.

(** * Further properties of the methods *)

(** ** Bitfields, method by method *)

Lemma rawBits_range (byte p w : Z) :
  0 <= w < 31 -> 0 <= rawBits byte p w < 2 ^ w.
Proof.
  intros Hw. unfold rawBits, band. rewrite shl_1 by lia.
  assert (0 < 2 ^ w) by (apply Z.pow_pos_nonneg; lia).
  assert (2 ^ w < 2 ^ 31) by (apply Z.pow_lt_mono_r; lia).
  rewrite (ToInt32_small (2 ^ w - 1)) by lia.
  replace (2 ^ w - 1) with (Z.ones w) by (rewrite Z.ones_equiv; lia).
  rewrite Z.land_ones by lia. apply Z.mod_pos_bound. lia.
Qed.

Lemma asIntN_range (w u : Z) :
  1 <= w -> - 2 ^ (w - 1) <= asIntN w u <= 2 ^ (w - 1) - 1.
Proof.
  intros Hw. unfold asIntN. destruct (Z.leb_spec w 0); [lia|].
  assert (Hpow : 2 ^ w = 2 * 2 ^ (w - 1)).
  { rewrite <- Z.pow_succ_r by lia. f_equal. lia. }
  assert (Hpos : 0 < 2 ^ (w - 1)) by (apply Z.pow_pos_nonneg; lia).
  pose proof (Z.mod_pos_bound (u + 2 ^ (w - 1)) (2 ^ w)). lia.
Qed.

Lemma readBitField_rawBits (b : Buffer) (t : string) (w off : Z) (pos : option Z) :
  0 <= w ->
  readBitField b (mkField (Named t) w off true pos) =
    let raw := rawBits (default 0 (Buffer_get b off)) (default 0 pos) w in
    Ok (if startsWith t "Int" then asIntN w raw else raw).
Proof.
  intros Hw. unfold readBitField, processValueForBitfield, rawBits.
  cbn [typeName type size offset position mbind outcome_bind].
  destruct (startsWith t "Int"); [|reflexivity].
  destruct (Z.ltb_spec w 0); [lia | reflexivity].
Qed.

Lemma writeBitField_bitField (b : Buffer) (t : string) (w off : Z)
    (pos : option Z) (v : Z) :
  t = "Int8" \/ t = "UInt8" -> 1 <= w <= 30 -> bitfieldRange t w v ->
  let f := mkField (Named t) w off true pos in
  writeBitField b f v =
    Ok (Buffer_put b off
          (applyBitmask (default 0 (Buffer_get b off)) f
             (if startsWith t "Int" then asIntN w v else v) (default 0 pos))).
Proof.
  intros Ht Hw Hv f. subst f. unfold bitfieldRange in Hv.
  destruct Ht as [-> | ->].
  - change (startsWith "Int8" "Int") with true in *. cbv iota in Hv |- *.
    rewrite writeBitField_signed by lia.
    destruct (Z.ltb_spec v (- 2 ^ (w - 1))); [lia|].
    destruct (Z.ltb_spec (2 ^ (w - 1) - 1) v); [lia|]. reflexivity.
  - change (startsWith "UInt8" "Int") with false in *. cbv iota in Hv |- *.
    rewrite writeBitField_unsigned by lia.
    destruct (Z.ltb_spec v 0); [lia|].
    destruct (Z.ltb_spec (2 ^ w - 1) v); [lia|]. reflexivity.
Qed.

(** X1: a value written to a bitfield is the value read from it.  For a
    bitfield of base type [Int8] or [UInt8] that lies inside its byte, a
    byte inside the buffer and a value in the range of the width,
    [writeBitField] succeeds on any buffer, whatever the byte held before,
    and [readBitField] on the result returns the value, a negative one
    included. *)
Theorem writeBitField_readBitField
    (b : Buffer) (t : string) (w off p v : Z) :
  t = "Int8" \/ t = "UInt8" ->
  1 <= w -> 0 <= p -> p + w <= 8 ->
  0 <= off < byteLength b ->
  bitfieldRange t w v ->
  exists b',
    writeBitField b (mkField (Named t) w off true (Some p)) v = Ok b' /\
    length b' = length b /\
    readBitField b' (mkField (Named t) w off true (Some p)) = Ok v.
Proof.
  intros Ht Hw Hp Hpw Hoff Hv.
  rewrite writeBitField_bitField by (assumption || lia).
  eexists. split; [reflexivity|]. split; [apply length_Buffer_put|].
  rewrite readBitField_rawBits by lia. cbn zeta.
  rewrite Buffer_get_put_same by assumption. cbn [default id].
  set (f := mkField (Named t) w off true (Some p)).
  change w with (size f) at 2 4.
  rewrite rawBits_written by (cbn [size f]; lia).
  cbn [size f]. unfold bitfieldRange in Hv. f_equal.
  destruct Ht as [-> | ->].
  - change (startsWith "Int8" "Int") with true in *. cbv iota in Hv |- *.
    apply asIntN_fits; lia.
  - change (startsWith "UInt8" "Int") with false in *. cbv iota in Hv |- *.
    apply Z.mod_small. lia.
Qed.

Lemma writeBitField_readBitField_witness :
  exists b',
    writeBitField [255; 255] (mkField (Named "Int8") 3 1 true (Some 2)) (-4)
      = Ok b' /\
    length b' = 2%nat /\
    readBitField b' (mkField (Named "Int8") 3 1 true (Some 2)) = Ok (-4).
Proof.
  apply (writeBitField_readBitField [255; 255] "Int8" 3 1 2 (-4)).
  - left. reflexivity.
  - lia.
  - lia.
  - lia.
  - unfold byteLength. simpl. lia.
  - unfold bitfieldRange. simpl. lia.
Defined.

Lemma writeBitField_Ok (b b' : Buffer) (f : SchemaFieldType) (v : Z) :
  writeBitField b f v = Ok b' ->
  exists stored,
    b' = Buffer_put b (offset f)
           (applyBitmask (default 0 (Buffer_get b (offset f))) f stored
                         (default 0 (position f))).
Proof.
  unfold writeBitField.
  destruct (validateBitfieldValue f v); try discriminate.
  cbn [mbind outcome_bind].
  destruct (processValueForBitfield f v) as [stored| |]; try discriminate.
  cbn [mbind outcome_bind]. intros [= <-]. now exists stored.
Qed.

(** X2: [writeBitField] changes nothing but the bits of its field.  When it
    returns, the buffer has kept its length, every other byte is as it
    was, and in the byte of the field every bit outside
    [[position, position + size)] is as it was. *)
Theorem writeBitField_keeps_other_bits
    (b b' : Buffer) (f : SchemaFieldType) (p v : Z) :
  position f = Some p -> 0 <= p -> 0 <= size f -> p + size f <= 8 ->
  writeBitField b f v = Ok b' ->
  length b' = length b /\
  (forall j, j <> offset f -> Buffer_get b' j = Buffer_get b j) /\
  (forall byte, Buffer_get b (offset f) = Some byte ->
     exists byte',
       Buffer_get b' (offset f) = Some byte' /\
       forall i, 0 <= i < 8 -> i < p \/ p + size f <= i ->
                 Z.testbit byte' i = Z.testbit byte i).
Proof.
  intros Hpos Hp Hw Hpw Hwrite.
  apply writeBitField_Ok in Hwrite as [stored ->]. rewrite Hpos. cbn [default id].
  split; [apply length_Buffer_put|]. split.
  - intros j Hj. apply Buffer_get_put_other. congruence.
  - intros byte Hbyte. rewrite Hbyte. cbn [default id].
    assert (Hin : 0 <= offset f < byteLength b).
    { unfold Buffer_get in Hbyte. destruct (Z.ltb_spec (offset f) 0); [discriminate|].
      apply lookup_lt_Some in Hbyte. unfold byteLength. lia. }
    rewrite Buffer_get_put_same by assumption. eexists. split; [reflexivity|].
    intros i Hi Hout. change 256 with (2 ^ 8).
    rewrite Z.mod_pow2_bits_low by lia.
    rewrite testbit_applyBitmask by lia.
    destruct (Z.leb_spec p i); destruct (Z.ltb_spec i (p + size f));
      cbn [andb]; (reflexivity || lia).
Qed.

Lemma writeBitField_keeps_other_bits_witness :
  writeBitField [255; 170] (mkField (Named "UInt8") 3 1 true (Some 2)) 0
    = Ok [255; 162] /\
  length [255; 162] = length [255; 170] /\
  Buffer_get [255; 162] 0 = Buffer_get [255; 170] 0 /\
  Z.testbit 162 7 = Z.testbit 170 7.
Proof.
  assert (Hrun : writeBitField [255; 170] (mkField (Named "UInt8") 3 1 true (Some 2)) 0
                 = Ok [255; 162]) by reflexivity.
  destruct (writeBitField_keeps_other_bits
              [255; 170] [255; 162] (mkField (Named "UInt8") 3 1 true (Some 2)) 2 0
              eq_refl ltac:(lia) ltac:(simpl; lia) ltac:(simpl; lia) Hrun)
    as (Hlen & Hother & Hbits).
  split; [exact Hrun|]. split; [exact Hlen|]. split.
  - apply Hother. simpl. lia.
  - destruct (Hbits 170 eq_refl) as (byte' & Hget & Hsame).
    injection Hget as <-. apply Hsame; simpl; lia.
Defined.

(** X3: a bitfield whose byte lies outside the buffer.  [readBitField]
    reads it as 0 and [writeBitField] stores nothing: with a value in
    range it returns the buffer as it was, without an error. *)
Theorem bitfield_outside_buffer
    (b : Buffer) (t : string) (w off : Z) (pos : option Z) :
  t = "Int8" \/ t = "UInt8" -> 1 <= w <= 30 ->
  off < 0 \/ byteLength b <= off ->
  readBitField b (mkField (Named t) w off true pos) = Ok 0 /\
  (forall v, bitfieldRange t w v ->
             writeBitField b (mkField (Named t) w off true pos) v = Ok b).
Proof.
  intros Ht Hw Hout.
  assert (Hget : Buffer_get b off = None).
  { unfold Buffer_get. destruct (Z.ltb_spec off 0); [reflexivity|].
    apply lookup_ge_None. unfold byteLength in Hout. lia. }
  split.
  - rewrite readBitField_rawBits by lia. cbn zeta. rewrite Hget. cbn [default].
    rewrite rawBits_zero. f_equal.
    destruct (startsWith t "Int"); [|reflexivity].
    unfold asIntN. destruct (Z.leb_spec w 0); [lia|].
    assert (Hpow : 2 ^ w = 2 * 2 ^ (w - 1)).
    { rewrite <- Z.pow_succ_r by lia. f_equal. lia. }
    assert (Hpos : 0 < 2 ^ (w - 1)) by (apply Z.pow_pos_nonneg; lia).
    rewrite Z.mod_small; lia.
  - intros v Hv. rewrite writeBitField_bitField by assumption. f_equal.
    unfold Buffer_put. destruct (Z.ltb_spec off 0); [reflexivity|].
    apply list_insert_ge. unfold byteLength in Hout. lia.
Qed.

Lemma bitfield_outside_buffer_witness :
  readBitField [7] (mkField (Named "Int8") 4 1 true (Some 0)) = Ok 0 /\
  writeBitField [7] (mkField (Named "Int8") 4 1 true (Some 0)) (-3) = Ok [7].
Proof.
  destruct (bitfield_outside_buffer [7] "Int8" 4 1 (Some 0))
    as [Hread Hwrite].
  - left. reflexivity.
  - lia.
  - right. unfold byteLength. simpl. lia.
  - split; [exact Hread|]. apply Hwrite. unfold bitfieldRange. simpl. lia.
Defined.

(** X4: whatever the buffer holds, [readBitField] returns a value in the
    range of the field: within [0, 2^w - 1] for [UInt8] and within
    [-2^(w-1), 2^(w-1) - 1] for [Int8]. *)
Theorem readBitField_in_range
    (b : Buffer) (t : string) (w off : Z) (pos : option Z) :
  t = "Int8" \/ t = "UInt8" -> 1 <= w <= 30 ->
  exists v,
    readBitField b (mkField (Named t) w off true pos) = Ok v /\
    bitfieldRange t w v.
Proof.
  intros Ht Hw. rewrite readBitField_rawBits by lia. cbn zeta.
  eexists. split; [reflexivity|]. unfold bitfieldRange.
  destruct (startsWith t "Int").
  - apply asIntN_range. lia.
  - pose proof (rawBits_range (default 0 (Buffer_get b off)) (default 0 pos) w).
    lia.
Qed.

Lemma readBitField_in_range_witness :
  exists v,
    readBitField [200] (mkField (Named "Int8") 3 0 true (Some 5)) = Ok v /\
    - 4 <= v <= 3.
Proof.
  destruct (readBitField_in_range [200] "Int8" 3 0 (Some 5)) as (v & Hv & Hr).
  - left. reflexivity.
  - lia.
  - exists v. split; [exact Hv|]. unfold bitfieldRange in Hr. simpl in Hr. lia.
Defined.

(** ** Integer fields, method by method *)

Lemma writeField_integer (b : Buffer) (t : string) (m : IntFormat)
    (sz off : Z) (pos : option Z) (n : Z) :
  Buffer_format t = Some m ->
  writeField b (mkField (Named t) sz off false pos)
             (if fmt_big m then VBigInt n else VNumber n)
  = Buffer_writeInt m b n off.
Proof.
  intros Hm. destruct (Buffer_format_big t m Hm) as [Hbig Hns].
  unfold writeField. cbn [type offset size].
  destruct (String.eqb_spec t "string"); [contradiction|].
  rewrite Hbig, Hm. destruct (fmt_big m); reflexivity.
Qed.

Lemma readField_integer (b : Buffer) (t : string) (m : IntFormat)
    (sz off : Z) (pos : option Z) :
  Buffer_format t = Some m ->
  readField b (mkField (Named t) sz off false pos)
  = v ← Buffer_readInt m b off; Ok (if fmt_big m then VBigInt v else VNumber v).
Proof.
  intros Hm. destruct (Buffer_format_big t m Hm) as [_ Hns].
  unfold readField. cbn [type offset size].
  destruct (String.eqb_spec t "string"); [contradiction|].
  now rewrite Hm.
Qed.

(** X5: an integer written by [writeField] is the integer [readField]
    returns.  For each of the fourteen primitive types, a value of the
    kind of the type (a bigint for the 64-bit types, a number otherwise)
    within its bounds and a field inside the buffer, the write succeeds,
    stores the bytes of the value in the byte order of the type, leaves
    every byte outside the field as it was, and the read gives the value
    back. *)
Theorem writeField_readField_integer
    (b : Buffer) (t : string) (m : IntFormat) (sz off : Z) (pos : option Z)
    (n : Z) :
  Buffer_format t = Some m ->
  fits m n ->
  inBounds b off (fmt_bytes m) = true ->
  exists b',
    writeField b (mkField (Named t) sz off false pos)
               (if fmt_big m then VBigInt n else VNumber n) = Ok b' /\
    length b' = length b /\
    slice b' off (Z.of_nat (fmt_bytes m)) = intBytes m n /\
    (forall i, i < off \/ off + Z.of_nat (fmt_bytes m) <= i ->
               Buffer_get b' i = Buffer_get b i) /\
    readField b' (mkField (Named t) sz off false pos)
      = Ok (if fmt_big m then VBigInt n else VNumber n).
Proof.
  intros Hm Hfits Hin.
  rewrite (writeField_integer b t m sz off pos n Hm).
  rewrite Buffer_writeInt_ok by assumption.
  assert (Hin' := Hin). unfold inBounds in Hin'. bool_hyps.
  pose proof (length_intBytes m n) as Hlen.
  assert (Hlen' : length (splice b off (intBytes m n)) = length b).
  { apply length_splice. unfold byteLength in *. lia. }
  assert (Hslice : slice (splice b off (intBytes m n)) off (Z.of_nat (fmt_bytes m))
                   = intBytes m n).
  { rewrite slice_splice_same by lia. rewrite Hlen, Z.sub_diag.
    unfold slice. cbn [Z.to_nat take]. apply app_nil_r. }
  eexists. split; [reflexivity|]. split; [exact Hlen'|].
  split; [exact Hslice|]. split.
  - intros i Hi. apply Buffer_get_splice_apart; lia.
  - rewrite (readField_integer _ t m sz off pos Hm).
    rewrite (Buffer_readInt_ok m _ n off (Buffer_format_bytes t m Hm) Hfits).
    + reflexivity.
    + unfold inBounds, byteLength in *. rewrite Hlen'. bool_goal; lia.
    + exact Hslice.
Qed.

Lemma writeField_readField_integer_witness :
  exists b',
    writeField [9; 9; 9; 9] (mkField (Named "Int16BE") 2 1 false None)
               (VNumber (-2)) = Ok b' /\
    slice b' 1 2 = [255; 254] /\
    Buffer_get b' 0 = Some 9 /\
    readField b' (mkField (Named "Int16BE") 2 1 false None) = Ok (VNumber (-2)).
Proof.
  destruct (writeField_readField_integer
              [9; 9; 9; 9] "Int16BE" (mkFormat 2 true false false) 2 1 None (-2))
    as (b' & Hw & _ & Hs & Hframe & Hr).
  - reflexivity.
  - unfold fits, fmt_min, fmt_max, fmt_bits. simpl. lia.
  - reflexivity.
  - exists b'. split; [exact Hw|]. split; [exact Hs|]. split; [|exact Hr].
    rewrite Hframe by lia. reflexivity.
Defined.

Lemma writeField_wrong_kind (b : Buffer) (t : string) (m : IntFormat)
    (sz off : Z) (pos : option Z) (x : Value) :
  Buffer_format t = Some m ->
  typeof x <> (if fmt_big m then "bigint" else "number") ->
  writeField b (mkField (Named t) sz off false pos) x
  = Throw (TypeError ("Expected a " ++ (if fmt_big m then "BigInt" else "number")
                      ++ " for field " ++ quote ++ t ++ quote
                      ++ ", but received " ++ typeof x)%string).
Proof.
  intros Hm Hx. destruct (Buffer_format_big t m Hm) as [Hbig Hns].
  unfold writeField. cbn [type offset size].
  destruct (String.eqb_spec t "string"); [contradiction|].
  rewrite Hbig. destruct (fmt_big m); cbn [andb negb].
  - destruct (String.eqb_spec (typeof x) "bigint"); [contradiction|]. reflexivity.
  - destruct (String.eqb_spec (typeof x) "number"); [contradiction|]. reflexivity.
Qed.

(** X6: what [writeField] rejects for an integer type.  A value of another
    kind than the type expects raises the [TypeError] that names the type,
    before the buffer is looked at; a value of the right kind outside the
    bounds of the type raises Node's [RangeError], wherever the field lies;
    a value within bounds for a field that does not lie inside the buffer
    raises the [RangeError] of the bounds check. *)
Theorem writeField_integer_errors
    (b : Buffer) (t : string) (m : IntFormat) (sz off : Z) (pos : option Z) :
  Buffer_format t = Some m ->
  (forall x,
      typeof x <> (if fmt_big m then "bigint" else "number") ->
      writeField b (mkField (Named t) sz off false pos) x
      = Throw (TypeError ("Expected a " ++ (if fmt_big m then "BigInt" else "number")
                          ++ " for field " ++ quote ++ t ++ quote
                          ++ ", but received " ++ typeof x)%string)) /\
  (forall n,
      ~ fits m n ->
      writeField b (mkField (Named t) sz off false pos)
                 (if fmt_big m then VBigInt n else VNumber n)
      = Throw ERR_OUT_OF_RANGE) /\
  (forall n,
      fits m n -> inBounds b off (fmt_bytes m) = false ->
      writeField b (mkField (Named t) sz off false pos)
                 (if fmt_big m then VBigInt n else VNumber n)
      = Throw (boundsError b (fmt_bytes m))).
Proof.
  intros Hm. split; [|split].
  - intros x Hx. now apply writeField_wrong_kind.
  - intros n Hn. rewrite (writeField_integer b t m sz off pos n Hm).
    unfold Buffer_writeInt, fits in *.
    destruct (Z.ltb_spec n (fmt_min m)); [reflexivity|].
    destruct (Z.ltb_spec (fmt_max m) n); [reflexivity|]. lia.
  - intros n Hn Hout. rewrite (writeField_integer b t m sz off pos n Hm).
    unfold Buffer_writeInt, fits in *. rewrite Hout.
    destruct (Z.ltb_spec n (fmt_min m)); [lia|].
    destruct (Z.ltb_spec (fmt_max m) n); [lia|]. reflexivity.
Qed.

Lemma writeField_integer_errors_witness :
  writeField [0; 0] (mkField (Named "BigInt64LE") 8 0 false None) (VNumber 1)
    = Throw (TypeError ("Expected a BigInt for field " ++ quote ++ "BigInt64LE"
                        ++ quote ++ ", but received number")%string) /\
  writeField [0; 0] (mkField (Named "UInt8") 1 5 false None) (VNumber 256)
    = Throw ERR_OUT_OF_RANGE /\
  writeField [0; 0] (mkField (Named "UInt16LE") 2 1 false None) (VNumber 7)
    = Throw ERR_OUT_OF_RANGE.
Proof.
  split; [|split].
  - apply (proj1 (writeField_integer_errors
                    [0; 0] "BigInt64LE" (mkFormat 8 true true true) 8 0 None eq_refl)
                 (VNumber 1)).
    discriminate.
  - apply (proj1 (proj2 (writeField_integer_errors
                    [0; 0] "UInt8" (mkFormat 1 false true false) 1 5 None eq_refl))
                 256).
    unfold fits, fmt_min, fmt_max, fmt_bits. simpl. lia.
  - apply (proj2 (proj2 (writeField_integer_errors
                    [0; 0] "UInt16LE" (mkFormat 2 false true false) 2 1 None eq_refl))
                 7).
    + unfold fits, fmt_min, fmt_max, fmt_bits. simpl. lia.
    + reflexivity.
Defined.

(** ** Text fields, method by method *)

Lemma utf8_encode_app (s1 s2 : list Z) :
  utf8_encode (s1 ++ s2) = utf8_encode s1 ++ utf8_encode s2.
Proof. unfold utf8_encode. apply flat_map_app. Qed.

Lemma utf8_encode_cons (c : Z) (s : list Z) :
  utf8_encode (c :: s) = utf8_encode1 c ++ utf8_encode s.
Proof. reflexivity. Qed.

(** [utf8Write] stores the longest prefix of whole characters that fits. *)
Lemma utf8_fit_take (s : list Z) :
  forall room, 0 <= room ->
    exists k : nat,
      utf8_fit s room = utf8_encode (take k s) /\
      Z.of_nat (length (utf8_encode (take k s))) <= room /\
      ((k < length s)%nat ->
       room < Z.of_nat (length (utf8_encode (take (S k) s)))) /\
      (Z.of_nat (length (utf8_encode s)) <= room -> take k s = s).
Proof.
  induction s as [|c s IH]; intros room Hroom.
  - exists 0%nat. simpl. repeat split; (lia || reflexivity || idtac).
  - cbn [utf8_fit].
    destruct (Z.leb_spec (Z.of_nat (length (utf8_encode1 c))) room) as [Hfit | Hno].
    + destruct (IH (room - Z.of_nat (length (utf8_encode1 c))))
        as (k & Hk & Hle & Hmax & Hall); [lia|].
      exists (S k). cbn [take]. rewrite !utf8_encode_cons, !length_app.
      split; [now rewrite Hk|]. split; [lia|]. split.
      * intros Hlt. cbn [length] in Hlt. specialize (Hmax ltac:(lia)). lia.
      * intros Hs. f_equal. apply Hall. lia.
    + exists 0%nat. cbn [take]. split; [reflexivity|]. split; [simpl; lia|]. split.
      * intros _. rewrite utf8_encode_cons. cbn [take utf8_encode flat_map].
        rewrite app_nil_r. exact Hno.
      * rewrite utf8_encode_cons, length_app. lia.
Qed.

Lemma forallb_take {A : Type} (p : A -> bool) (k : nat) (l : list A) :
  forallb p l = true -> forallb p (take k l) = true.
Proof.
  revert k. induction l as [|a l IH]; intros [|k] H; try reflexivity.
  cbn [forallb take] in *. apply andb_true_iff in H as [Ha Hl].
  now rewrite Ha, IH.
Qed.

(** [trimNul] removes a run of NUL characters at the end and nothing
    else. *)
Lemma trimNul_spec (s : list Z) :
  endsWithNul (trimNul s) = false /\
  exists k : nat, s = trimNul s ++ replicate k 0.
Proof.
  induction s as [|c s [IHend [k IHk]]].
  - split; [reflexivity|]. now exists 0%nat.
  - rewrite trimNul_cons. destruct (trimNul s) as [|d r] eqn:E.
    + destruct (Z.eqb_spec c 0) as [-> | Hc].
      * split; [reflexivity|]. exists (S k). rewrite IHk. reflexivity.
      * split.
        { unfold endsWithNul. simpl. now apply Z.eqb_neq. }
        exists k. rewrite IHk. reflexivity.
    + split.
      * unfold endsWithNul in *. cbn [last] in *. exact IHend.
      * exists k. rewrite IHk at 1. reflexivity.
Qed.

Lemma readField_text (b : Buffer) (sz off : Z) (pos : option Z) :
  readField b (mkField (Named "string") sz off false pos)
  = Ok (VString (trimNul (Buffer_toString b off (off + sz)))).
Proof. reflexivity. Qed.

(** X7: a text written to a zeroed field and read back.  [writeField]
    stores the UTF-8 bytes of the longest prefix of whole characters that
    fits the field, never part of a character, and touches no byte outside
    the field; [readField] returns that prefix, less the NUL characters it
    ends in.  A text that fits is stored whole. *)
Theorem writeField_readField_text
    (b : Buffer) (sz off : Z) (pos : option Z) (s : list Z) :
  0 <= off -> 0 <= sz -> off + sz <= byteLength b ->
  forallb scalar s = true ->
  slice b off sz = replicate (Z.to_nat sz) 0 ->
  exists (b' : Buffer) (k : nat),
    writeField b (mkField (Named "string") sz off false pos) (VString s) = Ok b' /\
    length b' = length b /\
    (forall i, i < off \/ off + sz <= i -> Buffer_get b' i = Buffer_get b i) /\
    slice b' off sz
      = utf8_encode (take k s)
        ++ replicate (Z.to_nat sz - length (utf8_encode (take k s)))%nat 0 /\
    ((k < length s)%nat -> sz < Z.of_nat (length (utf8_encode (take (S k) s)))) /\
    (Z.of_nat (length (utf8_encode s)) <= sz -> take k s = s) /\
    readField b' (mkField (Named "string") sz off false pos)
      = Ok (VString (trimNul (take k s))).
Proof.
  intros Hoff Hsz Hend Hscalar Hzero.
  destruct (utf8_fit_take s sz Hsz) as (k & Hk & Hle & Hmax & Hall).
  unfold writeField. cbn [type offset size String.eqb Ascii.eqb Bool.eqb].
  rewrite Buffer_write_ok by assumption. rewrite Hk.
  set (bytes := utf8_encode (take k s)) in *.
  assert (Hlen : length (splice b off bytes) = length b).
  { apply length_splice. unfold byteLength in *. lia. }
  assert (Hslice : slice (splice b off bytes) off sz
                   = bytes ++ replicate (Z.to_nat sz - length bytes)%nat 0).
  { rewrite slice_splice_same by lia. f_equal.
    rewrite (slice_tail_zeros b off sz (Z.of_nat (length bytes))) by (assumption || lia).
    now rewrite Nat2Z.id. }
  exists (splice b off bytes), k. split; [reflexivity|]. split; [exact Hlen|]. split.
  { intros i Hi. apply Buffer_get_splice_apart; lia. }
  split; [exact Hslice|]. split; [exact Hmax|]. split; [exact Hall|].
  rewrite readField_text. rewrite Buffer_toString_slice.
  - rewrite Hslice. subst bytes.
    rewrite utf8_decode_encode by (now apply forallb_take).
    now rewrite trimNul_padding.
  - assumption.
  - assumption.
  - unfold byteLength in *. rewrite Hlen. exact Hend.
Qed.

Lemma writeField_readField_text_witness :
  exists (b' : Buffer) (k : nat),
    writeField [0; 0; 0] (mkField (Named "string") 3 0 false None)
               (VString [104; 233; 8364]) = Ok b' /\
    slice b' 0 3 = utf8_encode (take k [104; 233; 8364])
                   ++ replicate (3 - length (utf8_encode (take k [104; 233; 8364]%Z)))%nat 0 /\
    readField b' (mkField (Named "string") 3 0 false None)
      = Ok (VString (trimNul (take k [104; 233; 8364]))).
Proof.
  destruct (writeField_readField_text [0; 0; 0] 3 0 None [104; 233; 8364])
    as (b' & k & Hw & _ & _ & Hs & _ & _ & Hr).
  - lia.
  - lia.
  - unfold byteLength. simpl. lia.
  - reflexivity.
  - reflexivity.
  - exists b', k. split; [exact Hw|]. split; [exact Hs | exact Hr].
Defined.

(** X8: [readField] on a text field never fails, whatever the buffer and
    wherever the field lies, and the text it returns is the decoded text
    without the NUL characters at its end: it does not end in NUL, and the
    NUL characters inside it are kept. *)
Theorem readField_text_trims_trailing_NUL
    (b : Buffer) (sz off : Z) (pos : option Z) :
  exists (s : list Z) (k : nat),
    readField b (mkField (Named "string") sz off false pos) = Ok (VString s) /\
    endsWithNul s = false /\
    Buffer_toString b off (off + sz) = s ++ replicate k 0.
Proof.
  rewrite readField_text.
  destruct (trimNul_spec (Buffer_toString b off (off + sz))) as [Hend [k Hk]].
  exists (trimNul (Buffer_toString b off (off + sz))), k.
  split; [reflexivity|]. split; [exact Hend | exact Hk].
Qed.

(** ** Where the constructor places the fields *)

Lemma parseSchema_loop_app (xs ys : StructSchemaInterface) :
  forall (acc : Accumulator) (sch : SchemaInterface),
    parseSchema_loop (xs ++ ys) acc sch
    = '(acc', sch') ← parseSchema_loop xs acc sch; parseSchema_loop ys acc' sch'.
Proof.
  induction xs as [|[name entry] xs IH]; intros acc sch; [reflexivity|].
  cbn [app parseSchema_loop].
  destruct (parseField entry) as [p| |]; try reflexivity.
  cbn [mbind outcome_bind].
  destruct (negb (parsed_isBits p)).
  - destruct (store sch name _) as [sch1| |]; try reflexivity.
    cbn [mbind outcome_bind]. apply IH.
  - destruct (processBitfield name acc p sch) as [[acc1 sch1]| |]; try reflexivity.
    cbn [mbind outcome_bind]. apply IH.
Qed.

Lemma packed_app (added1 added2 : SchemaInterface) :
  forall e, packed e added1 -> packed (endOf e added1) added2 ->
            packed e (added1 ++ added2).
Proof.
  induction added1 as [|[n f] added1 IH]; intros e H1 H2; [exact H2|].
  cbn [app packed endOf] in *. destruct H1 as (Ho & Hp & H1). auto.
Qed.

Lemma endOf_app (added1 added2 : SchemaInterface) :
  forall e, endOf e (added1 ++ added2) = endOf (endOf e added1) added2.
Proof.
  induction added1 as [|[n f] added1 IH]; intros e; [reflexivity|].
  cbn [app endOf]. apply IH.
Qed.

Lemma parsedOk_bits (p : ParseFieldInterface) :
  parsedOk p = true -> parsed_isBits p = true -> 1 <= parsed_size p <= 8.
Proof.
  intros Hok Hb. unfold parsedOk in Hok. rewrite Hb in Hok.
  destruct (parsed_type p); [|discriminate]. bool_hyps. lia.
Qed.

(** One pass of the constructor over well-formed entries: it appends one
    field per entry to [this.schema], each placed after the one before, and
    the accumulator holds the address at which the last one ends. *)
Lemma parseSchema_loop_run (fields : StructSchemaInterface) :
  forall (acc : Accumulator) (sch : SchemaInterface),
    distinct (map fst sch ++ map fst fields) = true ->
    mem_string "__proto__" (map fst fields) = false ->
    forallb (fun e => wellFormedEntry (snd e)) fields = true ->
    0 <= bits acc <= 8 ->
    exists acc' added,
      parseSchema_loop fields acc sch = Ok (acc', sch ++ added) /\
      Forall2 recorded fields added /\
      packed (8 * bytes acc + bits acc) added /\
      8 * bytes acc' + bits acc' = endOf (8 * bytes acc + bits acc) added /\
      0 <= bits acc' <= 8 /\
      8 * bytes acc + bits acc <= 8 * bytes acc' + bits acc'.
Proof.
  induction fields as [|[name entry] rest IH]; intros acc sch Hd Hnp Hwf Hbits.
  - exists acc, []. rewrite app_nil_r. simpl.
    repeat split; (constructor || lia || reflexivity).
  - cbn [map fst] in Hd, Hnp. apply distinct_middle in Hd as [Hfresh Hd].
    apply no_proto_cons in Hnp as [Hname Hnp].
    cbn [forallb snd] in Hwf. apply andb_true_iff in Hwf as [Hentry Hwf].
    destruct (wellFormedEntry_parsed entry Hentry) as (p & Hp & Hok).
    pose proof (parsedOk_size p Hok) as Hsz.
    cbn [parseSchema_loop]. rewrite Hp. cbn [mbind outcome_bind].
    destruct (parsed_isBits p) eqn:Hb; cbn [negb].
    + (* a bitfield *)
      pose proof (parsedOk_bits p Hok Hb) as Hw.
      unfold processBitfield. rewrite (store_fresh _ _ _ Hname Hfresh).
      cbn [mbind outcome_bind].
      set (acc1 := if 8 <? bits acc + parsed_size p
                   then mkAcc 0 (bytes acc + 1) else acc).
      set (f := mkField (parsed_type p) (parsed_size p) (bytes acc1) true
                        (Some (bits acc1))).
      assert (Hplace : placeAfter (8 * bytes acc + bits acc) f
                       = 8 * bytes acc1 + bits acc1 /\
                       0 <= bits acc1 /\ bits acc1 + parsed_size p <= 8).
      { unfold placeAfter, nextByte. subst f acc1. cbn [isBits size andb].
        destruct (Z.ltb_spec 8 (bits acc + parsed_size p));
          destruct (Z.leb_spec ((8 * bytes acc + bits acc) mod 8 + parsed_size p) 8);
          cbn [bits bytes]; Z.div_mod_to_equations; lia. }
      destruct Hplace as (Hplace & Hb1 & Hfit).
      destruct (IH (mkAcc (bits acc1 + parsed_size p) (bytes acc1))
                   (sch ++ [(name, f)]))
        as (acc' & added & Hrun & Hrec & Hpack & Hend & Hbits' & Hmono);
        [ rewrite map_app; exact Hd | exact Hnp | exact Hwf | cbn [bits]; lia | ].
      cbn [bits bytes] in *.
      assert (HendBit : endBit f = 8 * bytes acc1 + (bits acc1 + parsed_size p)).
      { subst f. rewrite endBit_bitField. lia. }
      exists acc', ((name, f) :: added). rewrite Hrun, <- app_assoc.
      split; [reflexivity|]. split.
      { constructor; [|exact Hrec]. split; [reflexivity|].
        exists p. cbn [snd]. subst f. cbn [type size isBits]. auto. }
      cbn [packed endOf]. rewrite Hplace, HendBit.
      split; [|split; [exact Hend|]].
      * split; [|split; [|exact Hpack]].
        -- subst f. cbn [offset]. Z.div_mod_to_equations. lia.
        -- subst f. cbn [position isBits]. f_equal. Z.div_mod_to_equations. lia.
      * split; [exact Hbits'|].
        subst acc1. destruct (Z.ltb_spec 8 (bits acc + parsed_size p));
          cbn [bits bytes] in *; lia.
    + (* a byte field *)
      rewrite (store_fresh _ _ _ Hname Hfresh). cbn [mbind outcome_bind].
      set (acc1 := if 0 <? bits acc then mkAcc 0 (bytes acc + 1) else acc).
      set (f := mkField (parsed_type p) (parsed_size p) (bytes acc1) false None).
      assert (Hplace : placeAfter (8 * bytes acc + bits acc) f = 8 * bytes acc1).
      { unfold placeAfter, nextByte. subst f acc1. cbn [isBits andb].
        destruct (Z.ltb_spec 0 (bits acc)); cbn [bytes];
          Z.div_mod_to_equations; lia. }
      destruct (IH (mkAcc 0 (bytes acc1 + parsed_size p)) (sch ++ [(name, f)]))
        as (acc' & added & Hrun & Hrec & Hpack & Hend & Hbits' & Hmono);
        [ rewrite map_app; exact Hd | exact Hnp | exact Hwf | cbn [bits]; lia | ].
      cbn [bits bytes] in *.
      assert (HendBit : endBit f = 8 * (bytes acc1 + parsed_size p) + 0).
      { subst f. rewrite endBit_byteField. lia. }
      exists acc', ((name, f) :: added). rewrite Hrun, <- app_assoc.
      split; [reflexivity|]. split.
      { constructor; [|exact Hrec]. split; [reflexivity|].
        exists p. cbn [snd]. subst f. cbn [type size isBits]. auto. }
      cbn [packed endOf]. rewrite Hplace, HendBit.
      split; [|split; [exact Hend|]].
      * split; [|split; [|exact Hpack]].
        -- subst f. cbn [offset]. Z.div_mod_to_equations. lia.
        -- reflexivity.
      * split; [exact Hbits'|].
        assert (8 * bytes acc + bits acc <= 8 * bytes acc1).
        { subst acc1. destruct (Z.ltb_spec 0 (bits acc)); cbn [bytes]; lia. }
        lia.
Qed.

Lemma wellFormedSchema_parts (schema : StructSchemaInterface) :
  wellFormedSchema schema = true ->
  distinct (map fst schema) = true /\
  mem_string "__proto__" (map fst schema) = false /\
  forallb (fun e => wellFormedEntry (snd e)) schema = true.
Proof.
  unfold wellFormedSchema. intros H. bool_hyps. auto.
Qed.

Lemma new_Struct_run (schema : StructSchemaInterface) :
  wellFormedSchema schema = true ->
  exists acc fields,
    parseSchema_loop schema (mkAcc 0 0) [] = Ok (acc, fields) /\
    new_Struct schema
      = Ok (mkStruct (if 0 <? bits acc then bytes acc + 1 else bytes acc) fields) /\
    Forall2 recorded schema fields /\
    packed 0 fields /\
    8 * bytes acc + bits acc = endOf 0 fields /\
    0 <= bits acc <= 8.
Proof.
  intros Hwf. apply wellFormedSchema_parts in Hwf as (Hd & Hnp & Hwf).
  destruct (parseSchema_loop_run schema (mkAcc 0 0) [] Hd Hnp Hwf)
    as (acc & fields & Hrun & Hrec & Hpack & Hend & Hbits & _);
    [cbn [bits]; lia|].
  cbn [app bits bytes] in *. exists acc, fields.
  split; [exact Hrun|]. split.
  - unfold new_Struct, parseSchema. rewrite Hrun. reflexivity.
  - auto.
Qed.

(** X9: the constructor accepts every well-formed schema and records one
    field per entry, in the order of the schema and under the name of the
    entry, with the type, the size and the kind (bitfield or not) that
    [parseField] returns for the entry. *)
Theorem constructor_records_fields (schema : StructSchemaInterface) :
  wellFormedSchema schema = true ->
  exists this,
    new_Struct schema = Ok this /\
    Forall2 recorded schema (Struct_schema this).
Proof.
  intros Hwf.
  destruct (new_Struct_run schema Hwf) as (acc & fields & _ & Hnew & Hrec & _).
  eexists. split; [exact Hnew | exact Hrec].
Qed.

Lemma constructor_records_fields_witness :
  exists this,
    new_Struct example_schema = Ok this /\
    Forall2 recorded example_schema (Struct_schema this).
Proof.
  apply (constructor_records_fields example_schema). reflexivity.
Defined.





Lemma distinct_app_l (l1 l2 : list string) :
  distinct (l1 ++ l2) = true -> distinct l1 = true.
Proof.
  induction l1 as [|n l1 IH]; [reflexivity|].
  cbn [app distinct]. intros H. apply andb_true_iff in H as [Hn Hd].
  apply negb_true_iff in Hn. rewrite mem_string_app in Hn.
  apply orb_false_iff in Hn as [Hn _]. rewrite Hn. cbn [negb andb]. now apply IH.
Qed.

Lemma recorded_names (schema : StructSchemaInterface) (fields : SchemaInterface) :
  Forall2 recorded schema fields -> map fst fields = map fst schema.
Proof.
  induction 1 as [|e f schema fields [Hn _] _ IH]; [reflexivity|].
  cbn [map]. now rewrite Hn, IH.
Qed.

(** X12: fields appended to a schema do not move the fields before them.
    An object enumerates its integer-like names first, whenever they were
    added, and the others in the order they were added: for entries added
    under names that are not made of digits, the schema is enumerated as
    [schema ++ more].  The layout of the schema so extended starts with the
    fields of the layout of the schema as it was, at the same offsets and
    bit positions, and is at least as large. *)
Theorem appended_fields_keep_layout
    (schema more : StructSchemaInterface) (this extended : Struct) :
  forallb (fun e => negb (integerLike e.1)) more = true ->
  wellFormedSchema (schema ++ more) = true ->
  new_Struct schema = Ok this ->
  new_Struct (schema ++ more) = Ok extended ->
  take (length schema) (Struct_schema extended) = Struct_schema this /\
  length (Struct_schema this) = length schema /\
  Struct_size this <= Struct_size extended.
Proof.
  intros _ Hwf Hnew Hext.
  apply wellFormedSchema_parts in Hwf as (Hd & Hnp & Hwf).
  rewrite map_app in Hd, Hnp. rewrite mem_string_app in Hnp.
  apply orb_false_iff in Hnp as [Hnp1 Hnp2].
  rewrite forallb_app in Hwf. apply andb_true_iff in Hwf as [Hwf1 Hwf2].
  destruct (parseSchema_loop_run schema (mkAcc 0 0) []
              (distinct_app_l _ _ Hd) Hnp1 Hwf1)
    as (acc1 & added1 & Hrun1 & Hrec1 & _ & _ & Hbits1 & _); [cbn [bits]; lia|].
  cbn [app] in Hrun1.
  destruct (parseSchema_loop_run more acc1 added1)
    as (acc2 & added2 & Hrun2 & _ & _ & _ & Hbits2 & Hmono);
    [ rewrite (recorded_names _ _ Hrec1); exact Hd | exact Hnp2 | exact Hwf2
    | exact Hbits1 | ].
  unfold new_Struct, parseSchema in Hnew, Hext.
  rewrite parseSchema_loop_app in Hext. rewrite Hrun1 in Hnew, Hext.
  cbn [mbind outcome_bind] in Hnew, Hext. rewrite Hrun2 in Hext.
  cbn [mbind outcome_bind] in Hext.
  injection Hnew as <-. injection Hext as <-.
  cbn [Struct_schema Struct_size].
  pose proof (Forall2_length _ _ _ Hrec1) as Hlen.
  split; [|split].
  - rewrite Hlen. apply take_app_length.
  - now rewrite Hlen.
  - destruct (Z.ltb_spec 0 (bits acc1)); destruct (Z.ltb_spec 0 (bits acc2)); lia.
Qed.

Lemma appended_fields_keep_layout_witness :
  exists extended,
    new_Struct (example_schema ++ [("d", Token "Int8:3"); ("e", Text 5)])
      = Ok extended /\
    take 3 (Struct_schema extended) = Struct_schema example_struct /\
    Struct_size example_struct <= Struct_size extended.
Proof.
  eexists. split; [reflexivity|].
  destruct (appended_fields_keep_layout
              example_schema [("d", Token "Int8:3"); ("e", Text 5)]
              example_struct _ eq_refl eq_refl eq_refl eq_refl)
    as (Htake & _ & Hsize).
  split; [exact Htake | exact Hsize].
Defined.

(** ** What [toBuffer] reads of a record *)

Lemma has_own (props1 props2 : list (string * Value)) (name : string) :
  own props1 name = own props2 name ->
  has props1 name = has props2 name /\ get props1 name = get props2 name.
Proof. unfold has, get. now intros ->. Qed.

Lemma toBuffer_loop_own (nested : Struct -> Value -> outcome Buffer)
    (props1 props2 : list (string * Value)) (fields : SchemaInterface) :
  (forall name, mem_string name (map fst fields) = true ->
                own props1 name = own props2 name) ->
  forall b, toBuffer_loop nested props1 fields b
            = toBuffer_loop nested props2 fields b.
Proof.
  induction fields as [|[name f] rest IH]; intros Hsame b; [reflexivity|].
  assert (Hhead : own props1 name = own props2 name).
  { apply Hsame. unfold mem_string. cbn [map fst existsb].
    now rewrite String.eqb_refl. }
  assert (Hrest : forall n, mem_string n (map fst rest) = true ->
                            own props1 n = own props2 n).
  { intros n Hn. apply Hsame. unfold mem_string in *. cbn [map fst existsb].
    rewrite Hn. apply orb_true_r. }
  destruct (has_own _ _ _ Hhead) as [Hhas Hget].
  cbn [toBuffer_loop]. rewrite Hhas. destruct (has props2 name); cbn [negb].
  - assert (Hfield : toBuffer_field nested props1 name f b
                     = toBuffer_field nested props2 name f b).
    { unfold toBuffer_field. now rewrite Hget. }
    rewrite Hfield. destruct (toBuffer_field nested props2 name f b); try reflexivity.
    cbn [mbind outcome_bind]. now apply IH.
  - now apply IH.
Qed.

(** X13: [toBuffer] reads of a record the properties its schema declares
    and nothing else.  Two records that hold the same value under every
    declared name are encoded alike, whatever else they hold and in
    whatever order they hold it. *)
Theorem toBuffer_reads_declared_fields_only
    (this : Struct) (props1 props2 : list (string * Value)) :
  (forall name, mem_string name (map fst (Struct_schema this)) = true ->
                own props1 name = own props2 name) ->
  toBuffer this (VObject props1) = toBuffer this (VObject props2).
Proof.
  intros Hsame. destruct this as [sz sch]. cbn [toBuffer Struct_schema] in *.
  destruct (Buffer_alloc sz) as [b| |]; try reflexivity.
  cbn [mbind outcome_bind truthy typeof properties negb orb String.eqb].
  change (String.eqb "object" "object") with true. cbn [negb orb].
  now apply toBuffer_loop_own.
Qed.

Lemma toBuffer_reads_declared_fields_only_witness :
  toBuffer example_struct
    (VObject [("zzz", VNull); ("c", VNumber 300); ("b", VNumber 5); ("a", VNumber 10)])
  = toBuffer example_struct example_record.
Proof.
  apply (toBuffer_reads_declared_fields_only example_struct).
  intros name Hname. unfold mem_string in Hname. cbn in Hname.
  destruct (String.eqb_spec name "a") as [Ha | _]; [subst name; reflexivity|].
  destruct (String.eqb_spec name "b") as [Hb | _]; [subst name; reflexivity|].
  destruct (String.eqb_spec name "c") as [Hc | _]; [subst name; reflexivity|].
  discriminate Hname.
Defined.

(** ** What [toObject] reads of a buffer *)

Lemma slice_app_l (b extra : Buffer) (o n : Z) :
  0 <= o -> 0 <= n -> o + n <= byteLength b ->
  slice (b ++ extra) o n = slice b o n.
Proof.
  intros Ho Hn Hb. unfold slice, byteLength in *.
  rewrite drop_app_le by lia. apply take_app_le. rewrite length_drop. lia.
Qed.

Lemma Buffer_get_app_l (b extra : Buffer) (i : Z) :
  i < byteLength b -> Buffer_get (b ++ extra) i = Buffer_get b i.
Proof.
  intros Hi. unfold Buffer_get, byteLength in *.
  destruct (Z.ltb_spec i 0); [reflexivity|]. apply lookup_app_l. lia.
Qed.

Lemma byteLength_app (b extra : Buffer) :
  byteLength (b ++ extra) = byteLength b + byteLength extra.
Proof. unfold byteLength. rewrite length_app. lia. Qed.

Lemma toObject_field_app (b extra : Buffer) (f : SchemaFieldType) :
  fieldOk layoutOk f = true -> endBit f <= 8 * byteLength b ->
  toObject_field toObject (b ++ extra) f = toObject_field toObject b f.
Proof.
  intros Hf Hend. destruct (fieldOk_extent _ f Hf) as (Hoff & Hsz & _).
  assert (Hf' := Hf). unfold fieldOk in Hf'.
  pose proof (byteLength_app b extra) as Happ.
  assert (Hextra : 0 <= byteLength extra) by (unfold byteLength; lia).
  destruct f as [[t|nested] sz off fb pos];
    cbn [type size offset isBits position] in *.
  - destruct fb.
    + destruct (fieldOk_bitField _ _ Hf eq_refl)
        as (_ & p & _ & _ & Hp & ? & ? & ? & _).
      cbn [size position] in *. subst pos.
      unfold endBit, firstBit in Hend. cbn [isBits offset position size default id] in Hend.
      unfold toObject_field, readBitField. cbn [offset position size].
      rewrite Buffer_get_app_l by lia. reflexivity.
    + unfold endBit in Hend. cbn [isBits offset size] in Hend.
      unfold toObject_field, readField. cbn [type offset size].
      destruct (String.eqb t "string").
      * rewrite !Buffer_toString_slice by lia. now rewrite slice_app_l by lia.
      * destruct (Buffer_format t) as [m|]; [|reflexivity]. bool_hyps.
        unfold Buffer_readInt, inBounds. rewrite Happ.
        destruct (Z.leb_spec 0 off); [|lia].
        destruct (Z.leb_spec (off + Z.of_nat (fmt_bytes m)) (byteLength b)); [|lia].
        destruct (Z.leb_spec (off + Z.of_nat (fmt_bytes m))
                             (byteLength b + byteLength extra)); [|lia].
        cbn [andb negb]. now rewrite slice_app_l by lia.
  - unfold endBit in Hend. simpl in Hf'. bool_hyps. subst fb.
    cbn [isBits offset size] in Hend.
    unfold toObject_field.
    rewrite !Buffer_subarray_slice by lia. now rewrite slice_app_l by lia.
Qed.

Lemma toObject_loop_ext (nested : Struct -> Buffer -> outcome Value)
    (b1 b2 : Buffer) (fields : SchemaInterface) :
  (forall i name f, fields !! i = Some (name, f) ->
                    toObject_field nested b1 f = toObject_field nested b2 f) ->
  forall result, toObject_loop nested b1 fields result
                 = toObject_loop nested b2 fields result.
Proof.
  induction fields as [|[name f] rest IH]; intros Hsame result; [reflexivity|].
  cbn [toObject_loop]. rewrite (Hsame 0%nat name f eq_refl).
  destruct (toObject_field nested b2 f) as [v| |]; try reflexivity.
  cbn [mbind outcome_bind].
  destruct (store result name v) as [result'| |]; try reflexivity.
  cbn [mbind outcome_bind]. apply IH.
  intros i n g Hi. apply (Hsame (S i) n g Hi).
Qed.

(** X14: [toObject] reads the first [size] bytes of the buffer and no
    more: bytes that follow the layout do not change the record it
    returns. *)
Theorem toObject_ignores_trailing_bytes
    (schema : StructSchemaInterface) (this : Struct) (b extra : Buffer) :
  wellFormedSchema schema = true ->
  new_Struct schema = Ok this ->
  Struct_size this <= byteLength b ->
  toObject this (b ++ extra) = toObject this b.
Proof.
  intros Hwf Hnew Hlen.
  destruct (new_Struct_ok schema Hwf) as (this' & Hnew' & Hok & _).
  rewrite Hnew in Hnew'. injection Hnew' as <-.
  destruct this as [sz sch]. cbn [layoutOk toObject Struct_size] in *.
  bool_hyps. destruct (chain layoutOk 0 sch) as [e|] eqn:Hc; [|discriminate].
  bool_hyps. destruct (chain_sorted _ _ _ _ Hc) as (_ & Hall & _).
  apply toObject_loop_ext. intros i name f Hi.
  destruct (Hall i name f Hi) as (Hf & _ & Hend).
  apply toObject_field_app; [exact Hf | lia].
Qed.

Lemma toObject_ignores_trailing_bytes_witness :
  toObject example_struct ([90; 44; 1] ++ [7; 7]) = toObject example_struct [90; 44; 1].
Proof.
  apply (toObject_ignores_trailing_bytes example_schema example_struct [90; 44; 1] [7; 7]).
  - reflexivity.
  - reflexivity.
  - unfold byteLength. simpl. lia.
Defined.

(** ** A field named like a member of [Object.prototype] *)

Lemma toBuffer_loop_skip (nested : Struct -> Value -> outcome Buffer)
    (props : list (string * Value)) (before rest : SchemaInterface) (b : Buffer) :
  (forall n f, In (n, f) before -> has props n = false) ->
  toBuffer_loop nested props (before ++ rest) b
  = toBuffer_loop nested props rest b.
Proof.
  induction before as [|[n f] before IH]; intros Habsent; [reflexivity|].
  cbn [app toBuffer_loop]. rewrite (Habsent n f (or_introl eq_refl)). cbn [negb].
  apply IH. intros n' f' Hin. apply (Habsent n' f'). now right.
Qed.

(** X15: a field named like a member every object inherits (such as
    [constructor] or [toString]) is never missing.  When the record has no
    such property of its own, [fieldName in data] still holds and the
    inherited function is taken for the value: for an integer field
    [toBuffer] throws the [TypeError] of [writeField] instead of leaving
    the field zero. *)
Theorem inherited_name_counts_as_present
    (sz : Z) (before after : SchemaInterface) (name t : string) (m : IntFormat)
    (fsz off : Z) (pos : option Z) (props : list (string * Value)) :
  0 <= sz ->
  (forall n f, In (n, f) before -> has props n = false) ->
  mem_string name Object_prototype_methods = true ->
  own props name = None ->
  Buffer_format t = Some m ->
  toBuffer (mkStruct sz (before ++ (name, mkField (Named t) fsz off false pos) :: after))
           (VObject props)
  = Throw (TypeError ("Expected a " ++ (if fmt_big m then "BigInt" else "number")
                      ++ " for field " ++ quote ++ t ++ quote
                      ++ ", but received function")%string).
Proof.
  intros Hsz Habsent Hname Hown Hm. cbn [toBuffer].
  rewrite Buffer_alloc_ok by assumption.
  cbn [mbind outcome_bind truthy typeof properties negb orb].
  change (String.eqb "object" "object") with true. cbn [negb orb].
  rewrite toBuffer_loop_skip by assumption. cbn [toBuffer_loop].
  assert (Hhas : has props name = true).
  { unfold has, Object_prototype_has. now rewrite Hown, Hname. }
  assert (Hget : get props name = VFunction).
  { unfold get, Object_prototype_get. now rewrite Hown, Hname. }
  rewrite Hhas. cbn [negb]. unfold toBuffer_field. rewrite Hget.
  rewrite (writeField_wrong_kind _ t m fsz off pos VFunction Hm).
  - reflexivity.
  - cbn [typeof]. destruct (fmt_big m); discriminate.
Qed.

Lemma inherited_name_counts_as_present_witness :
  new_Struct [("constructor", Token "UInt8")]
    = Ok (mkStruct 1 [("constructor", mkField (Named "UInt8") 1 0 false None)]) /\
  toBuffer (mkStruct 1 [("constructor", mkField (Named "UInt8") 1 0 false None)])
           (VObject [])
    = Throw (TypeError ("Expected a number for field " ++ quote ++ "UInt8" ++ quote
                        ++ ", but received function")%string).
Proof.
  split; [reflexivity|].
  apply (inherited_name_counts_as_present
           1 [] [] "constructor" "UInt8" (mkFormat 1 false true false) 1 0 None []).
  - lia.
  - intros n f [].
  - reflexivity.
  - reflexivity.
  - reflexivity.
Defined.

(** ** What [toBuffer] stores in each field *)

(** X16: what the buffer of [toBuffer] holds in each field the record
    populates.  An integer field holds the bytes of its value in the byte
    order of its type; a text field the UTF-8 bytes of its text, followed
    by zeros up to its size; a bitfield holds, in its bits, the low [size]
    bits of its value (the two's complement of a negative one); a nested
    field holds the buffer the nested layout encodes its record to. *)
Theorem toBuffer_stores_each_field
    (schema : StructSchemaInterface) (this : Struct) (data : Value) (b : Buffer)
    (i : nat) (name : string) (f : SchemaFieldType) (x : Value) :
  wellFormedSchema schema = true ->
  new_Struct schema = Ok this ->
  conforms false this data ->
  toBuffer this data = Ok b ->
  Struct_schema this !! i = Some (name, f) ->
  own (properties data) name = Some x ->
  match type f with
  | Layout nested => toBuffer nested x = Ok (slice b (offset f) (size f))
  | Named t =>
      if isBits f then
        exists n p,
          x = VNumber n /\ position f = Some p /\
          rawBits (default 0 (Buffer_get b (offset f))) p (size f)
            = n mod 2 ^ size f
      else if String.eqb t "string" then
        exists s,
          x = VString s /\
          slice b (offset f) (size f)
            = utf8_encode s
              ++ replicate (Z.to_nat (size f) - length (utf8_encode s))%nat 0
      else
        exists m n,
          Buffer_format t = Some m /\
          x = (if fmt_big m then VBigInt n else VNumber n) /\
          slice b (offset f) (size f) = intBytes m n
  end.
Proof.
  intros Hwf Hnew Hconf Hb Hi Hown.
  destruct (new_Struct_ok schema Hwf) as (this' & Hnew' & Hok & _).
  rewrite Hnew in Hnew'. injection Hnew' as <-.
  destruct (toBuffer_toObject false this data Hok Hconf) as (b0 & Hb0 & _ & Hres & _).
  rewrite Hb in Hb0. injection Hb0 as <-.
  specialize (Hres i name f Hi). unfold written in Hres. rewrite Hown in Hres.
  destruct (conforms_object _ _ _ Hconf) as [props ->].
  destruct this as [sz sch]. cbn [properties Struct_schema] in *.
  assert (Hok' := Hok). cbn [layoutOk] in Hok'. bool_hyps.
  destruct (chain layoutOk 0 sch) as [e|] eqn:Hc; [|discriminate].
  destruct (chain_sorted _ _ _ _ Hc) as (_ & Hall & _).
  destruct (Hall i name f Hi) as (Hf & _).
  cbn [conforms] in Hconf. destruct Hconf as [Hconf _].
  pose proof (fieldsConform_lookup _ _ _ _ i name f Hconf Hi) as Hval.
  rewrite Hown in Hval. unfold fieldValueOk in Hval.
  unfold content, encoding, payload in Hres.
  assert (Hf' := Hf). unfold fieldOk in Hf'.
  destruct (type f) as [t|nested] eqn:Ht.
  - destruct (isBits f) eqn:Hbits.
    + destruct Hval as (n & -> & Hrange).
      destruct (fieldOk_bitField _ f Hf Hbits) as (_ & p & _ & _ & Hp & _).
      exists n, p. rewrite Hp in Hres. cbn [default id] in Hres.
      injection Hres as Hres. auto.
    + destruct (String.eqb t "string") eqn:Hstr.
      * destruct Hval as (s & -> & _). exists s. auto.
      * destruct Hval as (m & n & Hm & Hfits & ->). exists m, n.
        rewrite Hm in Hres, Hf'. bool_hyps.
        split; [exact Hm|]. split; [reflexivity|].
        rewrite Hres. pose proof (length_intBytes m n) as Hlen.
        destruct (fmt_big m);
          (replace (Z.to_nat (size f) - length (intBytes m n))%nat with 0%nat by lia);
          apply app_nil_r.
  - simpl in Hf'. bool_hyps.
    assert (Hn : nestedIn sch nested).
    { exists name, f. split; [|exact Ht].
      apply list_elem_of_In, list_elem_of_lookup. eauto. }
    destruct (toBuffer_toObject false nested x (layoutOk_nested _ _ _ Hok Hn) Hval)
      as (nb & Hnb & Hnbl & _).
    replace (isBits f) with false in Hres by congruence.
    rewrite Hnb in Hres |- *. rewrite Hres. unfold byteLength in Hnbl.
    replace (Z.to_nat (size f) - length nb)%nat with 0%nat by lia.
    cbn [replicate]. now rewrite app_nil_r.
Qed.

Lemma toBuffer_stores_each_field_witness :
  exists m n,
    Buffer_format "UInt16LE" = Some m /\
    VNumber 300 = (if fmt_big m then VBigInt n else VNumber n) /\
    slice [90; 44; 1] 1 2 = intBytes m n.
Proof.
  apply (toBuffer_stores_each_field
           example_schema example_struct example_record [90; 44; 1] 2 "c"
           (mkField (Named "UInt16LE") 2 1 false None) (VNumber 300)).
  - reflexivity.
  - reflexivity.
  - simpl. repeat split; try reflexivity.
    + exists 10. split; [reflexivity|]. unfold bitfieldRange.
      change (startsWith "UInt8" "Int") with false. cbn [size]. lia.
    + exists 5. split; [reflexivity|]. unfold bitfieldRange.
      change (startsWith "UInt8" "Int") with false. cbn [size]. lia.
    + exists (mkFormat 2 false true false), 300.
      split; [reflexivity|]. split; [|reflexivity].
      unfold fits, fmt_min, fmt_max, fmt_bits. simpl. lia.
  - reflexivity.
  - reflexivity.
  - reflexivity.
Defined.

(** ** A bitfield declared wider than a byte *)

Lemma testbit_asIntN (w v i : Z) :
  1 <= w -> 0 <= i < w -> Z.testbit (asIntN w v) i = Z.testbit v i.
Proof.
  intros Hw Hi.
  rewrite <- (Z.mod_pow2_bits_low (asIntN w v) w i) by lia.
  rewrite asIntN_mod by lia. apply Z.mod_pow2_bits_low. lia.
Qed.

Lemma applyBitmask_wide (cur : Z) (f : SchemaFieldType) (v : Z) :
  8 <= size f < 31 ->
  applyBitmask cur f v 0 mod 256 = v mod 256.
Proof.
  intros Hw. change 256 with (2 ^ 8). apply Z.bits_inj'. intros i Hi.
  destruct (Z.lt_ge_cases i 8) as [Hlo | Hhi].
  - rewrite !Z.mod_pow2_bits_low by lia. unfold applyBitmask.
    rewrite testbit_bor, !testbit_band, testbit_bnot by lia.
    rewrite !testbit_shl by lia. rewrite Z.sub_0_r.
    destruct (Z.leb_spec 0 i); [|lia]. cbn [andb].
    rewrite testbit_mask by lia.
    destruct (Z.ltb_spec i (size f)); [|lia].
    cbn [negb]. now rewrite andb_false_r, andb_true_r.
  - now rewrite !Z.mod_pow2_bits_high by lia.
Qed.

Lemma rawBits_wide (byte w : Z) :
  8 <= w < 31 -> 0 <= byte < 256 -> rawBits byte 0 w = byte.
Proof.
  intros Hw Hb. unfold rawBits, band, sar. rewrite shl_1 by lia.
  assert (2 ^ 8 <= 2 ^ w) by (apply Z.pow_le_mono_r; lia).
  assert (2 ^ w < 2 ^ 31) by (apply Z.pow_lt_mono_r; lia).
  change (2 ^ 8) with 256 in *. change (0 mod 32) with 0.
  rewrite Z.shiftr_0_r. rewrite (ToInt32_small byte) by lia.
  rewrite (ToInt32_small byte) by lia.
  rewrite (ToInt32_small (2 ^ w - 1)) by lia.
  replace (2 ^ w - 1) with (Z.ones w) by (rewrite Z.ones_equiv; lia).
  rewrite Z.land_ones by lia. apply Z.mod_small. lia.
Qed.

(** X17: a bitfield declared wider than 8 bits, which the constructor
    accepts, keeps the low 8 bits of its value only.  [writeBitField]
    takes every value in the range of the declared width without an error,
    stores its low byte, and [readBitField] returns that byte: a value
    outside [0, 255] is not read back. *)
Theorem wide_bitfield_keeps_low_byte
    (b : Buffer) (t : string) (w off v : Z) :
  t = "Int8" \/ t = "UInt8" ->
  9 <= w <= 30 ->
  0 <= off < byteLength b ->
  bitfieldRange t w v ->
  exists b',
    writeBitField b (mkField (Named t) w off true (Some 0)) v = Ok b' /\
    Buffer_get b' off = Some (v mod 256) /\
    readBitField b' (mkField (Named t) w off true (Some 0)) = Ok (v mod 256).
Proof.
  intros Ht Hw Hoff Hv.
  rewrite writeBitField_bitField by (assumption || lia).
  eexists. split; [reflexivity|].
  set (f := mkField (Named t) w off true (Some 0)).
  assert (Hbyte : applyBitmask (default 0 (Buffer_get b off)) f
                    (if startsWith t "Int" then asIntN w v else v) 0 mod 256
                  = v mod 256).
  { rewrite applyBitmask_wide by (cbn [size f]; lia).
    destruct (startsWith t "Int"); [|reflexivity].
    change 256 with (2 ^ 8). apply Z.bits_inj'. intros i Hi.
    destruct (Z.lt_ge_cases i 8).
    - rewrite !Z.mod_pow2_bits_low by lia. apply testbit_asIntN; lia.
    - now rewrite !Z.mod_pow2_bits_high by lia. }
  cbn [default id]. rewrite Buffer_get_put_same by assumption.
  rewrite Hbyte. split; [reflexivity|]. subst f.
  rewrite readBitField_rawBits by lia. cbn zeta.
  rewrite Buffer_get_put_same by assumption. cbn [default id]. rewrite Hbyte.
  pose proof (Z.mod_pos_bound v 256 ltac:(lia)) as Hrange.
  rewrite rawBits_wide by lia. f_equal.
  destruct (startsWith t "Int"); [|reflexivity].
  unfold asIntN. destruct (Z.leb_spec w 0); [lia|].
  assert (Hpow : 2 ^ w = 2 * 2 ^ (w - 1)).
  { rewrite <- Z.pow_succ_r by lia. f_equal. lia. }
  assert (2 ^ 8 <= 2 ^ (w - 1)) by (apply Z.pow_le_mono_r; lia).
  change (2 ^ 8) with 256 in *.
  rewrite Z.mod_small; lia.
Qed.

Lemma wide_bitfield_keeps_low_byte_witness :
  new_Struct [("f", Token "UInt8:9")]
    = Ok (mkStruct 2 [("f", mkField (Named "UInt8") 9 1 true (Some 0))]) /\
  exists b',
    writeBitField [0; 0] (mkField (Named "UInt8") 9 1 true (Some 0)) 300 = Ok b' /\
    Buffer_get b' 1 = Some 44 /\
    readBitField b' (mkField (Named "UInt8") 9 1 true (Some 0)) = Ok 44.
Proof.
  split; [reflexivity|].
  apply (wide_bitfield_keeps_low_byte [0; 0] "UInt8" 9 1 300).
  - right. reflexivity.
  - lia.
  - unfold byteLength. simpl. lia.
  - unfold bitfieldRange. simpl. lia.
Defined.

(** ** The sizes of the primitive types *)

(** X18: the table of [parsePrimitiveField] agrees with the accessors of
    the buffer.  A token is accepted as a primitive type exactly when
    [readField] and [writeField] have an accessor for it, and the size
    recorded for it is the number of bytes that accessor reads and
    writes. *)
Theorem primitive_sizes_match_accessors (token : string) :
  match Buffer_format token with
  | Some method =>
      parsePrimitiveField token
      = Ok (mkParsed (Named token) (Z.of_nat (fmt_bytes method)) false)
  | None => primitiveToken token = false
  end.
Proof.
  unfold Buffer_format, parsePrimitiveField, primitiveToken, get, typeSizes, own.
  repeat match goal with
    | |- context [String.eqb token ?k] =>
        destruct (String.eqb_spec token k) as [-> | ?]; [reflexivity|]
    end.
  repeat match goal with
    | |- context [String.eqb ?k token] =>
        destruct (String.eqb_spec k token) as [<- | _]; [congruence|]
    end.
  reflexivity.
Qed.

(** ** Decoding a record that omits fields *)

Lemma le_bytes_zero (n : nat) : le_bytes n 0 = replicate n 0.
Proof.
  induction n as [|n IH]; [reflexivity|]. cbn [le_bytes replicate].
  change (0 / 256) with 0. change (0 mod 256) with 0. now rewrite IH.
Qed.

Lemma rev_replicate_zero (n : nat) : rev (replicate n 0) = replicate n 0.
Proof.
  induction n as [|n IH]; [reflexivity|].
  cbn [replicate rev]. rewrite IH. symmetry. apply replicate_S_end.
Qed.

Lemma intBytes_zero (m : IntFormat) : intBytes m 0 = replicate (fmt_bytes m) 0.
Proof.
  unfold intBytes. rewrite le_bytes_zero.
  destruct (fmt_little m); [reflexivity | apply rev_replicate_zero].
Qed.

Lemma fits_zero (t : string) (m : IntFormat) : Buffer_format t = Some m -> fits m 0.
Proof.
  intros Hm. pose proof (Buffer_format_bytes t m Hm) as Hn.
  unfold fits, fmt_min, fmt_max, fmt_bits.
  assert (0 < 2 ^ (8 * Z.of_nat (fmt_bytes m) - 1)) by (apply Z.pow_pos_nonneg; lia).
  assert (0 < 2 ^ (8 * Z.of_nat (fmt_bytes m))) by (apply Z.pow_pos_nonneg; lia).
  destruct (fmt_signed m); lia.
Qed.

Lemma asIntN_zero (w : Z) : asIntN w 0 = 0.
Proof.
  unfold asIntN. destruct (Z.leb_spec w 0); [reflexivity|].
  assert (Hpow : 2 ^ w = 2 * 2 ^ (w - 1)).
  { rewrite <- Z.pow_succ_r by lia. f_equal. lia. }
  assert (Hpos : 0 < 2 ^ (w - 1)) by (apply Z.pow_pos_nonneg; lia).
  rewrite Z.mod_small; lia.
Qed.

(** A field whose bytes are zero decodes to its zero value. *)
Lemma toObject_field_zero (b : Buffer) (f : SchemaFieldType) :
  fieldOk layoutOk f = true ->
  endBit f <= 8 * byteLength b ->
  content b f = zeroContent f ->
  (forall nested, type f = Layout nested ->
     toObject nested (replicate (Z.to_nat (Struct_size nested)) 0)
     = Ok (zeroRecord nested)) ->
  toObject_field toObject b f = Ok (zeroValue zeroRecord f).
Proof.
  intros Hf Hend Hcont Hnested.
  destruct (fieldOk_extent _ f Hf) as (Hoff & Hsz & _).
  assert (Hf' := Hf). unfold fieldOk in Hf'.
  unfold content, zeroContent in Hcont. unfold zeroValue.
  destruct f as [[t|nested] sz off fb pos];
    cbn [type size offset isBits position] in *.
  - destruct fb.
    + injection Hcont as Hraw.
      unfold toObject_field. rewrite readBitField_rawBits by lia. cbn zeta.
      rewrite Hraw. cbn [mbind outcome_bind].
      destruct (startsWith t "Int"); [now rewrite asIntN_zero | reflexivity].
    + unfold endBit in Hend. cbn [isBits offset size] in Hend.
      unfold toObject_field, readField. cbn [type offset size].
      destruct (String.eqb t "string") eqn:Hstr.
      * rewrite Buffer_toString_slice by lia. rewrite Hcont.
        unfold utf8_decode. now rewrite utf8_decode_zeros, trimNul_zeros.
      * destruct (Buffer_format t) as [m|] eqn:Hm; [|bool_hyps; discriminate].
        bool_hyps. destruct (Buffer_format_big t m Hm) as [Hbig _].
        rewrite (Buffer_readInt_ok m b 0 off (Buffer_format_bytes t m Hm)
                   (fits_zero t m Hm)).
        -- cbn [mbind outcome_bind]. rewrite Hbig.
           destruct (fmt_big m); reflexivity.
        -- unfold inBounds. bool_goal; lia.
        -- rewrite intBytes_zero.
           replace (Z.of_nat (fmt_bytes m)) with sz by lia. rewrite Hcont.
           f_equal. lia.
  - unfold endBit in Hend. simpl in Hf'. bool_hyps. subst fb.
    cbn [isBits offset size] in Hend.
    unfold toObject_field. rewrite Buffer_subarray_slice by lia.
    rewrite Hcont. replace sz with (Struct_size nested) by lia.
    now apply Hnested.
Qed.

(** The buffer of zeros decodes to the record of zero values. *)
Lemma toObject_zeros (this : Struct) :
  layoutOk this = true ->
  toObject this (replicate (Z.to_nat (Struct_size this)) 0) = Ok (zeroRecord this).
Proof.
  induction this as [sz sch IH] using Struct_induction.
  intros Hok. assert (Hok' := Hok). cbn [layoutOk] in Hok'. bool_hyps.
  destruct (chain layoutOk 0 sch) as [e|] eqn:Hchain; [|discriminate]. bool_hyps.
  destruct (chain_sorted _ _ _ _ Hchain) as (_ & Hall & _).
  cbn [toObject zeroRecord Struct_size].
  assert (Hlen0 : byteLength (replicate (Z.to_nat sz) 0) = sz).
  { unfold byteLength. rewrite length_replicate. lia. }
  rewrite (toObject_loop_ok _ (zeroField zeroRecord) sch []).
  - reflexivity.
  - intros entry. reflexivity.
  - assumption.
  - assumption.
  - intros i name f Hi. destruct (Hall i name f Hi) as (Hf & _ & Hle).
    apply toObject_field_zero.
    + exact Hf.
    + lia.
    + apply content_zeros; [exact Hf | lia].
    + intros nested Ht.
      assert (Hn : nestedIn sch nested).
      { exists name, f. split; [|exact Ht].
        apply list_elem_of_In, list_elem_of_lookup. eauto. }
      exact (IH nested Hn (layoutOk_nested _ _ _ Hok Hn)).
Qed.

(** A field the record populates decodes to the value it was given. *)
Lemma toObject_field_present (props : list (string * Value)) (name : string)
    (f : SchemaFieldType) (x : Value) (b : Buffer) :
  fieldOk layoutOk f = true ->
  endBit f <= 8 * byteLength b ->
  own props name = Some x ->
  fieldValueOk (conforms false) f x ->
  content b f = encoding f x ->
  (forall nested, type f = Layout nested ->
     exists nb, toBuffer nested x = Ok nb /\ byteLength nb = Struct_size nested /\
                toObject nested nb = Ok (filled nested x)) ->
  toObject_field toObject b f = Ok (filledField filled props (name, f)).2.
Proof.
  intros Hf Hend Hown Hval Hcont Hnested.
  unfold filledField. cbn [fst snd]. rewrite Hown.
  destruct (type f) as [t|nested] eqn:Ht.
  - assert (Hval' : fieldValueOk (conforms true) f x).
    { unfold fieldValueOk in *. rewrite Ht in *. exact Hval. }
    rewrite (toObject_field_ok props name f x b Hf Hend Hown Hval' Hcont).
    + unfold normalizeField. cbn [fst snd]. rewrite Ht.
      now destruct (own_get props name x Hown) as [_ ->].
    + intros nested Hn. congruence.
  - destruct (Hnested nested eq_refl) as (nb & Hnb & Hnbl & Hdec).
    destruct (fieldOk_extent _ f Hf) as (Hoff & Hsz & _).
    assert (Hf' := Hf). unfold fieldOk in Hf'. rewrite Ht in Hf'. bool_hyps.
    unfold endBit in Hend. replace (isBits f) with false in Hend by congruence.
    unfold content, encoding, payload in Hcont.
    replace (isBits f) with false in Hcont by congruence.
    rewrite Ht, Hnb in Hcont.
    destruct f as [ty sz off fb pos]. cbn [type size offset isBits] in *. subst ty.
    unfold toObject_field. rewrite Buffer_subarray_slice by lia.
    rewrite Hcont. unfold byteLength in Hnbl.
    replace (Z.to_nat sz - length nb)%nat with 0%nat by lia.
    cbn [replicate]. rewrite app_nil_r. exact Hdec.
Qed.

Lemma toBuffer_toObject_filled (this : Struct) :
  forall data : Value,
    layoutOk this = true -> conforms false this data ->
    exists b,
      toBuffer this data = Ok b /\
      byteLength b = Struct_size this /\
      toObject this b = Ok (filled this data).
Proof.
  induction this as [sz sch IH] using Struct_induction.
  intros data Hok Hconf.
  destruct (toBuffer_toObject false (mkStruct sz sch) data Hok Hconf)
    as (b & Hb & Hlen & Hres & _).
  exists b. split; [exact Hb|]. split; [exact Hlen|].
  assert (Hok' := Hok). cbn [layoutOk] in Hok'. bool_hyps.
  destruct (chain layoutOk 0 sch) as [e|] eqn:Hchain; [|discriminate]. bool_hyps.
  destruct (chain_sorted _ _ _ _ Hchain) as (_ & Hall & _).
  destruct (conforms_object _ _ _ Hconf) as [props ->].
  cbn [conforms] in Hconf. destruct Hconf as [Hconf _].
  cbn [toObject filled properties Struct_schema Struct_size] in *.
  rewrite (toObject_loop_ok b (filledField filled props) sch []).
  - reflexivity.
  - intros entry. reflexivity.
  - assumption.
  - assumption.
  - intros i name f Hi. destruct (Hall i name f Hi) as (Hf & _ & Hle).
    pose proof (fieldsConform_lookup _ _ _ _ i name f Hconf Hi) as Hv.
    pose proof (Hres i name f Hi) as Hc. unfold written in Hc.
    destruct (own props name) as [x|] eqn:Hown.
    + apply (toObject_field_present props name f x b Hf ltac:(lia) Hown Hv Hc).
      intros nested Ht.
      assert (Hn : nestedIn sch nested).
      { exists name, f. split; [|exact Ht].
        apply list_elem_of_In, list_elem_of_lookup. eauto. }
      unfold fieldValueOk in Hv. rewrite Ht in Hv.
      exact (IH nested Hn x (layoutOk_nested _ _ _ Hok Hn) Hv).
    + unfold filledField. cbn [fst snd]. rewrite Hown.
      apply toObject_field_zero; [exact Hf | lia | exact Hc |].
      intros nested Ht.
      assert (Hn : nestedIn sch nested).
      { exists name, f. split; [|exact Ht].
        apply list_elem_of_In, list_elem_of_lookup. eauto. }
      apply toObject_zeros. exact (layoutOk_nested _ _ _ Hok Hn).
Qed.

(** X19: a record that omits fields is decoded with zero values in their
    place.  For a record whose fields, where present, hold fitting values
    (nested records may omit fields too), [toBuffer] succeeds and
    [toObject] of its buffer is the record with every declared field, in
    the order of the schema: a field the record populates has its value, a
    field it omits has the number 0, the bigint 0, the empty text or, for a
    nested layout, the record of such values. *)
Theorem omitted_fields_decode_to_zero
    (schema : StructSchemaInterface) (this : Struct) (data : Value) :
  wellFormedSchema schema = true ->
  new_Struct schema = Ok this ->
  conforms false this data ->
  exists b,
    toBuffer this data = Ok b /\
    toObject this b = Ok (filled this data).
Proof.
  intros Hwf Hnew Hconf.
  destruct (new_Struct_ok schema Hwf) as (this' & Hnew' & Hok & _).
  rewrite Hnew in Hnew'. injection Hnew' as <-.
  destruct (toBuffer_toObject_filled this data Hok Hconf) as (b & Hb & _ & Hdec).
  eauto.
Qed.

Lemma omitted_fields_decode_to_zero_witness :
  exists b,
    toBuffer example_struct (VObject [("c", VNumber 300)]) = Ok b /\
    toObject example_struct b
      = Ok (VObject [("a", VNumber 0); ("b", VNumber 0); ("c", VNumber 300)]).
Proof.
  apply (omitted_fields_decode_to_zero
           example_schema example_struct (VObject [("c", VNumber 300)])).
  - reflexivity.
  - reflexivity.
  - simpl. repeat split; try reflexivity.
    exists (mkFormat 2 false true false), 300.
    split; [reflexivity|]. split; [|reflexivity].
    unfold fits, fmt_min, fmt_max, fmt_bits. simpl. lia.
Defined.

(** ** A nested field given a value that is not a record *)

(** X20: the error [toBuffer] raises for a nested field whose value is no
    record.  A falsy value (null, undefined, 0, the empty text, false)
    raises the error of the parent, which names the field; a truthy value
    that is no object (a number, a text, true, a bigint, a function) is
    handed to the nested layout and raises its error, which names no
    field. *)
Theorem nested_field_errors
    (sz : Z) (before after : SchemaInterface) (name : string) (nested : Struct)
    (fsz off : Z) (fb : bool) (pos : option Z)
    (props : list (string * Value)) (x : Value) :
  0 <= sz -> 0 <= Struct_size nested ->
  (forall n f, In (n, f) before -> has props n = false) ->
  own props name = Some x ->
  (forall nestedProps, x <> VObject nestedProps) ->
  toBuffer (mkStruct sz (before ++ (name, mkField (Layout nested) fsz off fb pos) :: after))
           (VObject props)
  = Throw (Error (if truthy x
                  then "Expected an object of fields, but received " ++ typeof x
                  else "Expected an object for field " ++ name
                       ++ ", but received " ++ typeof x)%string).
Proof.
  intros Hsz Hnsz Habsent Hown Hno. cbn [toBuffer].
  rewrite Buffer_alloc_ok by assumption.
  cbn [mbind outcome_bind truthy typeof properties negb orb].
  change (String.eqb "object" "object") with true. cbn [negb orb].
  rewrite toBuffer_loop_skip by assumption. cbn [toBuffer_loop].
  destruct (own_get props name x Hown) as [Hhas Hget].
  rewrite Hhas. cbn [negb]. unfold toBuffer_field. rewrite Hget.
  destruct (truthy x) eqn:Htruthy; [|reflexivity].
  destruct nested as [nsz nsch]. cbn [toBuffer Struct_size] in *.
  rewrite Buffer_alloc_ok by assumption. cbn [mbind outcome_bind].
  rewrite (not_object_guard x Hno). reflexivity.
Qed.

Lemma nested_field_errors_witness :
  toBuffer outer_struct (VObject [("inner", VString [104; 105])])
    = Throw (Error "Expected an object of fields, but received string") /\
  toBuffer outer_struct (VObject [("inner", VNull)])
    = Throw (Error "Expected an object for field inner, but received object").
Proof.
  split.
  - apply (nested_field_errors 1 [] [] "inner" inner_struct 1 0 false None
             [("inner", VString [104; 105])] (VString [104; 105])).
    + lia.
    + simpl. lia.
    + intros n f [].
    + reflexivity.
    + discriminate.
  - apply (nested_field_errors 1 [] [] "inner" inner_struct 1 0 false None
             [("inner", VNull)] VNull).
    + lia.
    + simpl. lia.
    + intros n f [].
    + reflexivity.
    + discriminate.
Defined.

(** ** Records [toBuffer] accepts *)

Lemma le_value_range (bytes : list Z) :
  bytesOk bytes -> 0 <= le_value bytes < 256 ^ Z.of_nat (length bytes).
Proof.
  induction 1 as [|x bytes Hx _ IH]; [simpl; lia|].
  cbn [le_value length]. rewrite Nat2Z.inj_succ, Z.pow_succ_r by lia. lia.
Qed.

Lemma bytesOk_slice (b : Buffer) (o n : Z) : bytesOk b -> bytesOk (slice b o n).
Proof.
  intros Hb. unfold slice, bytesOk. now apply Forall_take, Forall_drop.
Qed.

Lemma bytesOk_rev (b : Buffer) : bytesOk b -> bytesOk (rev b).
Proof. apply List.Forall_rev. Qed.

(** An integer read from a buffer lies within the bounds of its type. *)
Lemma Buffer_readInt_fits (t : string) (m : IntFormat) (b : Buffer) (off : Z) :
  Buffer_format t = Some m -> bytesOk b ->
  inBounds b off (fmt_bytes m) = true ->
  exists v, Buffer_readInt m b off = Ok v /\ fits m v.
Proof.
  intros Hm Hb Hin. pose proof (Buffer_format_bytes t m Hm) as Hn.
  unfold Buffer_readInt. rewrite Hin. cbn [negb].
  set (bytes := if fmt_little m
                then slice b off (Z.of_nat (fmt_bytes m))
                else rev (slice b off (Z.of_nat (fmt_bytes m)))).
  assert (Hlen : length bytes = fmt_bytes m).
  { unfold inBounds in Hin. bool_hyps. subst bytes.
    destruct (fmt_little m); [|rewrite length_rev];
      rewrite length_slice by lia; lia. }
  assert (Hok : bytesOk bytes).
  { subst bytes. destruct (fmt_little m);
      [|apply bytesOk_rev]; now apply bytesOk_slice. }
  pose proof (le_value_range bytes Hok) as Hu. rewrite Hlen in Hu.
  change 256 with (2 ^ 8) in Hu. rewrite <- Z.pow_mul_r in Hu by lia.
  eexists. split; [reflexivity|].
  unfold fits, fmt_min, fmt_max, fmt_bits.
  set (bitsN := 8 * Z.of_nat (fmt_bytes m)) in *.
  assert (Hpow : 2 ^ bitsN = 2 * 2 ^ (bitsN - 1)).
  { rewrite <- Z.pow_succ_r by lia. f_equal. lia. }
  destruct (fmt_signed m); cbn [andb].
  - destruct (Z.leb_spec (2 ^ (bitsN - 1)) (le_value bytes)); lia.
  - lia.
Qed.

Lemma lookup_own {A : Type} (l : list (string * A)) (i : nat) (name : string) (v : A) :
  distinct (map fst l) = true -> l !! i = Some (name, v) -> own l name = Some v.
Proof.
  revert i. induction l as [|[k w] l IH]; intros i Hd Hi; [discriminate|].
  cbn [map fst distinct] in Hd. apply andb_true_iff in Hd as [Hk Hd].
  apply negb_true_iff in Hk. cbn [own]. destruct i as [|i].
  - injection Hi as -> ->. now rewrite String.eqb_refl.
  - cbn [lookup list_lookup] in Hi.
    destruct (String.eqb_spec k name) as [-> | _]; [|exact (IH i Hd Hi)].
    apply own_None in Hk. pose proof (IH i Hd Hi) as Hown. congruence.
Qed.

(** What [toObject] reads from a field is a value [toBuffer] accepts for
    it. *)
Lemma toObject_field_encodable (b : Buffer) (f : SchemaFieldType) :
  fieldOk layoutOk f = true ->
  endBit f <= 8 * byteLength b ->
  bytesOk b ->
  (forall nested, type f = Layout nested ->
     forall b', bytesOk b' -> Struct_size nested <= byteLength b' ->
       exists v, toObject nested b' = Ok v /\ encodable nested v) ->
  exists v, toObject_field toObject b f = Ok v /\ fieldEncodable encodable f v.
Proof.
  intros Hf Hend Hb Hnested.
  destruct (fieldOk_extent _ f Hf) as (Hoff & Hsz & _).
  assert (Hf' := Hf). unfold fieldOk in Hf'. unfold fieldEncodable.
  destruct f as [[t|nested] sz off fb pos];
    cbn [type size offset isBits position] in *.
  - destruct fb.
    + destruct (fieldOk_bitField _ _ Hf eq_refl)
        as (t' & p & [= <-] & Ht & _ & _ & _ & Hw & _).
      bool_hyps. cbn [size] in Hw.
      unfold toObject_field. rewrite readBitField_rawBits by lia. cbn zeta.
      cbn [mbind outcome_bind]. eexists. split; [reflexivity|].
      eexists. split; [reflexivity|]. unfold bitfieldRange.
      destruct (startsWith t "Int").
      * apply asIntN_range. lia.
      * pose proof (rawBits_range (default 0 (Buffer_get b off)) (default 0 pos) sz).
        lia.
    + unfold toObject_field. destruct (String.eqb t "string") eqn:Hstr.
      * unfold readField. cbn [type]. rewrite Hstr. eauto.
      * destruct (Buffer_format t) as [m|] eqn:Hm; [|bool_hyps; discriminate].
        bool_hyps. unfold endBit in Hend. cbn [isBits offset size] in Hend.
        destruct (Buffer_readInt_fits t m b off Hm Hb) as (v & Hv & Hfits).
        { unfold inBounds. bool_goal; lia. }
        rewrite (readField_integer b t m sz off pos Hm), Hv.
        cbn [mbind outcome_bind]. eexists. split; [reflexivity|].
        exists m, v. auto.
  - unfold endBit in Hend. simpl in Hf'. bool_hyps. subst fb.
    cbn [isBits offset size] in Hend.
    unfold toObject_field. rewrite Buffer_subarray_slice by lia.
    apply (Hnested nested eq_refl).
    + now apply bytesOk_slice.
    + unfold byteLength. rewrite length_slice by lia. lia.
Qed.

Lemma fieldsEncodable_map (P : Struct -> Value -> Prop)
    (val : string * SchemaFieldType -> string * Value)
    (all fields : SchemaInterface) :
  (forall entry, (val entry).1 = entry.1) ->
  distinct (map fst all) = true ->
  (forall name f, In (name, f) fields ->
     own all name = Some f /\ fieldEncodable P f (val (name, f)).2) ->
  fieldsEncodable P (map val all) fields.
Proof.
  intros Hname Hd. induction fields as [|[name f] rest IH]; intros Hall; [exact I|].
  cbn [fieldsEncodable]. split.
  - destruct (Hall name f (or_introl eq_refl)) as [Hown Hval].
    exists (val (name, f)).2. split; [|exact Hval].
    rewrite (own_map val all name Hname), Hown. reflexivity.
  - apply IH. intros n g Hin. apply Hall. now right.
Qed.

Lemma toObject_encodable (this : Struct) :
  layoutOk this = true ->
  forall b, bytesOk b -> Struct_size this <= byteLength b ->
    exists v, toObject this b = Ok v /\ encodable this v.
Proof.
  induction this as [sz sch IH] using Struct_induction.
  intros Hok b Hb Hlen. assert (Hok' := Hok). cbn [layoutOk] in Hok'. bool_hyps.
  destruct (chain layoutOk 0 sch) as [e|] eqn:Hchain; [|discriminate]. bool_hyps.
  destruct (chain_sorted _ _ _ _ Hchain) as (_ & Hall & _).
  cbn [Struct_size] in Hlen.
  assert (Hfield : forall i name f, sch !! i = Some (name, f) ->
            exists v, toObject_field toObject b f = Ok v
                      /\ fieldEncodable encodable f v).
  { intros i name f Hi. destruct (Hall i name f Hi) as (Hf & _ & Hle).
    apply toObject_field_encodable; [exact Hf | lia | exact Hb |].
    intros nested Ht.
    assert (Hn : nestedIn sch nested).
    { exists name, f. split; [|exact Ht].
      apply list_elem_of_In, list_elem_of_lookup. eauto. }
    exact (IH nested Hn (layoutOk_nested _ _ _ Hok Hn)). }
  set (val := fun entry : string * SchemaFieldType =>
                (entry.1, match toObject_field toObject b entry.2 with
                          | Ok v => v
                          | _ => VUndefined
                          end)).
  exists (VObject (map val sch)). split.
  - cbn [toObject]. rewrite (toObject_loop_ok b val sch []).
    + reflexivity.
    + intros entry. reflexivity.
    + assumption.
    + assumption.
    + intros i name f Hi. destruct (Hfield i name f Hi) as (v & Hv & _).
      subst val. cbn [fst snd]. now rewrite Hv.
  - cbn [encodable]. apply fieldsEncodable_map.
    + intros entry. reflexivity.
    + assumption.
    + intros name f Hin.
      apply list_elem_of_In, list_elem_of_lookup in Hin as [i Hi].
      split; [now apply (lookup_own sch i)|].
      destruct (Hfield i name f Hi) as (v & Hv & Henc).
      subst val. cbn [fst snd]. now rewrite Hv.
Qed.

(** [toBuffer] stores a value it accepts for a field. *)
Lemma toBuffer_field_encodable (props : list (string * Value)) (name : string)
    (f : SchemaFieldType) (x : Value) (b : Buffer) :
  fieldOk layoutOk f = true ->
  endBit f <= 8 * byteLength b ->
  own props name = Some x ->
  fieldEncodable encodable f x ->
  (forall nested, type f = Layout nested ->
     exists nb, toBuffer nested x = Ok nb /\ byteLength nb = Struct_size nested) ->
  exists b', toBuffer_field toBuffer props name f b = Ok b'.
Proof.
  intros Hf Hend Hown Hval Hnested.
  destruct (fieldOk_extent _ f Hf) as (Hoff & Hsz & _).
  destruct (own_get props name x Hown) as [_ Hget].
  assert (Hf' := Hf). unfold fieldOk in Hf'. unfold fieldEncodable in Hval.
  destruct f as [[t|nested] sz off fb pos];
    cbn [type size offset isBits position] in *.
  - destruct fb.
    + destruct (fieldOk_bitField _ _ Hf eq_refl)
        as (t' & p & [= <-] & Ht & _ & _ & _ & Hw & _).
      bool_hyps. cbn [size] in Hw. destruct Hval as (n & -> & Hrange).
      unfold toBuffer_field. rewrite Hget.
      rewrite writeBitField_bitField by (assumption || lia). eauto.
    + unfold endBit in Hend. cbn [isBits offset size] in Hend.
      unfold toBuffer_field. rewrite Hget.
      destruct (String.eqb t "string") eqn:Hstr.
      * destruct Hval as [s ->]. unfold writeField. cbn [type offset size].
        rewrite Hstr. rewrite Buffer_write_ok by lia. eauto.
      * destruct Hval as (m & n & Hm & Hfits & ->). rewrite Hm in Hf'. bool_hyps.
        rewrite (writeField_integer b t m sz off pos n Hm).
        rewrite Buffer_writeInt_ok; [eauto | exact Hfits |].
        unfold inBounds. bool_goal; lia.
  - unfold endBit in Hend. simpl in Hf'. bool_hyps. subst fb.
    cbn [isBits offset size] in Hend.
    destruct (Hnested nested eq_refl) as (nb & Hnb & Hnbl).
    unfold toBuffer_field. rewrite Hget.
    assert (Hobj : truthy x = true).
    { destruct nested as [nsz nsch]. cbn [encodable] in Hval.
      destruct x; try contradiction. reflexivity. }
    rewrite Hobj, Hnb. cbn [mbind outcome_bind]. unfold Buffer_set.
    destruct (Z.ltb_spec off 0); [lia|].
    destruct (Z.ltb_spec (byteLength b) (off + byteLength nb)); [lia|].
    cbn [orb]. eauto.
Qed.

Lemma toBuffer_loop_encodable (props : list (string * Value))
    (fields : SchemaInterface) :
  forall b : Buffer,
    (forall name f, In (name, f) fields ->
       fieldOk layoutOk f = true /\ endBit f <= 8 * byteLength b) ->
    fieldsEncodable encodable props fields ->
    (forall name f nested x,
        In (name, f) fields -> type f = Layout nested -> encodable nested x ->
        exists nb, toBuffer nested x = Ok nb /\ byteLength nb = Struct_size nested) ->
    exists b', toBuffer_loop toBuffer props fields b = Ok b'.
Proof.
  induction fields as [|[name f] rest IH]; intros b Hall Henc Hnested.
  - eexists. reflexivity.
  - cbn [fieldsEncodable] in Henc. destruct Henc as [(x & Hown & Hx) Henc].
    destruct (Hall name f (or_introl eq_refl)) as [Hf Hend].
    destruct (own_get props name x Hown) as [Hhas _].
    cbn [toBuffer_loop]. rewrite Hhas. cbn [negb].
    destruct (toBuffer_field_encodable props name f x b Hf Hend Hown Hx) as [b1 Hb1].
    { intros nested Ht. apply (Hnested name f nested x); auto.
      - now left.
      - unfold fieldEncodable in Hx. now rewrite Ht in Hx. }
    rewrite Hb1. cbn [mbind outcome_bind].
    apply toBuffer_field_length in Hb1. apply IH.
    + intros n g Hin. destruct (Hall n g (or_intror Hin)) as [Hg Hle].
      split; [exact Hg|]. unfold byteLength in *. now rewrite Hb1.
    + exact Henc.
    + intros n g nested' x' Hin. apply (Hnested n g nested' x'). now right.
Qed.

Lemma toBuffer_encodable (this : Struct) :
  layoutOk this = true ->
  forall data, encodable this data ->
    exists b, toBuffer this data = Ok b /\ byteLength b = Struct_size this.
Proof.
  induction this as [sz sch IH] using Struct_induction.
  intros Hok data Henc. assert (Hok' := Hok). cbn [layoutOk] in Hok'. bool_hyps.
  destruct (chain layoutOk 0 sch) as [e|] eqn:Hchain; [|discriminate]. bool_hyps.
  destruct (chain_sorted _ _ _ _ Hchain) as (_ & Hall & _).
  cbn [encodable] in Henc. destruct data as [| | | | | |props|]; try contradiction.
  assert (Hlen0 : byteLength (replicate (Z.to_nat sz) 0) = sz).
  { unfold byteLength. rewrite length_replicate. lia. }
  destruct (toBuffer_loop_encodable props sch (replicate (Z.to_nat sz) 0))
    as [b Hb].
  - intros name f Hin.
    apply list_elem_of_In, list_elem_of_lookup in Hin as [i Hi].
    destruct (Hall i name f Hi) as (Hf & _ & Hle). split; [exact Hf | lia].
  - exact Henc.
  - intros name f nested x Hin Ht Hx.
    assert (Hn : nestedIn sch nested) by (exists name, f; auto).
    exact (IH nested Hn (layoutOk_nested _ _ _ Hok Hn) x Hx).
  - assert (Hrun : toBuffer (mkStruct sz sch) (VObject props) = Ok b).
    { cbn [toBuffer]. rewrite Buffer_alloc_ok by lia.
      cbn [mbind outcome_bind truthy typeof negb orb properties].
      change (String.eqb "object" "object") with true. cbn [negb]. exact Hb. }
    exists b. split; [exact Hrun|]. now apply toBuffer_length in Hrun.
Qed.

(** X21: what [toObject] returns, [toBuffer] accepts.  From a buffer of at
    least [size] bytes, [toObject] returns a record that holds, for every
    declared field, a value of the kind of the field and within its range
    (nested records included), and [toBuffer] encodes that record without
    an error. *)
Theorem decoded_record_is_encodable
    (schema : StructSchemaInterface) (this : Struct) (b : Buffer) :
  wellFormedSchema schema = true ->
  new_Struct schema = Ok this ->
  bytesOk b ->
  Struct_size this <= byteLength b ->
  exists v b',
    toObject this b = Ok v /\
    encodable this v /\
    toBuffer this v = Ok b' /\
    byteLength b' = Struct_size this.
Proof.
  intros Hwf Hnew Hb Hlen.
  destruct (new_Struct_ok schema Hwf) as (this' & Hnew' & Hok & _).
  rewrite Hnew in Hnew'. injection Hnew' as <-.
  destruct (toObject_encodable this Hok b Hb Hlen) as (v & Hv & Henc).
  destruct (toBuffer_encodable this Hok v Henc) as (b' & Hb' & Hlen').
  exists v, b'. auto.
Qed.

Lemma decoded_record_is_encodable_witness :
  exists v b',
    toObject example_struct [255; 128; 255] = Ok v /\
    encodable example_struct v /\
    toBuffer example_struct v = Ok b' /\
    byteLength b' = 3.
Proof.
  apply (decoded_record_is_encodable example_schema example_struct [255; 128; 255]).
  - reflexivity.
  - reflexivity.
  - unfold bytesOk. repeat constructor; lia.
  - unfold byteLength. simpl. lia.
Defined.

(** ** Fields are encoded independently *)

(** X22: the value of a field changes the bytes of no other field.  Two
    records that fit the layout and hold the same value (or none) under
    the name of a field are encoded to buffers that hold the same bytes in
    that field, and the same bits when it is a bitfield, whatever the two
    records hold in the other fields. *)
Theorem field_bytes_depend_on_its_value_only
    (schema : StructSchemaInterface) (this : Struct) (data1 data2 : Value)
    (b1 b2 : Buffer) (i : nat) (name : string) (f : SchemaFieldType) :
  wellFormedSchema schema = true ->
  new_Struct schema = Ok this ->
  conforms false this data1 -> conforms false this data2 ->
  toBuffer this data1 = Ok b1 -> toBuffer this data2 = Ok b2 ->
  Struct_schema this !! i = Some (name, f) ->
  own (properties data1) name = own (properties data2) name ->
  if isBits f
  then rawBits (default 0 (Buffer_get b1 (offset f))) (default 0 (position f)) (size f)
       = rawBits (default 0 (Buffer_get b2 (offset f))) (default 0 (position f)) (size f)
  else slice b1 (offset f) (size f) = slice b2 (offset f) (size f).
Proof.
  intros Hwf Hnew Hc1 Hc2 Hb1 Hb2 Hi Hsame.
  destruct (new_Struct_ok schema Hwf) as (this' & Hnew' & Hok & _).
  rewrite Hnew in Hnew'. injection Hnew' as <-.
  destruct (toBuffer_toObject false this data1 Hok Hc1) as (b & Hb & _ & Hres1 & _).
  rewrite Hb1 in Hb. injection Hb as <-.
  destruct (toBuffer_toObject false this data2 Hok Hc2) as (b & Hb & _ & Hres2 & _).
  rewrite Hb2 in Hb. injection Hb as <-.
  specialize (Hres1 i name f Hi). specialize (Hres2 i name f Hi).
  unfold written in Hres1, Hres2. rewrite Hsame in Hres1.
  rewrite <- Hres2 in Hres1. unfold content in Hres1.
  destruct (isBits f); [now injection Hres1 | exact Hres1].
Qed.

Lemma field_bytes_depend_on_its_value_only_witness :
  slice [90; 44; 1] 1 2 = slice [0; 44; 1] 1 2.
Proof.
  apply (field_bytes_depend_on_its_value_only
           example_schema example_struct example_record
           (VObject [("c", VNumber 300)]) [90; 44; 1] [0; 44; 1] 2 "c"
           (mkField (Named "UInt16LE") 2 1 false None)).
  - reflexivity.
  - reflexivity.
  - simpl. repeat split; try reflexivity.
    + exists 10. split; [reflexivity|]. unfold bitfieldRange.
      change (startsWith "UInt8" "Int") with false. cbn [size]. lia.
    + exists 5. split; [reflexivity|]. unfold bitfieldRange.
      change (startsWith "UInt8" "Int") with false. cbn [size]. lia.
    + exists (mkFormat 2 false true false), 300.
      split; [reflexivity|]. split; [|reflexivity].
      unfold fits, fmt_min, fmt_max, fmt_bits. simpl. lia.
  - simpl. repeat split; try reflexivity.
    exists (mkFormat 2 false true false), 300.
    split; [reflexivity|]. split; [|reflexivity].
    unfold fits, fmt_min, fmt_max, fmt_bits. simpl. lia.
  - reflexivity.
  - reflexivity.
  - reflexivity.
  - reflexivity.
Defined.

(** ** The bits no field covers *)

Lemma separate_probe (f : SchemaFieldType) (byte bit : Z) :
  fieldOk layoutOk f = true ->
  0 <= bit < 8 ->
  ~ (firstBit f <= 8 * byte + bit < endBit f) ->
  separate f (mkField (Named "UInt8") 1 byte true (Some bit)).
Proof.
  intros Hf Hbit Hout. unfold separate, shareByte, apart, bitSpan, byteSpan.
  cbn [isBits offset size position default id fst snd].
  unfold endBit, firstBit in Hout.
  destruct (isBits f) eqn:Hb; cbn [andb].
  - destruct (fieldOk_bitField _ f Hf Hb) as (_ & p & _ & _ & Hp & ? & ? & ? & _).
    rewrite Hp in *. cbn [default id] in *.
    destruct (Z.eqb_spec (offset f) byte); cbn [fst snd]; lia.
  - cbn [fst snd]. lia.
Qed.

(** X23: the bits no field covers are zero.  In the buffer [toBuffer]
    returns for a record that fits the layout, every bit that lies in no
    declared field (the bits left over in a byte of bitfields) is 0. *)
Theorem uncovered_bits_are_zero
    (schema : StructSchemaInterface) (this : Struct) (data : Value) (b : Buffer)
    (byte bit : Z) :
  wellFormedSchema schema = true ->
  new_Struct schema = Ok this ->
  conforms false this data ->
  toBuffer this data = Ok b ->
  0 <= byte -> 0 <= bit < 8 ->
  (forall i name f, Struct_schema this !! i = Some (name, f) ->
                    ~ (firstBit f <= 8 * byte + bit < endBit f)) ->
  Z.testbit (default 0 (Buffer_get b byte)) bit = false.
Proof.
  intros Hwf Hnew Hconf Hb Hbyte Hbit Hout.
  destruct (new_Struct_ok schema Hwf) as (this' & Hnew' & Hok & _).
  rewrite Hnew in Hnew'. injection Hnew' as <-.
  destruct (conforms_object _ _ _ Hconf) as [props ->].
  destruct this as [sz sch]. cbn [Struct_schema] in Hout.
  assert (Hok' := Hok). cbn [layoutOk] in Hok'. bool_hyps.
  destruct (chain layoutOk 0 sch) as [e|] eqn:Hchain; [|discriminate]. bool_hyps.
  destruct (chain_sorted _ _ _ _ Hchain) as (_ & Hall & _).
  cbn [conforms] in Hconf. destruct Hconf as [Hconf _].
  assert (Hlen0 : byteLength (replicate (Z.to_nat sz) 0) = sz).
  { unfold byteLength. rewrite length_replicate. lia. }
  destruct (toBuffer_loop_ok false props sch 0 e (replicate (Z.to_nat sz) 0)
              Hchain ltac:(lia) Hconf) as (b' & Hrun & Hlen & Hframe & _).
  { intros name f nested x Hin Ht Hx.
    assert (Hn : nestedIn sch nested) by (exists name, f; auto).
    destruct (toBuffer_toObject false nested x (layoutOk_nested _ _ _ Hok Hn) Hx)
      as (nb & ? & ? & _). eauto. }
  { intros i name f Hi. destruct (Hall i name f Hi) as (Hf & _ & Hle).
    apply content_zeros; [exact Hf | lia]. }
  assert (Hb' : b' = b).
  { cbn [toBuffer] in Hb. rewrite Buffer_alloc_ok in Hb by lia.
    cbn [mbind outcome_bind truthy typeof negb orb properties] in Hb.
    change (String.eqb "object" "object") with true in Hb. cbn [negb] in Hb.
    congruence. }
  subst b'.
  set (probe := mkField (Named "UInt8") 1 byte true (Some bit) : SchemaFieldType).
  assert (Hprobe : fieldOk layoutOk probe = true).
  { unfold fieldOk, probe. cbn [type size offset isBits position].
    change (String.eqb "UInt8" "Int8" || String.eqb "UInt8" "UInt8") with true.
    bool_goal; lia. }
  assert (Hcontent : content b probe = content (replicate (Z.to_nat sz) 0) probe).
  { apply Hframe; [exact Hprobe|]. intros i name f Hi.
    destruct (Hall i name f Hi) as (Hf & _).
    apply separate_probe; [exact Hf | exact Hbit | exact (Hout i name f Hi)]. }
  unfold content, probe in Hcontent.
  cbn [isBits offset position size default id] in Hcontent.
  injection Hcontent as Hraw.
  assert (Hzero : rawBits (default 0 (Buffer_get (replicate (Z.to_nat sz) 0) byte)) bit 1 = 0).
  { destruct (Buffer_get (replicate (Z.to_nat sz) 0) byte) as [z|] eqn:Hget.
    - unfold Buffer_get in Hget. destruct (byte <? 0); [discriminate|].
      apply lookup_replicate in Hget as [-> _]. apply rawBits_zero.
    - apply rawBits_zero. }
  rewrite Hzero in Hraw.
  pose proof (testbit_rawBits (default 0 (Buffer_get b byte)) bit 1 0
                ltac:(lia) ltac:(lia) ltac:(lia) ltac:(lia)) as Htest.
  rewrite Hraw, Z.add_0_l in Htest.
  change (0 <? 1) with true in Htest. cbn [andb] in Htest.
  rewrite <- Htest. apply Z.bits_0.
Qed.

Lemma uncovered_bits_are_zero_witness :
  new_Struct [("x", Token "UInt8:3"); ("n", Token "UInt8")]
    = Ok (mkStruct 2 [("x", mkField (Named "UInt8") 3 0 true (Some 0));
                      ("n", mkField (Named "UInt8") 1 1 false None)]) /\
  toBuffer (mkStruct 2 [("x", mkField (Named "UInt8") 3 0 true (Some 0));
                        ("n", mkField (Named "UInt8") 1 1 false None)])
           (VObject [("x", VNumber 7); ("n", VNumber 255)]) = Ok [7; 255] /\
  Z.testbit (default 0 (Buffer_get [7; 255] 0)) 3 = false.
Proof.
  split; [reflexivity|]. split; [reflexivity|].
  apply (uncovered_bits_are_zero
           [("x", Token "UInt8:3"); ("n", Token "UInt8")]
           (mkStruct 2 [("x", mkField (Named "UInt8") 3 0 true (Some 0));
                        ("n", mkField (Named "UInt8") 1 1 false None)])
           (VObject [("x", VNumber 7); ("n", VNumber 255)]) [7; 255] 0 3).
  - reflexivity.
  - reflexivity.
  - simpl. repeat split; try reflexivity.
    + exists 7. split; [reflexivity|]. unfold bitfieldRange.
      change (startsWith "UInt8" "Int") with false. cbn [size]. lia.
    + exists (mkFormat 1 false true false), 255.
      split; [reflexivity|]. split; [|reflexivity].
      unfold fits, fmt_min, fmt_max, fmt_bits. simpl. lia.
  - reflexivity.
  - lia.
  - lia.
  - intros [|[|i]] name f Hi; try discriminate Hi; injection Hi as <- <-;
      unfold endBit, firstBit; cbn [isBits offset position size default id]; lia.
Defined.

(** ** The range check beyond 31 bits *)

Lemma shl_wraps (a b : Z) : shl a (b + 32) = shl a b.
Proof.
  unfold shl. replace (b + 32) with (b + 1 * 32) by lia.
  now rewrite Z.mod_add by lia.
Qed.

(** X24: the range check of a bitfield depends on its width modulo 32.
    The bounds are computed with the 32-bit shift [1 << size], so a field
    of width [w + 32] rejects exactly the values a field of width [w]
    rejects: a width of 33 bits, for instance, admits the values of 1
    bit. *)
Theorem range_check_wraps_at_32 (t : string) (w off : Z) (pos : option Z) (v : Z) :
  (exists e, validateBitfieldValue (mkField (Named t) (w + 32) off true pos) v = Throw e)
  <-> (exists e, validateBitfieldValue (mkField (Named t) w off true pos) v = Throw e).
Proof.
  unfold validateBitfieldValue. cbn [typeName type size mbind outcome_bind].
  replace (w + 32 - 1) with (w - 1 + 32) by lia. rewrite !shl_wraps.
  destruct ((v <? (if startsWith t "Int" then - shl 1 (w - 1) else 0))
            || ((if startsWith t "Int" then shl 1 (w - 1) - 1 else shl 1 w - 1) <? v)).
  - split; intros _; eexists; reflexivity.
  - split; intros [e He]; discriminate He.
Qed.

(** ** Buffers shorter than the layout *)

Lemma toObject_loop_fields_ok (nested : Struct -> Buffer -> outcome Value)
    (b : Buffer) (fields : SchemaInterface) :
  forall (result : list (string * Value)) (r : Value),
    toObject_loop nested b fields result = Ok r ->
    forall i name f, fields !! i = Some (name, f) ->
                     exists v, toObject_field nested b f = Ok v.
Proof.
  induction fields as [|[n g] rest IH]; intros result r Hrun i name f Hi;
    [discriminate|].
  cbn [toObject_loop] in Hrun.
  destruct (toObject_field nested b g) as [v| |] eqn:Hv; try discriminate.
  cbn [mbind outcome_bind] in Hrun.
  destruct (store result n v) as [result'| |]; try discriminate.
  cbn [mbind outcome_bind] in Hrun. destruct i as [|i].
  - injection Hi as <- <-. eauto.
  - exact (IH result' r Hrun i name f Hi).
Qed.

(** [toString] decodes the bytes of the range that lie within the
    buffer. *)
Lemma Buffer_toString_clamped (b : Buffer) (off n : Z) :
  0 <= off -> 0 <= n ->
  Buffer_toString b off (off + n) = utf8_decode (slice b off n).
Proof.
  intros Ho Hn. unfold Buffer_toString, slice, byteLength.
  rewrite Z.max_l by lia.
  destruct (Z.leb_spec (Z.min (off + n) (Z.of_nat (length b))) off) as [Hle | Hgt].
  - replace (take (Z.to_nat n) (drop (Z.to_nat off) b)) with (@nil Z); [reflexivity|].
    symmetry. apply length_zero_iff_nil. rewrite length_take, length_drop. lia.
  - f_equal. destruct (Z.le_gt_cases (off + n) (Z.of_nat (length b))).
    + rewrite Z.min_l by lia. f_equal. lia.
    + rewrite Z.min_r by lia. rewrite !take_ge; [reflexivity | |];
        rewrite length_drop; lia.
Qed.

(** The record [toObject] returns holds, under the name of each field,
    what [toObject] reads for the field. *)
Lemma toObject_values (this : Struct) (b : Buffer) (props : list (string * Value)) :
  layoutOk this = true ->
  toObject this b = Ok (VObject props) ->
  forall i name f, Struct_schema this !! i = Some (name, f) ->
    exists v, toObject_field toObject b f = Ok v /\ own props name = Some v.
Proof.
  destruct this as [sz sch]. cbn [layoutOk toObject Struct_schema].
  intros Hok Hrun i name f Hi. bool_hyps.
  set (val := fun entry : string * SchemaFieldType =>
                (entry.1, match toObject_field toObject b entry.2 with
                          | Ok v => v
                          | _ => VUndefined
                          end)).
  assert (Hall : toObject_loop toObject b sch [] = Ok (VObject (map val sch))).
  { apply (toObject_loop_ok b val sch []).
    - intros entry. reflexivity.
    - assumption.
    - assumption.
    - intros j n g Hj.
      destruct (toObject_loop_fields_ok _ _ _ _ _ Hrun j n g Hj) as [v Hv].
      subst val. cbn [fst snd]. now rewrite Hv. }
  rewrite Hrun in Hall. injection Hall as ->.
  destruct (toObject_loop_fields_ok _ _ _ _ _ Hrun i name f Hi) as [v Hv].
  exists v. split; [exact Hv|].
  rewrite (own_map val sch name (fun entry => eq_refl)).
  rewrite (lookup_own sch i name f) by assumption.
  subst val. cbn [option_map fst snd]. now rewrite Hv.
Qed.

(** C9, as amended: [toObject] checks no length itself.  On any buffer, also
    one shorter than the layout, it returns a record with one entry per
    declared field when every integer field lies within the bytes it is read
    from: in that record a bitfield whose byte lies beyond the buffer is
    decoded from a zero byte, to 0, a text field holds the text of those
    of its bytes that the buffer has, and a nested field holds the record
    the nested layout decodes from its range of the buffer.  It throws the
    [RangeError] of the buffer's read method (ERR_OUT_OF_RANGE or
    ERR_BUFFER_OUT_OF_BOUNDS) when some integer field does not lie within
    the buffer. *)
Theorem toObject_on_any_buffer
    (schema : StructSchemaInterface) (this : Struct) (b : Buffer) :
  wellFormedSchema schema = true ->
  new_Struct schema = Ok this ->
  (readable this b = true ->
   exists props,
     toObject this b = Ok (VObject props) /\
     map fst props = map fst schema /\
     forall i name f,
       Struct_schema this !! i = Some (name, f) ->
       (isBits f = true -> byteLength b <= offset f ->
        own props name = Some (VNumber 0)) /\
       (type f = Named "string" ->
        own props name
        = Some (VString (trimNul (utf8_decode (slice b (offset f) (size f)))))) /\
       (forall nested, type f = Layout nested ->
          exists v,
            own props name = Some v /\
            toObject nested (Buffer_subarray b (offset f) (offset f + size f))
            = Ok v)) /\
  (readable this b = false -> throwsRangeError (toObject this b)).
Proof.
  intros Hwf Hnew.
  destruct (new_Struct_ok schema Hwf) as (this' & Hnew' & Hok & Hkeys & _).
  rewrite Hnew in Hnew'. injection Hnew' as <-.
  pose proof (toObject_outcome this Hok b) as Hout.
  split; intros Hr; rewrite Hr in Hout; [|exact Hout].
  destruct Hout as (props & Hp & Hk). exists props. split; [exact Hp|].
  split; [now rewrite Hk|].
  intros i name f Hi.
  destruct (toObject_values this b props Hok Hp i name f Hi) as (v & Hv & Hown).
  assert (Hf : fieldOk layoutOk f = true).
  { destruct this as [sz sch]. cbn [layoutOk Struct_schema] in *. bool_hyps.
    destruct (chain layoutOk 0 sch) as [e|] eqn:Hc; [|discriminate].
    destruct (chain_sorted _ _ _ _ Hc) as (_ & Hall & _).
    now destruct (Hall i name f Hi). }
  destruct (fieldOk_extent _ f Hf) as (Hoff & Hsz & _).
  rewrite Hown. split; [|split].
  - intros Hb Hbeyond.
    destruct (fieldOk_bitField _ f Hf Hb) as (t & p & Ht & _ & Hp' & _ & _ & Hw & _).
    destruct f as [ty sz off fb pos]. cbn [type size offset isBits position] in *.
    subst ty fb pos. unfold toObject_field in Hv.
    rewrite readBitField_rawBits in Hv by lia. cbn zeta in Hv.
    assert (Hget : Buffer_get b off = None).
    { unfold Buffer_get. destruct (Z.ltb_spec off 0); [reflexivity|].
      apply lookup_ge_None. unfold byteLength in Hbeyond. lia. }
    rewrite Hget in Hv. cbn [default mbind outcome_bind] in Hv.
    rewrite rawBits_zero in Hv.
    destruct (startsWith t "Int"); [rewrite asIntN_zero in Hv|]; congruence.
  - intros Ht. assert (Hf' := Hf). unfold fieldOk in Hf'. rewrite Ht in Hf'.
    destruct f as [ty sz off fb pos]. cbn [type size offset isBits position] in *.
    subst ty. destruct fb; [bool_hyps; discriminate|].
    unfold toObject_field in Hv. rewrite readField_text in Hv.
    rewrite Buffer_toString_clamped in Hv by lia. congruence.
  - intros nested Ht. exists v. split; [reflexivity|].
    destruct f as [ty sz off fb pos]. cbn [type size offset] in *. subst ty.
    exact Hv.
Qed.

Lemma toObject_on_any_buffer_witness :
  throwsRangeError (toObject example_struct [90]) /\
  (exists props,
     toObject bits_struct [] = Ok (VObject props) /\
     map fst props = ["lo"; "hi"] /\
     own props "lo" = Some (VNumber 0) /\ own props "hi" = Some (VNumber 0)) /\
  exists props,
    toObject text4 [104; 105] = Ok (VObject props) /\
    own props "t" = Some (VString [104; 105]).
Proof.
  split; [|split].
  - apply (proj2 (toObject_on_any_buffer example_schema example_struct [90]
                    eq_refl eq_refl)).
    reflexivity.
  - destruct (proj1 (toObject_on_any_buffer
                       [("lo", Token "UInt8:4"); ("hi", Token "Int8:4")]
                       bits_struct [] eq_refl eq_refl) eq_refl)
      as (props & Hp & Hk & Hvalues).
    exists props. split; [exact Hp|]. split; [exact Hk|]. split.
    + apply (proj1 (Hvalues 0%nat "lo" _ eq_refl)); [reflexivity|].
      unfold byteLength. simpl. lia.
    + apply (proj1 (Hvalues 1%nat "hi" _ eq_refl)); [reflexivity|].
      unfold byteLength. simpl. lia.
  - destruct (proj1 (toObject_on_any_buffer [("t", Text 4)] text4 [104; 105]
                       eq_refl eq_refl) eq_refl)
      as (props & Hp & _ & Hvalues).
    exists props. split; [exact Hp|].
    exact (proj1 (proj2 (Hvalues 0%nat "t" _ eq_refl)) eq_refl).
Defined.

(** C9 as stated fails: a two-byte integer cannot be read from one byte. *)
Lemma toObject_throws_on_short_buffer :
  exists this,
    new_Struct [("c", Token "UInt16LE")] = Ok this /\
    byteLength [1] < Struct_size this /\
    toObject this [1] = Throw ERR_BUFFER_OUT_OF_BOUNDS.
Proof.
  eexists. split; [reflexivity|]. split; [reflexivity|]. reflexivity.
Qed.
